(** * Financial planning engine: a shallow embedding and its properties

    The engine (RoboticAdvisor, [src/lib/engine]) is a set of pure TypeScript
    functions over JavaScript numbers.  Inputs are finite numbers, embedded
    as exact rationals ([Q]); rounding and overflow of IEEE doubles are not
    part of the model.  Finite inputs can still take the source out of the
    finite numbers through a singularity: a quotient whose denominator
    vanishes, the logarithm of a zero uniform draw, the maximum of an empty
    array.  Every value downstream of such a place has type [JS.num], which
    adds the two infinities and NaN with their arithmetic.

    Objects used as maps and iterated with [Object.entries] are association
    lists in insertion order (asset ids are not integer-like keys);
    [assumptions.assetClasses], which is only ever looked up by key, is a
    [gmap]. *)

From Stdlib Require Import QArith Qabs Qround Qminmax ZArith List Lia Lqa Bool.
From Stdlib Require Import Qpower Sorted Permutation.
From stdpp Require Import base strings gmap.
Import ListNotations.

Local Open Scope Q_scope.

(** ** JavaScript numbers and objects *)

Module JS.

Inductive num : Type :=
| Fin (q : Q)
| PInf
| NInf
| NaN.

Definition Qltb (a b : Q) : bool := negb (Qle_bool b a).

Definition neg (a : num) : num :=
  match a with
  | Fin q => Fin (- q)
  | PInf => NInf
  | NInf => PInf
  | NaN => NaN
  end.

Definition add (a b : num) : num :=
  match a, b with
  | NaN, _ | _, NaN => NaN
  | Fin x, Fin y => Fin (x + y)
  | PInf, NInf | NInf, PInf => NaN
  | PInf, _ | _, PInf => PInf
  | NInf, _ | _, NInf => NInf
  end.

Definition sub (a b : num) : num := add a (neg b).

(** The sign of an infinity after scaling by a finite factor; a zero
    factor gives NaN. *)
Definition scale_inf (positive : bool) (q : Q) : num :=
  if Qeq_bool q 0 then NaN
  else if Bool.eqb positive (Qltb 0 q) then PInf else NInf.

Definition mul (a b : num) : num :=
  match a, b with
  | NaN, _ | _, NaN => NaN
  | Fin x, Fin y => Fin (x * y)
  | PInf, Fin q | Fin q, PInf => scale_inf true q
  | NInf, Fin q | Fin q, NInf => scale_inf false q
  | PInf, PInf | NInf, NInf => PInf
  | PInf, NInf | NInf, PInf => NaN
  end.

(** [x / y] on finite operands: [0 / 0] is NaN and [x / 0] an infinity
    with the sign of [x] (the zero is taken as [+0]). *)
Definition qdiv (x y : Q) : num :=
  if Qeq_bool y 0 then
    (if Qeq_bool x 0 then NaN else if Qltb 0 x then PInf else NInf)
  else Fin (x / y).

Definition div (a b : num) : num :=
  match a, b with
  | NaN, _ | _, NaN => NaN
  | Fin x, Fin y => qdiv x y
  | Fin _, (PInf | NInf) => Fin 0
  | (PInf | NInf), (PInf | NInf) => NaN
  | PInf, Fin q => if Qltb q 0 then NInf else PInf
  | NInf, Fin q => if Qltb q 0 then PInf else NInf
  end.

(** [Math.pow(a, e)] for an integer exponent. *)
Definition pow (a : num) (e : Z) : num :=
  if (e =? 0)%Z then Fin 1
  else match a with
       | NaN => NaN
       | Fin q =>
           if (e <? 0)%Z && Qeq_bool q 0 then PInf else Fin (Qpower q e)
       | PInf => if (e <? 0)%Z then Fin 0 else PInf
       | NInf =>
           if (e <? 0)%Z then Fin 0
           else if Z.odd e then NInf else PInf
       end.

(** [a < b]; every comparison with NaN is false. *)
Definition lt (a b : num) : bool :=
  match a, b with
  | NaN, _ | _, NaN => false
  | Fin x, Fin y => Qltb x y
  | NInf, (Fin _ | PInf) => true
  | Fin _, PInf => true
  | _, _ => false
  end.

(** [a === b] on numbers. *)
Definition eqb (a b : num) : bool :=
  match a, b with
  | Fin x, Fin y => Qeq_bool x y
  | PInf, PInf | NInf, NInf => true
  | _, _ => false
  end.

(** Two numbers are the same when they are the same special value or
    equal rationals (a rational has many representations in [Q]). *)
Definition same (a b : num) : Prop :=
  match a, b with
  | Fin x, Fin y => x == y
  | PInf, PInf | NInf, NInf | NaN, NaN => True
  | _, _ => False
  end.

Definition abs (a : num) : num :=
  match a with
  | Fin q => Fin (Qabs q)
  | PInf | NInf => PInf
  | NaN => NaN
  end.

(** Zero and NaN are the falsy numbers. *)
Definition truthy (a : num) : bool :=
  match a with
  | Fin q => negb (Qeq_bool q 0)
  | NaN => false
  | PInf | NInf => true
  end.

(** [x || d] where [x] is a number or [undefined]. *)
Definition or_num (x : option num) (d : num) : num :=
  match x with
  | Some v => if truthy v then v else d
  | None => d
  end.

Definition finite (a : num) : Prop :=
  match a with
  | Fin _ => True
  | _ => False
  end.

(** The rational a finite number holds. *)
Definition toQ (a : num) : Q :=
  match a with
  | Fin q => q
  | _ => 0
  end.

(** [a >= 0]: false of NaN. *)
Definition nonneg (a : num) : Prop :=
  match a with
  | Fin q => 0 <= q
  | PInf => True
  | NInf | NaN => False
  end.

(** [Math.max(...xs)]: the maximum of an empty argument list is
    [-Infinity]. *)
Definition Math_max (xs : list Q) : num :=
  match xs with
  | [] => NInf
  | x :: rest => Fin (fold_left Qmax rest x)
  end.

(** [Math.round] rounds half-way cases up. *)
Definition Math_round (q : Q) : Q := inject_Z (Qfloor (q + (1 # 2))).

(** [x || d] where [x] is a finite number or [undefined]: zero is falsy. *)
Definition or (x : option Q) (d : Q) : Q :=
  match x with
  | Some v => if Qeq_bool v 0 then d else v
  | None => d
  end.

(** An object with string keys, in insertion order. *)
Definition obj (V : Type) : Type := list (string * V).

Fixpoint get {V} (o : obj V) (k : string) : option V :=
  match o with
  | [] => None
  | (k', v) :: rest => if String.eqb k' k then Some v else get rest k
  end.

(** [o[k] = v]: overwrite in place, or append a new key. *)
Fixpoint set {V} (o : obj V) (k : string) (v : V) : obj V :=
  match o with
  | [] => [(k, v)]
  | (k', v') :: rest =>
      if String.eqb k' k then (k', v) :: rest else (k', v') :: set rest k v
  end.

Definition keys {V} (o : obj V) : list string := map fst o.
Definition values {V} (o : obj V) : list V := map snd o.

(** The property names every plain object inherits from
    [Object.prototype].  Reading one of them from an object that has no
    own property of that name does not give [undefined] but a function
    (the prototype itself for [__proto__]): a truthy value on which the
    fields of an asset are [undefined]. *)
Definition inheritedKeys : list string :=
  ["constructor"; "hasOwnProperty"; "isPrototypeOf";
   "propertyIsEnumerable"; "toLocaleString"; "toString"; "valueOf";
   "__defineGetter__"; "__defineSetter__"; "__lookupGetter__";
   "__lookupSetter__"; "__proto__"].

Definition inherited (k : string) : bool :=
  existsb (String.eqb k) inheritedKeys.

(** [xs.reduce((sum, v) => sum + v, 0)] *)
Definition sum (xs : list Q) : Q := fold_left (fun s v => s + v) xs 0.

End JS.

(** ** Market assumptions ([assumptions/types.ts], [assumptions/india-2024.ts]) *)

Module Assumptions.

Record ReturnDist : Type := { mean : Q; volatility : Q }.

Record AssetClassParams : Type := {
  id : string;
  nominalReturn : ReturnDist;
  realReturn : ReturnDist;
  tradingCost : Q
}.

Record InflationParams : Type := {
  inflation_mean : Q;
  inflation_volatility : Q;
  persistence : Q
}.

(** Only the fields the engine reads are kept (the correlation matrix and
    the regimes are carried by the bundle but never used). *)
Record MarketAssumptions : Type := {
  version : string;
  assetClasses : gmap string AssetClassParams;
  inflation : InflationParams
}.

Definition asset (i : string) (nm nv rm rv tc : Q) : AssetClassParams :=
  {| id := i;
     nominalReturn := {| mean := nm; volatility := nv |};
     realReturn := {| mean := rm; volatility := rv |};
     tradingCost := tc |}.

Definition INDIA_2024_Q4 : MarketAssumptions :=
  {| version := "2024-Q4";
     assetClasses :=
       {[ "equity-nifty50" := asset "equity-nifty50" 12 18 6 (192 # 10) 10;
          "debt-govt-10y" := asset "debt-govt-10y" (72 # 10) (45 # 10) (12 # 10) 5 5;
          "gold" := asset "gold" 8 15 2 (155 # 10) 50;
          "cash" := asset "cash" 4 (5 # 10) (-2) (5 # 10) 0 ]};
     inflation :=
       {| inflation_mean := 6; inflation_volatility := 2;
          persistence := 6 # 10 |} |}.

End Assumptions.

(** ** Rebalancer ([rebalancing/rebalancer.ts]) *)

Module Rebalancing.
Import Assumptions.

Definition Portfolio : Type := JS.obj Q.

Inductive Action : Type := BUY | SELL.

Record Trade : Type := {
  asset : string;
  action : Action;
  amount : Q;
  currentValue : Q;
  targetValue : Q
}.

Record RebalancingConfig : Type := {
  driftThreshold : Q;
  minimumTradeAmount : option Q;
  tradingCostBps : option Q
}.

Record RebalancingResult : Type := {
  needsRebalancing : bool;
  drifts : JS.obj Q;
  maxDrift : JS.num;
  trades : list Trade;
  estimatedCost : Q;
  impactOnReturn : Q
}.


Definition totalValueOf (h : Portfolio) : Q := JS.sum (JS.values h).

Definition minimumTrade (config : RebalancingConfig) : Q :=
  JS.or (minimumTradeAmount config) 10000.

(** Step 2 of the source: one drift per target asset. *)
Definition driftsOf (currentPercentages : JS.obj Q)
    (targetAllocation : JS.obj Q) : JS.obj Q :=
  map (fun '(a, target) =>
         (a, JS.or (JS.get currentPercentages a) 0 - target))
      targetAllocation.

(** The body of the trade loop for one entry of [drifts]. *)
Definition tradeFor (currentHoldings : Portfolio)
    (targetAllocation : JS.obj Q) (totalValue minTrade : Q)
    (entry : string * Q) : list Trade :=
  let '(a, drift) := entry in
  if JS.Qltb 1 (Qabs drift) then
    let targetValue :=
      (default 0 (JS.get targetAllocation a) / 100) * totalValue in
    let currentValue := JS.or (JS.get currentHoldings a) 0 in
    let tradeAmount := targetValue - currentValue in
    if Qle_bool minTrade (Qabs tradeAmount) then
      [ {| asset := a;
           action := if JS.Qltb 0 tradeAmount then BUY else SELL;
           amount := Qabs tradeAmount;
           currentValue := currentValue;
           targetValue := targetValue |} ]
    else []
  else [].

Definition costOf (assumptions : MarketAssumptions)
    (config : RebalancingConfig) (ts : list Trade) : Q :=
  fold_left
    (fun total trade =>
       let assetParams := assetClasses assumptions !! asset trade in
       let bps :=
         JS.or (tradingCostBps config)
               (JS.or (option_map tradingCost assetParams) 10) in
       total + (amount trade * bps / 10000))
    ts 0.

Definition generateRebalancingTrades (currentHoldings : Portfolio)
    (targetAllocation : JS.obj Q) (assumptions : MarketAssumptions)
    (config : RebalancingConfig) : RebalancingResult :=
  let totalValue := totalValueOf currentHoldings in
  if Qeq_bool totalValue 0 then
    {| needsRebalancing := false; drifts := []; maxDrift := JS.Fin 0;
       trades := []; estimatedCost := 0; impactOnReturn := 0 |}
  else
    let currentPercentages :=
      map (fun '(a, value) => (a, (value / totalValue) * 100))
          currentHoldings in
    let ds := driftsOf currentPercentages targetAllocation in
    let maxD := JS.Math_max (map Qabs (JS.values ds)) in
    if JS.lt maxD (JS.Fin (driftThreshold config)) then
      {| needsRebalancing := false; drifts := ds; maxDrift := maxD;
         trades := []; estimatedCost := 0; impactOnReturn := 0 |}
    else
      let ts :=
        flat_map (tradeFor currentHoldings targetAllocation totalValue
                           (minimumTrade config)) ds in
      let cost := costOf assumptions config ts in
      {| needsRebalancing := true; drifts := ds; maxDrift := maxD;
         trades := ts; estimatedCost := cost;
         impactOnReturn := (cost / totalValue) * 10000 |}.





End Rebalancing.

(** ** Exceptions *)

Module Exn.

Inductive error : Type :=
| ValidationError (field message : string)
| Error (message : string)
| TypeError (message : string).

Inductive result (A : Type) : Type :=
| Ok (a : A)
| Throw (e : error).
Arguments Ok {A} a.
Arguments Throw {A} e.

Definition bind {A B} (r : result A) (k : A -> result B) : result B :=
  match r with
  | Ok a => k a
  | Throw e => Throw e
  end.

(** [mapM]: the first exception raised while mapping wins. *)
Fixpoint traverse {A B} (f : A -> result B) (l : list A) : result (list B) :=
  match l with
  | [] => Ok []
  | x :: rest =>
      bind (f x) (fun y => bind (traverse f rest) (fun ys => Ok (y :: ys)))
  end.

End Exn.

Notation "'let!' x ':=' c1 'in' c2" := (Exn.bind c1 (fun x => c2))
  (at level 10, x name, c1 at level 100, c2 at level 200).
Notation "'guard' b 'else' e ;; c" :=
  (if b then c else Exn.Throw e)
  (at level 10, b at level 9, e at level 9, c at level 200).

(** ** Time value of money ([math/compound.ts]) *)

Module Compound.
Import Exn.

Inductive AnnuityType : Type := due | ordinary.
Inductive Period : Type := monthly | annual.

Definition futureValue (presentValue rate : Q) (periods : Z) : result Q :=
  guard (negb (JS.Qltb presentValue 0))
    else (Error "Present value must be non-negative") ;;
  guard (negb (periods <? 0)%Z) else (Error "Periods must be non-negative") ;;
  Ok (presentValue * Qpower (1 + rate) periods).

(** A rate of [-1] makes the discount factor zero and the quotient leave
    the finite numbers. *)
Definition presentValue (futureValue rate : Q) (periods : Z)
    : result JS.num :=
  guard (negb (JS.Qltb futureValue 0))
    else (Error "Future value must be non-negative") ;;
  guard (negb (periods <? 0)%Z) else (Error "Periods must be non-negative") ;;
  Ok (JS.qdiv futureValue (Qpower (1 + rate) periods)).

Definition futureValueAnnuity (payment rate : Q) (periods : Z)
    (type : AnnuityType) : result Q :=
  guard (negb (JS.Qltb payment 0)) else (Error "Payment must be non-negative") ;;
  guard (negb (periods <? 0)%Z) else (Error "Periods must be non-negative") ;;
  if Qeq_bool rate 0 then Ok (payment * inject_Z periods)
  else
    let fv := payment * ((Qpower (1 + rate) periods - 1) / rate) in
    Ok (match type with due => fv * (1 + rate) | ordinary => fv end).

(** The rate reaching this function from the projector is a quotient and
    may fail to be finite, hence [JS.num]. *)
Definition presentValueAnnuity (payment : Q) (rate : JS.num) (periods : Z)
    : result JS.num :=
  guard (negb (JS.Qltb payment 0)) else (Error "Payment must be non-negative") ;;
  guard (negb (periods <? 0)%Z) else (Error "Periods must be non-negative") ;;
  if JS.eqb rate (JS.Fin 0) then Ok (JS.Fin (payment * inject_Z periods))
  else
    Ok (JS.mul (JS.Fin payment)
          (JS.div
             (JS.sub (JS.Fin 1)
                (JS.pow (JS.add (JS.Fin 1) rate) (- periods)))
             rate)).

Definition requiredSIP (targetAmount annualRate : Q) (years : Z)
    (type : Period) : result Q :=
  guard (negb (Qle_bool targetAmount 0))
    else (Error "Target amount must be positive") ;;
  guard (negb (years <=? 0)%Z) else (Error "Years must be positive") ;;
  let periods := match type with monthly => (years * 12)%Z | annual => years end in
  let rate := match type with monthly => annualRate / 12 | annual => annualRate end in
  if Qeq_bool rate 0 then Ok (targetAmount / inject_Z periods)
  else
    Ok (targetAmount /
          (((Qpower (1 + rate) periods - 1) / rate) * (1 + rate))).

Definition nominalToReal (nominalRate inflationRate : Q) : JS.num :=
  JS.sub (JS.qdiv (1 + nominalRate) (1 + inflationRate)) (JS.Fin 1).

Definition realToNominal (realRate inflationRate : Q) : Q :=
  (1 + realRate) * (1 + inflationRate) - 1.

End Compound.

(** ** The irrational part of [Math]

    [Math.sqrt] and the Box-Muller transform
    [Math.sqrt(-2 * Math.log(u1)) * Math.cos(2 * Math.PI * u2)] do not map
    rationals to rationals.  The model is parametric in rational-valued
    stand-ins for them where they are finite: the square root of a
    non-negative number, the transform of a non-zero first uniform. *)

Class JSMath : Type := {
  Math_sqrt : Q -> Q;
  boxMuller : Q -> Q -> Q
}.

(** ** Descriptive statistics ([math/statistics.ts]) *)

Module Statistics.
Import Exn.

(** [Array.prototype.sort] with a comparator is stable: an element that
    came first stays in front of another unless the comparator is positive
    (a NaN comparator counts as zero). *)
Fixpoint insertBy {A} (cmp : A -> A -> JS.num) (x : A) (l : list A)
    : list A :=
  match l with
  | [] => [x]
  | y :: rest =>
      if JS.lt (JS.Fin 0) (cmp x y) then y :: insertBy cmp x rest
      else x :: y :: rest
  end.

Fixpoint sortBy {A} (cmp : A -> A -> JS.num) (l : list A) : list A :=
  match l with
  | [] => []
  | x :: rest => insertBy cmp x (sortBy cmp rest)
  end.

(** [[...values].sort((a, b) => a - b)] *)
Definition sortNumbers (values : list JS.num) : list JS.num :=
  sortBy (fun a b => JS.sub a b) values.

Definition len {A} (l : list A) : Q := inject_Z (Z.of_nat (length l)).

(** [values.reduce((sum, v) => sum + v, 0)] *)
Definition sum (values : list JS.num) : JS.num :=
  fold_left JS.add values (JS.Fin 0).

(** [sorted[i]]: an index out of range reads [undefined], which is NaN in
    arithmetic. *)
Definition at_index (sorted : list JS.num) (i : nat) : JS.num :=
  nth i sorted JS.NaN.

Definition mean (values : list JS.num) : JS.num :=
  match values with
  | [] => JS.Fin 0
  | _ => JS.div (sum values) (JS.Fin (len values))
  end.

Definition median (values : list JS.num) : JS.num :=
  match values with
  | [] => JS.Fin 0
  | _ =>
      let sorted := sortNumbers values in
      let mid := Nat.div (length sorted) 2 in
      if Nat.even (length sorted)
      then JS.div (JS.add (at_index sorted (mid - 1)) (at_index sorted mid))
                  (JS.Fin 2)
      else at_index sorted mid
  end.

(** [Math.sqrt] on every number. *)
Definition sqrt `{JSMath} (a : JS.num) : JS.num :=
  match a with
  | JS.Fin q => if JS.Qltb q 0 then JS.NaN else JS.Fin (Math_sqrt q)
  | JS.PInf => JS.PInf
  | JS.NInf | JS.NaN => JS.NaN
  end.

Definition standardDeviation `{JSMath} (values : list JS.num) : JS.num :=
  match values with
  | [] => JS.Fin 0
  | _ =>
      let avg := mean values in
      let squaredDiffs := map (fun v => JS.pow (JS.sub v avg) 2) values in
      sqrt (mean squaredDiffs)
  end.

Definition percentile (values : list JS.num) (p : Q) : result JS.num :=
  match values with
  | [] => Ok (JS.Fin 0)
  | _ =>
      guard (negb (JS.Qltb p 0 || JS.Qltb 100 p))
        else (Error "Percentile must be 0-100") ;;
      let sorted := sortNumbers values in
      let index := (p / 100) * (len sorted - 1) in
      let lower := Qfloor index in
      let upper := Qceiling index in
      let weight := index - inject_Z lower in
      Ok (JS.add
            (JS.mul (at_index sorted (Z.to_nat lower)) (JS.Fin (1 - weight)))
            (JS.mul (at_index sorted (Z.to_nat upper)) (JS.Fin weight)))
  end.

(** [Math.min(...values)] and [Math.max(...values)]: NaN if any argument
    is NaN, the infinities for an empty argument list. *)
Definition min2 (a b : JS.num) : JS.num :=
  match a, b with
  | JS.NaN, _ | _, JS.NaN => JS.NaN
  | _, _ => if JS.lt b a then b else a
  end.

Definition max2 (a b : JS.num) : JS.num :=
  match a, b with
  | JS.NaN, _ | _, JS.NaN => JS.NaN
  | _, _ => if JS.lt a b then b else a
  end.

Definition Math_min (values : list JS.num) : JS.num :=
  fold_left min2 values JS.PInf.

Definition Math_max (values : list JS.num) : JS.num :=
  fold_left max2 values JS.NInf.

Definition min (values : list JS.num) : JS.num :=
  match values with
  | [] => JS.Fin 0
  | _ => Math_min values
  end.

Definition max (values : list JS.num) : JS.num :=
  match values with
  | [] => JS.Fin 0
  | _ => Math_max values
  end.

End Statistics.

(** ** Seeded random numbers ([math/random.ts]) *)

Module Random.

(** The product [seed * 1103515245] exceeds 2^53, so the double holding it
    is the exact product rounded to 53 significant bits (ties to even). *)
Definition round53 (z : Z) : Z :=
  let a := Z.abs z in
  if (a <? 2 ^ 53)%Z then z
  else
    let e := (Z.log2 a - 52)%Z in
    let q := Z.shiftr a e in
    let r := (a - Z.shiftl q e)%Z in
    let half := Z.shiftl 1 (e - 1) in
    let q' :=
      if (half <? r)%Z || ((half =? r)%Z && Z.odd q) then (q + 1)%Z else q in
    (Z.sgn z * Z.shiftl q' e)%Z.

(** [class SeededRandom]: the only field is the integer seed. *)
Record SeededRandom : Type := { seed : Z }.

(** [next()]: the returned number and the new state.  The bitwise [&]
    keeps the low 31 bits of the rounded sum. *)
Definition next (rng : SeededRandom) : Q * SeededRandom :=
  let s :=
    Z.land (round53 (round53 (seed rng * 1103515245) + 12345)) 0x7fffffff in
  (inject_Z s / inject_Z 0x7fffffff, {| seed := s |}).

(** [normal()].  A first uniform of zero makes [Math.log(u1)] [-Infinity]
    and the square root [+Infinity]; the draw is then the infinity with the
    sign of [Math.cos(2 * Math.PI * u2)], positive in the first and last
    quarter of the unit interval. *)
Definition normal `{JSMath} (rng : SeededRandom) : JS.num * SeededRandom :=
  let '(u1, rng1) := next rng in
  let '(u2, rng2) := next rng1 in
  (if Qeq_bool u1 0
   then if JS.Qltb u2 (1 # 4) || JS.Qltb (3 # 4) u2 then JS.PInf else JS.NInf
   else JS.Fin (boxMuller u1 u2),
   rng2).

Definition normalWithParams `{JSMath} (rng : SeededRandom) (mean std : Q)
    : JS.num * SeededRandom :=
  let '(z, rng') := normal rng in
  (JS.add (JS.Fin mean) (JS.mul (JS.Fin std) z), rng').

End Random.

(** ** Projection inputs, records and validation
       ([projection/types.ts], [projection/validation.ts]) *)

Module Projection.
Import Exn.

Record FutureExpense : Type := {
  fe_year : Q;
  fe_amount : Q;
  fe_label : string
}.

Record ProjectionInputs : Type := {
  currentAge : Q;
  retirementAge : Q;
  lifeExpectancy : Q;
  currentSavings : Q;
  monthlyInvestment : Q;
  investmentGrowthRate : option Q;
  monthlyExpenses : Q;
  expenseGrowthRate : option Q;
  assetAllocation : JS.obj Q;
  futureExpenses : option (list FutureExpense)
}.

Record YearlyProjection : Type := {
  year : Z;
  age : Q;
  portfolioValue : JS.num;
  income : Q;
  expenses : Q;
  netCashflow : Q;
  contributions : Q;
  withdrawals : Q;
  investmentReturn : JS.num;
  realReturn : JS.num;
  savingsRate : option Q;
  withdrawalRate : option JS.num
}.

Inductive SuccessMetric : Type := surplus | on_track | shortfall | depletion.

Record Summary : Type := {
  retirementCorpusNeeded : JS.num;
  projectedCorpusAtRetirement : JS.num;
  finalPortfolioValue : JS.num;
  depletionAge : option Q;
  successMetric : SuccessMetric
}.

Record ProjectionResult : Type := {
  timeline : list YearlyProjection;
  summary : Summary
}.

(** The messages are the source's without the interpolated values. *)
Definition validateInputs (inputs : ProjectionInputs) : result unit :=
  guard (negb (JS.Qltb (currentAge inputs) 18
               || JS.Qltb 100 (currentAge inputs)))
    else (ValidationError "currentAge" "Must be between 18 and 100") ;;
  guard (negb (Qle_bool (retirementAge inputs) (currentAge inputs)))
    else (ValidationError "retirementAge" "Must be greater than current age") ;;
  guard (negb (Qle_bool (lifeExpectancy inputs) (retirementAge inputs)))
    else (ValidationError "lifeExpectancy"
            "Must be greater than retirement age") ;;
  guard (negb (JS.Qltb (currentSavings inputs) 0))
    else (ValidationError "currentSavings" "Cannot be negative") ;;
  guard (negb (JS.Qltb (monthlyInvestment inputs) 0))
    else (ValidationError "monthlyInvestment" "Cannot be negative") ;;
  guard (negb (JS.Qltb (monthlyExpenses inputs) 0))
    else (ValidationError "monthlyExpenses" "Cannot be negative") ;;
  let allocationSum := JS.sum (JS.values (assetAllocation inputs)) in
  guard (negb (JS.Qltb (1 # 100) (Qabs (allocationSum - 100))))
    else (ValidationError "assetAllocation" "Must sum to 100%") ;;
  guard (forallb (fun pct => negb (JS.Qltb pct 0 || JS.Qltb 100 pct))
                 (JS.values (assetAllocation inputs)))
    else (ValidationError "assetAllocation" "must be 0-100%") ;;
  Ok tt.

Definition sanitizeInputs (inputs : ProjectionInputs) : ProjectionInputs :=
  {| currentAge := JS.Math_round (currentAge inputs);
     retirementAge := JS.Math_round (retirementAge inputs);
     lifeExpectancy := JS.Math_round (lifeExpectancy inputs);
     currentSavings := Qmax 0 (currentSavings inputs);
     monthlyInvestment := Qmax 0 (monthlyInvestment inputs);
     investmentGrowthRate := investmentGrowthRate inputs;
     monthlyExpenses := Qmax 0 (monthlyExpenses inputs);
     expenseGrowthRate := expenseGrowthRate inputs;
     assetAllocation := assetAllocation inputs;
     futureExpenses := futureExpenses inputs |}.

(** *** One simulated year

    The loop bodies of [projectDeterministic] and [runSingleSimulation]
    are the same statements except for the rate of return applied to the
    start-of-year portfolio, which is the argument [rate] here: the
    expected return in the one, the sampled return in the other. *)

Definition isRetired (inputs : ProjectionInputs) (year : Z) : bool :=
  Qle_bool (retirementAge inputs) (currentAge inputs + inject_Z year).

Definition futureExpenseAt (inputs : ProjectionInputs) (inflationRate : Q)
    (year : Z) : Q :=
  match futureExpenses inputs with
  | None => 0
  | Some es =>
      fold_left
        (fun sum e => sum + fe_amount e * Qpower (1 + inflationRate) year)
        (List.filter (fun e => Qeq_bool (fe_year e) (inject_Z year)) es) 0
  end.

Definition simulateYear (inputs : ProjectionInputs)
    (inflationRate investmentGrowth expenseGrowth : Q)
    (year : Z) (portfolio rate : JS.num) : YearlyProjection :=
  let age := currentAge inputs + inject_Z year in
  let retired := isRetired inputs year in
  let annualExpenses :=
    monthlyExpenses inputs * 12 * Qpower (1 + expenseGrowth) year in
  let futureExpense := futureExpenseAt inputs inflationRate year in
  let totalExpenses := annualExpenses + futureExpense in
  let annualContribution :=
    if retired then 0
    else monthlyInvestment inputs * 12 * Qpower (1 + investmentGrowth) year in
  let withdrawal := if retired then totalExpenses else 0 in
  let investmentReturn := JS.mul portfolio rate in
  let netCashflow := annualContribution - withdrawal in
  let portfolio1 :=
    JS.add (JS.add portfolio investmentReturn) (JS.Fin netCashflow) in
  let portfolio2 :=
    if JS.lt portfolio1 (JS.Fin 0) then JS.Fin 0 else portfolio1 in
  {| year := year;
     age := age;
     portfolioValue := portfolio2;
     income := 0;
     expenses := totalExpenses;
     netCashflow := netCashflow;
     contributions := annualContribution;
     withdrawals := withdrawal;
     investmentReturn := investmentReturn;
     realReturn :=
       JS.div investmentReturn (JS.Fin (Qpower (1 + inflationRate) year));
     savingsRate := None;
     withdrawalRate :=
       if JS.lt (JS.Fin 0) portfolio2
       then Some (JS.div (JS.Fin withdrawal)
                         (JS.add portfolio2 (JS.Fin withdrawal)))
       else None |}.

(** The number of iterations of [for (year = 0; year < yearsToProject; year++)]. *)
Definition iterations (yearsToProject : Q) : nat :=
  Z.to_nat (Qceiling yearsToProject).

Definition growthRates (inputs : ProjectionInputs) (inflationRate : Q)
    : Q * Q :=
  (JS.or (investmentGrowthRate inputs) (inflationRate + (1 # 100)),
   JS.or (expenseGrowthRate inputs) inflationRate).

End Projection.

(** ** Deterministic projector ([projection/deterministic.ts]) *)

Module Deterministic.
Import Exn Projection.

Fixpoint portfolioReturnFrom (weightedReturn : Q) (allocation : JS.obj Q)
    (assumptions : Assumptions.MarketAssumptions) : result Q :=
  match allocation with
  | [] => Ok weightedReturn
  | (assetId, weight) :: rest =>
      match Assumptions.assetClasses assumptions !! assetId with
      | None =>
          (* [assetParams] is [undefined] and the guard throws, unless
             the name is inherited: then the guard passes and reading
             [assetParams.nominalReturn.mean] fails. *)
          if JS.inherited assetId
          then Throw (TypeError "Cannot read properties of undefined")
          else Throw (Error ("Unknown asset: " ++ assetId))
      | Some assetParams =>
          portfolioReturnFrom
            (weightedReturn
             + (weight / 100)
               * (Assumptions.mean (Assumptions.nominalReturn assetParams) / 100))
            rest assumptions
      end
  end.

Definition calculatePortfolioReturn (allocation : JS.obj Q)
    (assumptions : Assumptions.MarketAssumptions) : result Q :=
  portfolioReturnFrom 0 allocation assumptions.

(** The [for] loop of step 4: [n] iterations are left, [year] is the loop
    counter and [portfolio] the running balance. *)
Fixpoint projectYears (inputs : ProjectionInputs)
    (inflationRate investmentGrowth expenseGrowth expectedReturn : Q)
    (n : nat) (year : Z) (portfolio : JS.num) : list YearlyProjection :=
  match n with
  | O => []
  | S n' =>
      let y :=
        simulateYear inputs inflationRate investmentGrowth expenseGrowth
                     year portfolio (JS.Fin expectedReturn) in
      y :: (if JS.eqb (portfolioValue y) (JS.Fin 0) && isRetired inputs year
            then []
            else projectYears inputs inflationRate investmentGrowth
                   expenseGrowth expectedReturn n' (year + 1)
                   (portfolioValue y))
  end.

Definition depleted (inputs : ProjectionInputs) (y : YearlyProjection)
    : bool :=
  JS.eqb (portfolioValue y) (JS.Fin 0)
  && Qle_bool (retirementAge inputs) (age y).

Definition summarize (inputs : ProjectionInputs)
    (inflationRate expectedReturn : Q) (tl : list YearlyProjection)
    : result Summary :=
  let retirementYear :=
    find (fun y => Qeq_bool (age y) (retirementAge inputs)) tl in
  let corpusAtRetirement :=
    JS.or_num (option_map portfolioValue retirementYear) (JS.Fin 0) in
  let retirementYears :=
    Qfloor (lifeExpectancy inputs - retirementAge inputs) in
  let retirementExpenses :=
    monthlyExpenses inputs * 12
    * Qpower (1 + inflationRate)
             (Qfloor (retirementAge inputs - currentAge inputs)) in
  let realReturn := Compound.nominalToReal expectedReturn inflationRate in
  let! corpusNeeded :=
    Compound.presentValueAnnuity retirementExpenses realReturn
                                 retirementYears in
  let gap := JS.sub corpusNeeded corpusAtRetirement in
  let finalValue :=
    JS.or_num (option_map portfolioValue (last tl)) (JS.Fin 0) in
  let depletedYear := find (depleted inputs) tl in
  Ok {| retirementCorpusNeeded := corpusNeeded;
        projectedCorpusAtRetirement := corpusAtRetirement;
        finalPortfolioValue := finalValue;
        depletionAge := option_map age depletedYear;
        successMetric :=
          match depletedYear with
          | Some _ => depletion
          | None =>
              if JS.lt gap (JS.Fin 0) then surplus
              else if JS.lt (JS.div gap corpusNeeded) (JS.Fin (1 # 10))
                   then on_track
                   else shortfall
          end |}.

Definition projectDeterministic (rawInputs : ProjectionInputs)
    (assumptions : Assumptions.MarketAssumptions) : result ProjectionResult :=
  let inputs := sanitizeInputs rawInputs in
  let! _ := validateInputs inputs in
  let yearsToProject := lifeExpectancy inputs - currentAge inputs in
  let inflationRate :=
    Assumptions.inflation_mean (Assumptions.inflation assumptions) / 100 in
  let '(investmentGrowth, expenseGrowth) := growthRates inputs inflationRate in
  let! portfolioExpectedReturn :=
    calculatePortfolioReturn (assetAllocation inputs) assumptions in
  let tl :=
    projectYears inputs inflationRate investmentGrowth expenseGrowth
                 portfolioExpectedReturn (iterations yearsToProject) 0
                 (JS.Fin (currentSavings inputs)) in
  let! s := summarize inputs inflationRate portfolioExpectedReturn tl in
  Ok {| timeline := tl; summary := s |}.

End Deterministic.

(** ** Monte Carlo simulator ([simulation/types.ts], [simulation/montecarlo.ts]) *)

Module MonteCarlo.
Import Exn Projection.

Inductive TimeStep : Type := monthly | annual.

Record MonteCarloConfig : Type := {
  numSimulations : Z;
  seed : option Z;
  timeStep : TimeStep;
  includeRegimeSwitching : option bool
}.

Record SimulationPath : Type := {
  id : Z;
  timeline : list YearlyProjection;
  terminalValue : JS.num;
  depletedAt : option Z
}.

Record Percentiles : Type := {
  p10 : list YearlyProjection;
  p25 : list YearlyProjection;
  p50 : list YearlyProjection;
  p75 : list YearlyProjection;
  p90 : list YearlyProjection
}.

Record Distribution : Type := {
  mean : JS.num;
  median : JS.num;
  std : JS.num;
  values : list JS.num
}.

Record ShortfallRisk : Type := {
  probability : Q;
  averageShortfall : JS.num;
  worstCase : JS.num
}.

Record MonteCarloResult : Type := {
  successProbability : Q;
  medianOutcome : JS.num;
  percentiles : Percentiles;
  terminalValueDistribution : Distribution;
  shortfallRisk : ShortfallRisk
}.

(** [config.seed || 42]: a seed of zero is falsy. *)
Definition baseSeed (config : MonteCarloConfig) : Z :=
  match seed config with
  | Some s => if (s =? 0)%Z then 42%Z else s
  | None => 42%Z
  end.

Section Simulation.
Context `{JSMath}.

(** The inner loop over [assetParams]; reading [params.nominalReturn] of
    an asset missing from the bundle is a [TypeError]. *)
Fixpoint sampleReturn (rng : Random.SeededRandom) (portfolioReturn : JS.num)
    (assetParams : list (Q * option Assumptions.AssetClassParams))
    : result (JS.num * Random.SeededRandom) :=
  match assetParams with
  | [] => Ok (portfolioReturn, rng)
  | (_, None) :: _ =>
      Throw (TypeError "Cannot read properties of undefined")
  | (weight, Some params) :: rest =>
      let '(assetReturn, rng') :=
        Random.normalWithParams rng
          (Assumptions.mean (Assumptions.nominalReturn params) / 100)
          (Assumptions.volatility (Assumptions.nominalReturn params) / 100) in
      sampleReturn rng'
        (JS.add portfolioReturn (JS.mul (JS.Fin weight) assetReturn)) rest
  end.

Fixpoint simulateYears (inputs : ProjectionInputs)
    (inflationRate investmentGrowth expenseGrowth : Q)
    (assetParams : list (Q * option Assumptions.AssetClassParams))
    (n : nat) (year : Z) (rng : Random.SeededRandom) (portfolio : JS.num)
    : result (list YearlyProjection) :=
  match n with
  | O => Ok []
  | S n' =>
      let! sampled := sampleReturn rng (JS.Fin 0) assetParams in
      let '(portfolioReturn, rng') := sampled in
      let y :=
        simulateYear inputs inflationRate investmentGrowth expenseGrowth
                     year portfolio portfolioReturn in
      if JS.eqb (portfolioValue y) (JS.Fin 0) && isRetired inputs year
      then Ok [y]
      else
        let! rest :=
          simulateYears inputs inflationRate investmentGrowth
            expenseGrowth assetParams n' (year + 1) rng'
            (portfolioValue y) in
        Ok (y :: rest)
  end.

Definition runSingleSimulation (inputs : ProjectionInputs)
    (assumptions : Assumptions.MarketAssumptions) (seed : Z)
    : result (list YearlyProjection) :=
  let rng := {| Random.seed := seed |} in
  let yearsToProject := lifeExpectancy inputs - currentAge inputs in
  let inflationRate :=
    Assumptions.inflation_mean (Assumptions.inflation assumptions) / 100 in
  let '(investmentGrowth, expenseGrowth) :=
    growthRates inputs inflationRate in
  let assetParams :=
    map (fun '(assetId, weight) =>
           (weight / 100, Assumptions.assetClasses assumptions !! assetId))
        (assetAllocation inputs) in
  simulateYears inputs inflationRate investmentGrowth expenseGrowth
    assetParams (iterations yearsToProject) 0 rng
    (JS.Fin (currentSavings inputs)).

Definition byTerminalValue (a b : SimulationPath) : JS.num :=
  JS.sub (terminalValue a) (terminalValue b).

Definition percentileIndex (n : nat) (p : Q) : nat :=
  Z.to_nat (Qfloor (inject_Z (Z.of_nat n) * p)).

Definition shortfallOf (sim : SimulationPath) : JS.num :=
  match
    find (fun y => match depletedAt sim with
                   | Some d => (year y =? d)%Z
                   | None => false
                   end) (timeline sim)
  with
  | Some depletedYear => JS.abs (portfolioValue depletedYear)
  | None => JS.Fin 0
  end.

Definition aggregateResults (simulations : list SimulationPath)
    (inputs : ProjectionInputs) : result MonteCarloResult :=
  let successes :=
    length
      (List.filter (fun sim =>
                 match last (timeline sim) with
                 | Some y => JS.lt (JS.Fin 0) (portfolioValue y)
                 | None => false
                 end) simulations) in
  let n := length simulations in
  (* a count over a count; no result is returned when [n] is zero *)
  let successProbability :=
    inject_Z (Z.of_nat successes) / inject_Z (Z.of_nat n) in
  let terminalValues := map terminalValue simulations in
  let sortedSims := Statistics.sortBy byTerminalValue simulations in
  let at_ (p : Q) : result SimulationPath :=
    match nth_error sortedSims (percentileIndex n p) with
    | Some sim => Ok sim
    | None => Throw (TypeError "Cannot read properties of undefined")
    end in
  let failedSims :=
    List.filter (fun sim => match depletedAt sim with
                       | Some _ => true
                       | None => false
                       end) simulations in
  let avgShortfall :=
    match failedSims with
    | [] => JS.Fin 0
    | _ => Statistics.mean (map shortfallOf failedSims)
    end in
  let! s50 := at_ (50 # 100) in
  let! s10 := at_ (10 # 100) in
  let! s25 := at_ (25 # 100) in
  let! s75 := at_ (75 # 100) in
  let! s90 := at_ (90 # 100) in
  let! med := Statistics.percentile terminalValues 50 in
  let! s0 := at_ 0 in
  Ok {| successProbability := successProbability;
        medianOutcome := terminalValue s50;
        percentiles :=
          {| p10 := timeline s10; p25 := timeline s25;
             p50 := timeline s50; p75 := timeline s75;
             p90 := timeline s90 |};
        terminalValueDistribution :=
          {| mean := Statistics.mean terminalValues;
             median := med;
             std := Statistics.standardDeviation terminalValues;
             values := terminalValues |};
        shortfallRisk :=
          {| probability := 1 - successProbability;
             averageShortfall := avgShortfall;
             worstCase := terminalValue s0 |} |}.

Definition simulationPath (inputs : ProjectionInputs) (sim : Z)
    (tl : list YearlyProjection) : SimulationPath :=
  {| id := sim;
     timeline := tl;
     terminalValue :=
       JS.or_num (option_map portfolioValue (last tl)) (JS.Fin 0);
     depletedAt :=
       option_map year (find (Deterministic.depleted inputs) tl) |}.

(** The simulation loop: [n] paths are left, [sim] is the loop counter. *)
Fixpoint runSimulations (inputs : ProjectionInputs)
    (assumptions : Assumptions.MarketAssumptions)
    (config : MonteCarloConfig) (n : nat) (sim : Z)
    : result (list SimulationPath) :=
  match n with
  | O => Ok []
  | S n' =>
      let seed := (baseSeed config + sim)%Z in
      let! tl := runSingleSimulation inputs assumptions seed in
      let! rest := runSimulations inputs assumptions config n' (sim + 1) in
      Ok (simulationPath inputs sim tl :: rest)
  end.

Definition runMonteCarlo (rawInputs : ProjectionInputs)
    (assumptions : Assumptions.MarketAssumptions)
    (config : MonteCarloConfig) : result MonteCarloResult :=
  let inputs := sanitizeInputs rawInputs in
  let! _ := validateInputs inputs in
  let! simulations :=
    runSimulations inputs assumptions config
                   (Z.to_nat (numSimulations config)) 0 in
  aggregateResults simulations inputs.

End Simulation.

End MonteCarlo.

(** ** Goal allocator ([goals/types.ts], [goals/optimizer.ts]) *)

Module Goals.
Import Exn.

Inductive Priority : Type := high | medium | low.
Inductive Feasibility : Type := on_track | tight | underfunded | impossible.

Record GoalInput : Type := {
  id : string;
  name : string;
  targetAmount : Q;
  targetYear : Z;
  priority : Priority;
  currentSavings : option Q
}.

Record GoalAllocation : Type := {
  goalId : string;
  monthlySIP : Q;
  requiredSIP : Q;
  feasibility : Feasibility;
  projectedValue : Q;
  shortfall : Q
}.

(** The conflict and recommendation texts, before formatting: each
    constructor carries the numbers the source interpolates. *)
Inductive Conflict : Type :=
| PartlyFunded (goalName : string) (required allocated : Q)
| CannotBeFunded (goalName : string) (required : Q).

Inductive Recommendation : Type :=
| IncreaseBudget (deficit : Q)
| ConsiderDeferring (goals : nat)
| Surplus (remaining : Q).

Record GoalAllocationResult : Type := {
  allocations : list GoalAllocation;
  totalMonthly : Q;
  unallocated : Q;
  budgetUtilization : JS.num;
  conflicts : list Conflict;
  recommendations : list Recommendation
}.

(** The anonymous record built by [goals.map] in step 1. *)
Record Requirement : Type := {
  req_goalId : string;
  req_name : string;
  req_requiredSIP : Q;
  req_priority : Priority;
  req_targetAmount : Q;
  req_years : Z
}.

Definition expectedReturn : Q := 10 # 100.

(** [currentYear] is [new Date().getFullYear()]. *)
Definition requirementOf (currentYear : Z)
    (assumptions : Assumptions.MarketAssumptions) (goal : GoalInput)
    : result Requirement :=
  let years := (targetYear goal - currentYear)%Z in
  guard (negb (years <=? 0)%Z)
    else (Error ("Goal " ++ id goal
                 ++ " has invalid target year (must be in future)")) ;;
  let inflationRate :=
    Assumptions.inflation_mean (Assumptions.inflation assumptions) / 100 in
  let futureValue := targetAmount goal * Qpower (1 + inflationRate) years in
  let savings := JS.or (currentSavings goal) 0 in
  let futureValueOfSavings := savings * Qpower (1 + expectedReturn) years in
  let remainingNeeded := Qmax 0 (futureValue - futureValueOfSavings) in
  let! required :=
    if JS.Qltb 0 remainingNeeded
    then Compound.requiredSIP remainingNeeded expectedReturn years
                              Compound.monthly
    else Ok 0 in
  Ok {| req_goalId := id goal;
        req_name := name goal;
        req_requiredSIP := required;
        req_priority := priority goal;
        req_targetAmount := futureValue;
        req_years := years |}.

Definition priorityOrder (p : Priority) : Q :=
  match p with high => 3 | medium => 2 | low => 1 end.

Definition byPriority (a b : Requirement) : JS.num :=
  let priorityDiff :=
    priorityOrder (req_priority b) - priorityOrder (req_priority a) in
  if negb (Qeq_bool priorityDiff 0) then JS.Fin priorityDiff
  else JS.Fin (inject_Z (req_years a - req_years b)).

(** The state threaded through the allocation loop of step 3. *)
Record LoopState : Type := {
  remaining : Q;
  allocated_so_far : list GoalAllocation;
  conflicts_so_far : list Conflict
}.

(** [goals.find(g => g.id === req.goalId)!.currentSavings || 0]; the goal
    is always found, every requirement being built from a goal. *)
Definition savingsOf (goals : list GoalInput) (goalId : string) : Q :=
  match find (fun g => String.eqb (id g) goalId) goals with
  | Some goal => JS.or (currentSavings goal) 0
  | None => 0
  end.

Definition allocateOne (goals : list GoalInput) (st : LoopState)
    (req : Requirement) : LoopState :=
  let '(allocated, feasibility, remaining', conflict) :=
    if Qle_bool (req_requiredSIP req) (remaining st) then
      (req_requiredSIP req, on_track, remaining st - req_requiredSIP req, [])
    else if JS.Qltb 0 (remaining st) then
      (remaining st,
       if JS.Qltb (7 # 10) (remaining st / req_requiredSIP req)
       then tight else underfunded,
       0,
       [PartlyFunded (req_name req) (req_requiredSIP req) (remaining st)])
    else
      (0, impossible, remaining st,
       [CannotBeFunded (req_name req) (req_requiredSIP req)]) in
  let projectedFromSIP :=
    if JS.Qltb 0 allocated
    then allocated
         * (((Qpower (110 # 100) (req_years req) - 1) / ((10 # 100) / 12))
            * (1 + (10 # 100) / 12))
    else 0 in
  let projectedFromSavings :=
    savingsOf goals (req_goalId req) * Qpower (110 # 100) (req_years req) in
  let totalProjected := projectedFromSIP + projectedFromSavings in
  let shortfall := Qmax 0 (req_targetAmount req - totalProjected) in
  {| remaining := remaining';
     allocated_so_far :=
       allocated_so_far st ++
       [ {| goalId := req_goalId req;
            monthlySIP := allocated;
            requiredSIP := req_requiredSIP req;
            feasibility := feasibility;
            projectedValue := totalProjected;
            shortfall := shortfall |} ];
     conflicts_so_far := conflicts_so_far st ++ conflict |}.

Definition isOnTrack (f : Feasibility) : bool :=
  match f with on_track => true | _ => false end.

Definition recommend (requirements : list Requirement) (monthlyBudget : Q)
    (st : LoopState) : list Recommendation :=
  let totalRequired :=
    fold_left (fun sum r => sum + req_requiredSIP r) requirements 0 in
  if JS.Qltb monthlyBudget totalRequired then
    let deficit := totalRequired - monthlyBudget in
    let underfundedGoals :=
      List.filter (fun a => negb (isOnTrack (feasibility a)))
                  (allocated_so_far st) in
    IncreaseBudget deficit ::
    (if (0 <? length underfundedGoals)%nat
     then [ConsiderDeferring (length underfundedGoals)] else [])
  else if JS.Qltb 0 (remaining st) then [Surplus (remaining st)]
  else [].

Definition allocateGoalBudget (currentYear : Z) (goals : list GoalInput)
    (monthlyBudget : Q) (assumptions : Assumptions.MarketAssumptions)
    : result GoalAllocationResult :=
  guard (negb (JS.Qltb monthlyBudget 0))
    else (Error "Monthly budget cannot be negative") ;;
  match goals with
  | [] =>
      Ok {| allocations := []; totalMonthly := 0;
            unallocated := monthlyBudget; budgetUtilization := JS.Fin 0;
            conflicts := []; recommendations := [] |}
  | _ =>
      let! requirements :=
        traverse (requirementOf currentYear assumptions) goals in
      let sorted := Statistics.sortBy byPriority requirements in
      let st :=
        fold_left (allocateOne goals) sorted
          {| remaining := monthlyBudget; allocated_so_far := [];
             conflicts_so_far := [] |} in
      Ok {| allocations := allocated_so_far st;
            totalMonthly := monthlyBudget - remaining st;
            unallocated := remaining st;
            budgetUtilization :=
              JS.mul (JS.qdiv (monthlyBudget - remaining st) monthlyBudget)
                     (JS.Fin 100);
            conflicts := conflicts_so_far st;
            recommendations := recommend sorted monthlyBudget st |}
  end.

End Goals.

(** ** Timelines

    What the properties below say about "every timeline" is said about the
    timelines the two projectors return. *)

Module Timelines.
Import Exn Projection.

(** [Produced assumptions inputs tl]: [tl] is the timeline of the
    deterministic projector, or of one Monte Carlo path, run on the
    sanitized inputs [inputs]. *)
Inductive Produced `{JSMath} (assumptions : Assumptions.MarketAssumptions)
    : ProjectionInputs -> list YearlyProjection -> Prop :=
| deterministic_timeline (rawInputs : ProjectionInputs)
    (res : ProjectionResult) :
    Deterministic.projectDeterministic rawInputs assumptions = Ok res ->
    Produced assumptions (sanitizeInputs rawInputs) (timeline res)
| monte_carlo_timeline (inputs : ProjectionInputs) (seed : Z)
    (tl : list YearlyProjection) :
    MonteCarlo.runSingleSimulation inputs assumptions seed = Ok tl ->
    Produced assumptions inputs tl.

(** The portfolio at the start of the [i]-th year of a timeline: the
    savings the run started from, then the value the previous year ended
    with. *)
Definition startOfYear (inputs : ProjectionInputs)
    (tl : list YearlyProjection) (i : nat) : JS.num :=
  match i with
  | O => JS.Fin (currentSavings inputs)
  | S j => default JS.NaN (option_map portfolioValue (nth_error tl j))
  end.

(** Every record of [tl] is [simulateYear] applied to the value its
    predecessor ended with, [start] for the first. *)
Fixpoint chained (inputs : ProjectionInputs) (start : JS.num)
    (tl : list YearlyProjection) : Prop :=
  match tl with
  | [] => True
  | y :: rest =>
      (exists inflationRate investmentGrowth expenseGrowth year rate,
          y = simulateYear inputs inflationRate investmentGrowth
                           expenseGrowth year start rate)
      /\ chained inputs (portfolioValue y) rest
  end.

End Timelines.

(** ** Inputs as given and as sanitized *)

Module Inputs.
Import Projection.
(** The input with its negative monetary fields replaced by zero and
    everything else, the ages included, left as given. *)
Definition clampMonetary (inputs : ProjectionInputs) : ProjectionInputs :=
  {| currentAge := currentAge inputs;
     retirementAge := retirementAge inputs;
     lifeExpectancy := lifeExpectancy inputs;
     currentSavings := Qmax 0 (currentSavings inputs);
     monthlyInvestment := Qmax 0 (monthlyInvestment inputs);
     investmentGrowthRate := investmentGrowthRate inputs;
     monthlyExpenses := Qmax 0 (monthlyExpenses inputs);
     expenseGrowthRate := expenseGrowthRate inputs;
     assetAllocation := assetAllocation inputs;
     futureExpenses := futureExpenses inputs |}.

(** [field] names a monetary field of [inputs] that is negative. *)
Definition negativeField (inputs : ProjectionInputs) (field : string)
    : Prop :=
  (field = "currentSavings" /\ currentSavings inputs < 0)
  \/ (field = "monthlyInvestment" /\ monthlyInvestment inputs < 0)
  \/ (field = "monthlyExpenses" /\ monthlyExpenses inputs < 0).

(** The monetary fields, in the order [validateInputs] checks them. *)
Definition monetaryFields (inputs : ProjectionInputs) : list (string * Q) :=
  [("currentSavings", currentSavings inputs);
   ("monthlyInvestment", monthlyInvestment inputs);
   ("monthlyExpenses", monthlyExpenses inputs)].

(** [field] names the first negative monetary field of [inputs]: it is
    negative and no monetary field before it is. *)
Definition firstNegativeField (inputs : ProjectionInputs) (field : string)
    : Prop :=
  exists before value after,
    monetaryFields inputs = before ++ (field, value) :: after
    /\ value < 0
    /\ List.Forall (fun checked => 0 <= snd checked) before.

(** The three age checks of [validateInputs] pass. *)
Definition agesValid (inputs : ProjectionInputs) : Prop :=
  18 <= currentAge inputs <= 100
  /\ currentAge inputs < retirementAge inputs
  /\ retirementAge inputs < lifeExpectancy inputs.
End Inputs.

(** ** Concrete inputs used to run the definitions *)

Module Examples.

(** A rational stand-in for the irrational part of [Math]: the square
    root by integer square root at six decimals, the normal draw by the
    centred sum of the two uniforms. *)
Definition exampleMath : JSMath :=
  {| Math_sqrt q :=
       inject_Z (Z.sqrt (Qfloor (q * 1000000000000))) / 1000000;
     boxMuller u1 u2 := 2 * (u1 + u2) - 2 |}.

(** The test-suite household, with a horizon short enough to evaluate:
    one working year, one retired year. *)
Definition household : Projection.ProjectionInputs :=
  {| Projection.currentAge := 59;
     Projection.retirementAge := 60;
     Projection.lifeExpectancy := 61;
     Projection.currentSavings := 1000000;
     Projection.monthlyInvestment := 25000;
     Projection.investmentGrowthRate := None;
     Projection.monthlyExpenses := 50000;
     Projection.expenseGrowthRate := None;
     Projection.assetAllocation :=
       [("equity-nifty50", 70); ("debt-govt-10y", 30)];
     Projection.futureExpenses := None |}.

Definition withSavings (s : Q) (i : Projection.ProjectionInputs)
    : Projection.ProjectionInputs :=
  {| Projection.currentAge := Projection.currentAge i;
     Projection.retirementAge := Projection.retirementAge i;
     Projection.lifeExpectancy := Projection.lifeExpectancy i;
     Projection.currentSavings := s;
     Projection.monthlyInvestment := Projection.monthlyInvestment i;
     Projection.investmentGrowthRate := Projection.investmentGrowthRate i;
     Projection.monthlyExpenses := Projection.monthlyExpenses i;
     Projection.expenseGrowthRate := Projection.expenseGrowthRate i;
     Projection.assetAllocation := Projection.assetAllocation i;
     Projection.futureExpenses := Projection.futureExpenses i |}.

Definition withExpenses (x : Q) (i : Projection.ProjectionInputs)
    : Projection.ProjectionInputs :=
  {| Projection.currentAge := Projection.currentAge i;
     Projection.retirementAge := Projection.retirementAge i;
     Projection.lifeExpectancy := Projection.lifeExpectancy i;
     Projection.currentSavings := Projection.currentSavings i;
     Projection.monthlyInvestment := Projection.monthlyInvestment i;
     Projection.investmentGrowthRate := Projection.investmentGrowthRate i;
     Projection.monthlyExpenses := x;
     Projection.expenseGrowthRate := Projection.expenseGrowthRate i;
     Projection.assetAllocation := Projection.assetAllocation i;
     Projection.futureExpenses := Projection.futureExpenses i |}.

Definition withExpenseGrowth (g : option Q)
    (i : Projection.ProjectionInputs) : Projection.ProjectionInputs :=
  {| Projection.currentAge := Projection.currentAge i;
     Projection.retirementAge := Projection.retirementAge i;
     Projection.lifeExpectancy := Projection.lifeExpectancy i;
     Projection.currentSavings := Projection.currentSavings i;
     Projection.monthlyInvestment := Projection.monthlyInvestment i;
     Projection.investmentGrowthRate := Projection.investmentGrowthRate i;
     Projection.monthlyExpenses := Projection.monthlyExpenses i;
     Projection.expenseGrowthRate := g;
     Projection.assetAllocation := Projection.assetAllocation i;
     Projection.futureExpenses := Projection.futureExpenses i |}.



(** One goal a year ahead, no savings yet. *)
Definition educationGoal : Goals.GoalInput :=
  {| Goals.id := "1";
     Goals.name := "Child Education";
     Goals.targetAmount := 5000000;
     Goals.targetYear := 2027;
     Goals.priority := Goals.high;
     Goals.currentSavings := None |}.

(** A low-priority goal for the same year. *)
Definition vacationGoal : Goals.GoalInput :=
  {| Goals.id := "3";
     Goals.name := "Vacation Fund";
     Goals.targetAmount := 500000;
     Goals.targetYear := 2027;
     Goals.priority := Goals.low;
     Goals.currentSavings := None |}.

Definition mcConfig (n : Z) (s : option Z) : MonteCarlo.MonteCarloConfig :=
  {| MonteCarlo.numSimulations := n;
     MonteCarlo.seed := s;
     MonteCarlo.timeStep := MonteCarlo.annual;
     MonteCarlo.includeRegimeSwitching := None |}.

(** A two-year path of the household on which both sampled returns are
    [rate]. *)
Definition pathAtRate (sim : Z) (rate : Q) : MonteCarlo.SimulationPath :=
  MonteCarlo.simulationPath household sim
    (Deterministic.projectYears household (6 # 100) (7 # 100) (6 # 100)
       rate 2 0 (JS.Fin 1000000)).

(** The seed from which the generator's first output is zero:
    [2088216195 * 1103515245 + 12345] is a multiple of 2^31. *)
(** The household without savings and with a longer retirement: the
    first retired year exhausts the portfolio. *)
Definition earlyDepletion : Projection.ProjectionInputs :=
  {| Projection.currentAge := 59;
     Projection.retirementAge := 60;
     Projection.lifeExpectancy := 63;
     Projection.currentSavings := 0;
     Projection.monthlyInvestment := 25000;
     Projection.investmentGrowthRate := None;
     Projection.monthlyExpenses := 50000;
     Projection.expenseGrowthRate := None;
     Projection.assetAllocation :=
       [("equity-nifty50", 70); ("debt-govt-10y", 30)];
     Projection.futureExpenses := None |}.

Definition zeroDrawSeed : Z := 2088216195.

End Examples.

(** * Properties *)

(** ** The number layer and objects *)

Module JSFacts.

Lemma Qltb_lt a b : JS.Qltb a b = true <-> a < b.
Proof.
  unfold JS.Qltb. rewrite negb_true_iff, <- not_true_iff_false, Qle_bool_iff.
  split; [apply Qnot_le_lt | apply Qlt_not_le].
Qed.

Lemma Qltb_ge a b : JS.Qltb a b = false <-> b <= a.
Proof. unfold JS.Qltb. rewrite negb_false_iff. apply Qle_bool_iff. Qed.






Lemma Qltb_ge_intro a b : b <= a -> JS.Qltb a b = false.
Proof. apply Qltb_ge. Qed.

Lemma same_refl a : JS.same a a.
Proof. destruct a; simpl; [reflexivity|exact I..]. Qed.

Lemma qdiv_same x y y' : y == y' -> JS.same (JS.qdiv x y) (JS.qdiv x y').
Proof.
  intros Hy. unfold JS.qdiv.
  assert (E : Qeq_bool y 0 = Qeq_bool y' 0).
  { destruct (Qeq_bool y' 0) eqn:E'.
    - apply Qeq_bool_iff. apply Qeq_bool_iff in E'. now rewrite Hy.
    - apply not_true_iff_false. intros E. apply Qeq_bool_iff in E.
      apply not_true_iff_false in E'. apply E'. apply Qeq_bool_iff.
      now rewrite <- Hy. }
  rewrite <- E. destruct (Qeq_bool y 0).
  - destruct (Qeq_bool x 0); [exact I|]. destruct (JS.Qltb 0 x); exact I.
  - simpl. now rewrite Hy.
Qed.

End JSFacts.

(** ** Rebalancer *)

Module RebalancingProps.
Import Rebalancing JSFacts.



Section Trades.
Variables (h : Portfolio) (t : JS.obj Q) (T M : Q).

Lemma tradeFor_asset e tr : In tr (tradeFor h t T M e) -> asset tr = fst e.
Proof.
  destruct e as [a d]. unfold tradeFor.
  destruct (JS.Qltb 1 (Qabs d)); [|simpl; tauto].
  destruct (Qle_bool M _); simpl; [|tauto].
  intros [<-|[]]. reflexivity.
Qed.

Lemma trades_assets (ds : JS.obj Q) a :
  In a (map asset (flat_map (tradeFor h t T M) ds)) ->
  exists d, In (a, d) ds /\ tradeFor h t T M (a, d) <> [].
Proof.
  rewrite in_map_iff. intros (tr & <- & Hin).
  apply in_flat_map in Hin as ([a d] & Hin & Htr).
  pose proof (tradeFor_asset _ _ Htr) as Ha. simpl in Ha. rewrite Ha.
  exists d. split; [assumption|].
  intros E. rewrite E in Htr. destruct Htr.
Qed.

Lemma trades_NoDup (ds : JS.obj Q) :
  List.NoDup (JS.keys ds) ->
  List.NoDup (map asset (flat_map (tradeFor h t T M) ds)).
Proof.
  induction ds as [|[a d] ds IH]; intros Hnd; [constructor|].
  apply NoDup_cons_iff in Hnd as [Hnotin Hnd].
  change (flat_map (tradeFor h t T M) ((a, d) :: ds))
    with (tradeFor h t T M (a, d) ++ flat_map (tradeFor h t T M) ds).
  rewrite map_app.
  assert (Hone : tradeFor h t T M (a, d) = []
                 \/ exists tr, tradeFor h t T M (a, d) = [tr] /\ asset tr = a).
  { unfold tradeFor. destruct (JS.Qltb 1 (Qabs d)); [|now left].
    match goal with |- context [Qle_bool M ?x] => destruct (Qle_bool M x) end;
      [|now left].
    right. eexists. split; reflexivity. }
  destruct Hone as [->|(tr & -> & Ha)]; simpl; [auto|].
  constructor; [|auto].
  rewrite Ha. intros Hin. apply trades_assets in Hin as (d' & Hin & _).
  apply Hnotin. apply (in_map fst) in Hin. exact Hin.
Qed.
End Trades.


Lemma driftsOf_keys cp t : JS.keys (driftsOf cp t) = JS.keys t.
Proof.
  unfold JS.keys, driftsOf. rewrite map_map. apply map_ext. now intros [a x].
Qed.












End RebalancingProps.

(** ** Statistics *)

Module StatisticsProps.
Import Exn Statistics JSFacts.

(** *** Sorting *)

Section Sorting.
Context {A : Type} (cmp : A -> A -> JS.num).

Lemma insertBy_perm x l : Permutation (insertBy cmp x l) (x :: l).
Proof.
  induction l as [|y l IH]; cbn [insertBy]; [reflexivity|].
  destruct (JS.lt (JS.Fin 0) (cmp x y)); [|reflexivity].
  rewrite IH. apply perm_swap.
Qed.

Lemma sortBy_perm l : Permutation (sortBy cmp l) l.
Proof.
  induction l as [|x l IH]; simpl; [reflexivity|].
  rewrite insertBy_perm. now constructor.
Qed.

Lemma sortBy_length l : length (sortBy cmp l) = length l.
Proof. apply Permutation_length, sortBy_perm. Qed.
End Sorting.

(** Sorting records by a numeric key and reading the keys off is sorting
    the keys. *)
Lemma map_insertBy {A} (key : A -> JS.num) x l :
  map key (insertBy (fun a b => JS.sub (key a) (key b)) x l)
  = insertBy (fun a b => JS.sub a b) (key x) (map key l).
Proof.
  induction l as [|y l IH]; cbn [insertBy map]; [reflexivity|].
  destruct (JS.lt (JS.Fin 0) (JS.sub (key x) (key y))); cbn [map]; congruence.
Qed.

Lemma map_sortBy {A} (key : A -> JS.num) l :
  map key (sortBy (fun a b => JS.sub (key a) (key b)) l)
  = sortNumbers (map key l).
Proof.
  unfold sortNumbers.
  induction l as [|x l IH]; simpl; [reflexivity|].
  now rewrite map_insertBy, IH.
Qed.

(** *** Vectors of finite numbers

    On finite numbers the comparator [a - b] is the order of the
    rationals, and sorting is insertion sort on [Q]. *)

Fixpoint insertQ (x : Q) (l : list Q) : list Q :=
  match l with
  | [] => [x]
  | y :: rest =>
      if JS.Qltb 0 (x - y) then y :: insertQ x rest else x :: y :: rest
  end.

Fixpoint sortQ (l : list Q) : list Q :=
  match l with
  | [] => []
  | x :: rest => insertQ x (sortQ rest)
  end.

Lemma insertBy_finite x l :
  insertBy (fun a b => JS.sub a b) (JS.Fin x) (map JS.Fin l)
  = map JS.Fin (insertQ x l).
Proof.
  induction l as [|y l IH]; simpl; [reflexivity|].
  change (JS.Qltb 0 (x + - y)) with (JS.Qltb 0 (x - y)).
  destruct (JS.Qltb 0 (x - y)); simpl; congruence.
Qed.

Lemma sortNumbers_finite l :
  sortNumbers (map JS.Fin l) = map JS.Fin (sortQ l).
Proof.
  unfold sortNumbers. induction l as [|x l IH]; simpl; [reflexivity|].
  now rewrite IH, insertBy_finite.
Qed.

Lemma insertQ_perm x l : Permutation (insertQ x l) (x :: l).
Proof.
  induction l as [|y l IH]; simpl; [reflexivity|].
  destruct (JS.Qltb 0 (x - y)); [|reflexivity].
  rewrite IH. apply perm_swap.
Qed.

Lemma sortQ_perm l : Permutation (sortQ l) l.
Proof.
  induction l as [|x l IH]; simpl; [reflexivity|].
  rewrite insertQ_perm. now constructor.
Qed.

Lemma sortQ_length l : length (sortQ l) = length l.
Proof. apply Permutation_length, sortQ_perm. Qed.

Lemma insertQ_sorted x l :
  StronglySorted Qle l -> StronglySorted Qle (insertQ x l).
Proof.
  induction 1 as [|y l Hs IH Hall]; simpl.
  - repeat constructor.
  - destruct (JS.Qltb 0 (x - y)) eqn:E.
    + apply Qltb_lt in E.
      constructor; [assumption|].
      eapply Permutation_Forall; [symmetry; apply insertQ_perm|].
      constructor; [lra|assumption].
    + apply Qltb_ge in E. assert (Hxy : x <= y) by lra.
      constructor; [now constructor|].
      constructor; [assumption|].
      eapply List.Forall_impl; [|exact Hall]. intros z Hz. lra.
Qed.

Lemma sortQ_sorted l : StronglySorted Qle (sortQ l).
Proof.
  induction l as [|x l IH]; simpl; [constructor|]. now apply insertQ_sorted.
Qed.

Lemma sorted_nth (s : list Q) :
  StronglySorted Qle s ->
  forall i j, (i <= j < length s)%nat -> nth i s 0 <= nth j s 0.
Proof.
  induction 1 as [|x s Hs IH Hall]; simpl; intros i j Hij; [lia|].
  destruct i as [|i], j as [|j]; try lia.
  - lra.
  - rewrite List.Forall_forall in Hall. apply Hall, nth_In. lia.
  - apply IH. lia.
Qed.

Lemma at_index_finite (s : list Q) i :
  (i < length s)%nat -> at_index (map JS.Fin s) i = JS.Fin (nth i s 0).
Proof.
  intros Hi. unfold at_index.
  rewrite (nth_indep _ JS.NaN (JS.Fin 0)) by now rewrite length_map.
  apply (map_nth JS.Fin).
Qed.

(** *** Minimum and maximum *)

Definition least (m : Q) (l : list Q) : Prop :=
  In m l /\ forall x, In x l -> m <= x.

Definition greatest (m : Q) (l : list Q) : Prop :=
  In m l /\ forall x, In x l -> x <= m.

Lemma sorted_first_least l : l <> [] -> least (nth 0 (sortQ l) 0) l.
Proof.
  intros Hne.
  assert (Hlen : (0 < length l)%nat) by (destruct l; simpl; [congruence|lia]).
  split.
  - eapply Permutation_in; [apply sortQ_perm|].
    apply nth_In. now rewrite sortQ_length.
  - intros x Hx.
    apply (Permutation_in _ (Permutation_sym (sortQ_perm l))) in Hx.
    apply (In_nth _ _ 0) in Hx as (j & Hj & <-).
    apply (sorted_nth _ (sortQ_sorted l)). lia.
Qed.

Lemma sorted_last_greatest l :
  l <> [] -> greatest (nth (length l - 1) (sortQ l) 0) l.
Proof.
  intros Hne.
  assert (Hlen : (0 < length l)%nat) by (destruct l; simpl; [congruence|lia]).
  split.
  - eapply Permutation_in; [apply sortQ_perm|].
    apply nth_In. rewrite sortQ_length. lia.
  - intros x Hx.
    apply (Permutation_in _ (Permutation_sym (sortQ_perm l))) in Hx.
    apply (In_nth _ _ 0) in Hx as (j & Hj & <-).
    rewrite sortQ_length in Hj.
    apply (sorted_nth _ (sortQ_sorted l)). rewrite sortQ_length. lia.
Qed.


Lemma least_unique m m' l : least m l -> least m' l -> m == m'.
Proof. intros [Hin Hle] [Hin' Hle']. apply Qle_antisym; auto. Qed.

(** *** Percentile *)

(** The fractional rank of the [p]-th percentile among [n] values. *)
Definition rank (n : nat) (p : Q) : Q :=
  (p / 100) * (inject_Z (Z.of_nat n) - 1).

Lemma rank_bounds n p :
  (0 < n)%nat -> 0 <= p <= 100 ->
  0 <= rank n p <= inject_Z (Z.of_nat n - 1).
Proof.
  intros Hn [H0 H100]. unfold rank.
  assert (Hm : inject_Z (Z.of_nat n) - 1 == inject_Z (Z.of_nat n - 1)).
  { unfold Z.sub. rewrite inject_Z_plus. reflexivity. }
  rewrite Hm.
  assert (Hpos : 0 <= inject_Z (Z.of_nat n - 1)).
  { change 0 with (inject_Z 0). rewrite <- Zle_Qle. lia. }
  assert (Hk : 0 <= p / 100 <= 1).
  { split; [apply Qle_shift_div_l | apply Qle_shift_div_r]; lra. }
  split; [apply Qmult_le_0_compat; tauto|].
  rewrite <- (Qmult_1_l (inject_Z (Z.of_nat n - 1))) at 2.
  apply Qmult_le_compat_r; tauto.
Qed.

Lemma floor_ceiling_adjacent (q : Q) :
  (Qfloor q <= Qceiling q <= Qfloor q + 1)%Z.
Proof.
  pose proof (Qfloor_le q). pose proof (Qle_ceiling q).
  pose proof (Qlt_floor q) as Hf. pose proof (Qceiling_lt q) as Hc.
  split.
  - rewrite Zle_Qle. lra.
  - assert (Hlt : inject_Z (Qceiling q - 1) < inject_Z (Qfloor q + 1)) by lra.
    rewrite <- Zlt_Qlt in Hlt. lia.
Qed.

Lemma rank_indices n p :
  (0 < n)%nat -> 0 <= p <= 100 ->
  let index := rank n p in
  let lo := Z.to_nat (Qfloor index) in
  let hi := Z.to_nat (Qceiling index) in
  (lo <= hi <= lo + 1)%nat /\ (hi < n)%nat
  /\ Z.of_nat lo = Qfloor index /\ Z.of_nat hi = Qceiling index.
Proof.
  intros Hn Hp index lo hi.
  destruct (rank_bounds n p Hn Hp) as [H0 Hmax]. fold index in H0, Hmax.
  pose proof (floor_ceiling_adjacent index) as [Hfc Hcf].
  assert (Hf0 : (0 <= Qfloor index)%Z).
  { change 0%Z with (Qfloor 0). now apply Qfloor_resp_le. }
  assert (Hcn : (Qceiling index <= Z.of_nat n - 1)%Z).
  { rewrite <- (Qceiling_Z (Z.of_nat n - 1)). now apply Qceiling_resp_le. }
  unfold lo, hi. repeat split; lia.
Qed.

Lemma percentile_out_of_range a l p :
  p < 0 \/ 100 < p ->
  percentile (a :: l) p = Throw (Error "Percentile must be 0-100").
Proof.
  intros Hout. unfold percentile.
  assert (E : JS.Qltb p 0 || JS.Qltb 100 p = true).
  { apply orb_true_iff.
    destruct Hout as [H|H]; [left|right]; now apply Qltb_lt. }
  now rewrite E.
Qed.

(** On a vector of finite numbers and for [p] in range, the result is the
    interpolation formula on the sorted rationals. *)
Lemma percentile_finite x rest p :
  0 <= p <= 100 ->
  let v := x :: rest in
  let s := sortQ v in
  let index := rank (length v) p in
  let weight := index - inject_Z (Qfloor index) in
  percentile (map JS.Fin v) p
  = Ok (JS.Fin (nth (Z.to_nat (Qfloor index)) s 0 * (1 - weight)
                + nth (Z.to_nat (Qceiling index)) s 0 * weight)).
Proof.
  intros Hp v s index weight.
  assert (Hn : (0 < length v)%nat) by (simpl; lia).
  destruct (rank_indices (length v) p Hn Hp) as (Hlh & Hhi & _).
  fold index in Hlh, Hhi.
  unfold percentile. change (map JS.Fin v) with (JS.Fin x :: map JS.Fin rest).
  cbv iota. change (JS.Fin x :: map JS.Fin rest) with (map JS.Fin v).
  destruct Hp as [Hp0 Hp100].
  rewrite (Qltb_ge_intro _ _ Hp0), (Qltb_ge_intro _ _ Hp100).
  cbn [orb negb]. cbv zeta.
  rewrite sortNumbers_finite. fold s.
  assert (Hlen : len (map JS.Fin s) = inject_Z (Z.of_nat (length v))).
  { unfold len, s. now rewrite length_map, sortQ_length. }
  rewrite Hlen. fold (rank (length v) p). fold index. fold weight.
  rewrite !at_index_finite by (unfold s; rewrite sortQ_length; lia).
  reflexivity.
Qed.

Lemma percentile_interpolates x rest p :
  0 <= p <= 100 ->
  let v := x :: rest in
  let s := sortQ v in
  let index := rank (length v) p in
  let lo := Z.to_nat (Qfloor index) in
  let hi := Z.to_nat (Qceiling index) in
  let w := index - inject_Z (Z.of_nat lo) in
  exists r,
    percentile (map JS.Fin v) p = Ok (JS.Fin r)
    /\ r == nth lo s 0 + w * (nth hi s 0 - nth lo s 0)
    /\ 0 <= w < 1
    /\ nth lo s 0 <= r <= nth hi s 0.
Proof.
  intros Hp v s index lo hi w.
  assert (Hn : (0 < length v)%nat) by (simpl; lia).
  destruct (rank_indices (length v) p Hn Hp) as (Hlh & Hhi & Hlo & _).
  fold index in Hlh, Hhi, Hlo. fold lo in Hlh, Hlo. fold hi in Hlh, Hhi.
  assert (Hw : 0 <= w < 1).
  { unfold w. rewrite Hlo.
    pose proof (Qfloor_le index). pose proof (Qlt_floor index) as Hlt.
    rewrite inject_Z_plus in Hlt. change (inject_Z 1) with 1 in Hlt.
    split; lra. }
  assert (Hs : nth lo s 0 <= nth hi s 0).
  { apply (sorted_nth _ (sortQ_sorted v)). unfold s in *.
    rewrite sortQ_length. lia. }
  eexists. split; [|split; [|split; [exact Hw|]]].
  - unfold v. apply (percentile_finite x rest p Hp).
  - fold v s index lo hi. rewrite <- Hlo. fold w. ring.
  - fold v s index lo hi. rewrite <- Hlo. fold w.
    set (a := nth lo s 0) in *. set (b := nth hi s 0) in *.
    destruct Hw as [Hw0 Hw1].
    assert (0 <= w * (b - a)) by (apply Qmult_le_0_compat; lra).
    assert (0 <= (1 - w) * (b - a)) by (apply Qmult_le_0_compat; lra).
    split; lra.
Qed.

Lemma percentile_0 x rest :
  exists r,
    percentile (map JS.Fin (x :: rest)) 0 = Ok (JS.Fin r)
    /\ r == nth 0 (sortQ (x :: rest)) 0.
Proof.
  destruct (percentile_interpolates x rest 0) as (r & Hr & Heq & _ & _);
    [lra|].
  exists r. split; [exact Hr|].
  assert (Hidx : rank (length (x :: rest)) 0 == 0) by (unfold rank; field).
  cbv zeta in Heq.
  rewrite (Qfloor_comp _ _ Hidx), (Qceiling_comp _ _ Hidx) in Heq.
  rewrite Hidx in Heq.
  change (Z.to_nat (Qfloor 0)) with 0%nat in Heq.
  rewrite Heq. change (inject_Z (Z.of_nat 0)) with 0. ring.
Qed.

Lemma percentile_100 x rest :
  exists r,
    percentile (map JS.Fin (x :: rest)) 100 = Ok (JS.Fin r)
    /\ r == nth (length (x :: rest) - 1) (sortQ (x :: rest)) 0.
Proof.
  destruct (percentile_interpolates x rest 100) as (r & Hr & Heq & _ & _);
    [lra|].
  exists r. split; [exact Hr|].
  set (n := length (x :: rest)) in *.
  assert (Hidx : rank n 100 == inject_Z (Z.of_nat n - 1)).
  { unfold rank, Z.sub. rewrite inject_Z_plus.
    change (inject_Z (- (1))) with (- (1)). field. }
  cbv zeta in Heq. fold n in Heq.
  rewrite (Qfloor_comp _ _ Hidx), (Qceiling_comp _ _ Hidx) in Heq.
  rewrite Hidx in Heq.
  rewrite Qfloor_Z, Qceiling_Z in Heq.
  assert (Hn : Z.to_nat (Z.of_nat n - 1) = (n - 1)%nat) by lia.
  rewrite Hn in Heq. rewrite Heq. ring.
Qed.


(** C8, amended.  On a non-empty vector of finite numbers [percentile]
    returns the minimum at [p = 0] and the maximum at [p = 100],
    interpolates linearly between the two adjacent ranks of the sorted
    vector for [0 <= p <= 100], and raises an error when [p < 0] or
    [p > 100]; on the empty vector it returns 0 for every [p], in range or
    not. *)
Theorem percentile_contract (x : Q) (rest : list Q) (p : Q) :
  let values := x :: rest in
  let v := map JS.Fin values in
  let index := rank (length values) p in
  let lo := Z.to_nat (Qfloor index) in
  let hi := Z.to_nat (Qceiling index) in
  let w := index - inject_Z (Z.of_nat lo) in
  exists s,
    (sortNumbers v = map JS.Fin s
     /\ Permutation s values /\ StronglySorted Qle s)
    /\ percentile [] p = Ok (JS.Fin 0)
    /\ (exists r m,
          percentile v 0 = Ok (JS.Fin r) /\ r == m /\ least m values)
    /\ (exists r m,
          percentile v 100 = Ok (JS.Fin r) /\ r == m /\ greatest m values)
    /\ (p < 0 \/ 100 < p ->
        percentile v p = Throw (Error "Percentile must be 0-100"))
    /\ (0 <= p <= 100 ->
        exists r,
          percentile v p = Ok (JS.Fin r)
          /\ r == nth lo s 0 + w * (nth hi s 0 - nth lo s 0)
          /\ 0 <= w < 1
          /\ (lo <= hi <= lo + 1)%nat /\ (hi < length values)%nat
          /\ nth lo s 0 <= r <= nth hi s 0).
Proof.
  intros values v index lo hi w. exists (sortQ values).
  split; [|split; [|split; [|split; [|split]]]].
  - split; [apply sortNumbers_finite|].
    split; [apply sortQ_perm|apply sortQ_sorted].
  - reflexivity.
  - destruct (percentile_0 x rest) as (r & Hr & Heq).
    exists r, (nth 0 (sortQ values) 0).
    split; [exact Hr|]. split; [exact Heq|].
    apply sorted_first_least. discriminate.
  - destruct (percentile_100 x rest) as (r & Hr & Heq).
    exists r, (nth (length values - 1) (sortQ values) 0).
    split; [exact Hr|]. split; [exact Heq|].
    apply sorted_last_greatest. discriminate.
  - apply percentile_out_of_range.
  - intros Hp.
    destruct (percentile_interpolates x rest p Hp) as (r & Hr & Heq & Hw & Hb).
    assert (Hn : (0 < length values)%nat) by (simpl; lia).
    destruct (rank_indices (length values) p Hn Hp) as (Hlh & Hhi & _).
    exists r. repeat split; tauto || assumption.
Qed.

Lemma percentile_contract_witness :
  percentile (map JS.Fin [3; 1; 2]) 150
  = Throw (Error "Percentile must be 0-100")
  /\ exists r, percentile (map JS.Fin [3; 1; 2]) 25 = Ok (JS.Fin r)
             /\ r == 3 # 2.
Proof.
  destruct (percentile_contract 3 [1; 2] 150)
    as (_ & _ & _ & _ & _ & Hout & _).
  destruct (percentile_contract 3 [1; 2] 25)
    as (s & _ & _ & _ & _ & _ & Hin).
  split; [apply Hout; right; reflexivity|].
  destruct Hin as (r & Hr & _); [split; discriminate|].
  exists r. split; [exact Hr|].
  vm_compute in Hr. injection Hr as <-. reflexivity.
Defined.

(** C8, as stated, fails on the empty vector: an out-of-range [p] is not
    rejected there. *)
Lemma percentile_empty_out_of_range :
  -10 < 0 /\ percentile [] (-10) = Ok (JS.Fin 0)
  /\ percentile [] (-10) <> Throw (Error "Percentile must be 0-100").
Proof. split; [reflexivity|]. split; [reflexivity|discriminate]. Qed.

End StatisticsProps.

(** ** Timelines of both projectors *)

Module TimelineProps.
Import Exn Projection Timelines JSFacts.

(** *** What one simulated year guarantees *)

(** The clamp: no recorded portfolio value is below zero. *)
Lemma simulateYear_not_negative inputs infl ig eg year portfolio rate :
  JS.lt (portfolioValue (simulateYear inputs infl ig eg year portfolio rate))
        (JS.Fin 0) = false.
Proof.
  unfold simulateYear. cbn [portfolioValue].
  match goal with |- context [if JS.lt ?p (JS.Fin 0) then _ else _] =>
    destruct (JS.lt p (JS.Fin 0)) eqn:E end; [reflexivity|exact E].
Qed.

(** From a finite portfolio and a finite rate the year ends on a finite,
    non-negative value. *)
Lemma simulateYear_finite inputs infl ig eg year (p r : Q) :
  exists q,
    portfolioValue
      (simulateYear inputs infl ig eg year (JS.Fin p) (JS.Fin r)) = JS.Fin q
    /\ 0 <= q.
Proof.
  unfold simulateYear. cbn [portfolioValue JS.mul JS.add JS.lt].
  match goal with |- context [JS.Qltb ?x 0] =>
    destruct (JS.Qltb x 0) eqn:E end.
  - exists 0. split; [reflexivity|lra].
  - eexists. split; [reflexivity|]. now apply Qltb_ge.
Qed.

Lemma simulateYear_withdrawalRate inputs infl ig eg year portfolio rate :
  let y := simulateYear inputs infl ig eg year portfolio rate in
  forall r, withdrawalRate y = Some r ->
    JS.lt (JS.Fin 0) (portfolioValue y) = true
    /\ JS.same r
         (JS.div (JS.Fin (withdrawals y))
            (JS.add (JS.add portfolio (investmentReturn y))
                    (JS.Fin (contributions y)))).
Proof.
  intros y r. unfold y, simulateYear.
  cbn [withdrawalRate withdrawals investmentReturn contributions
       portfolioValue].
  set (w := if isRetired inputs year then _ else 0).
  set (c := if isRetired inputs year then 0 else _).
  destruct (JS.add portfolio (JS.mul portfolio rate)) as [x| | |];
    cbn [JS.add JS.neg JS.lt].
  - destruct (JS.Qltb (x + (c - w)) 0) eqn:Hneg; cbn [JS.lt JS.add].
    + (* clamped to zero: the rate is left undefined *)
      assert (E : JS.Qltb 0 0 = false) by reflexivity.
      rewrite E. discriminate.
    + destruct (JS.Qltb 0 (x + (c - w))) eqn:Hpos; [|discriminate].
      intros [= <-]. split; [reflexivity|].
      cbn [JS.div]. apply qdiv_same. ring.
  - intros [= <-]. split; [reflexivity|]. cbn. reflexivity.
  - assert (E : JS.Qltb 0 0 = false) by reflexivity.
    rewrite E. discriminate.
  - discriminate.
Qed.

(** *** Both loops chain [simulateYear] *)

Lemma projectYears_chained inputs infl ig eg rate n :
  forall year portfolio,
    chained inputs portfolio
      (Deterministic.projectYears inputs infl ig eg rate n year portfolio).
Proof.
  induction n as [|n IH]; intros year portfolio; simpl; [exact I|].
  split; [now exists infl, ig, eg, year, (JS.Fin rate)|].
  destruct (_ && _); [exact I|apply IH].
Qed.

Lemma simulateYears_chained `{JSMath} inputs infl ig eg params n :
  forall year rng portfolio tl,
    MonteCarlo.simulateYears inputs infl ig eg params n year rng portfolio
    = Ok tl ->
    chained inputs portfolio tl.
Proof.
  induction n as [|n IH]; intros year rng portfolio tl; simpl.
  - intros [= <-]. exact I.
  - destruct (MonteCarlo.sampleReturn rng (JS.Fin 0) params)
      as [[ret rng']|e]; simpl; [|discriminate].
    set (y := simulateYear inputs infl ig eg year portfolio ret).
    destruct (_ && _).
    + intros [= <-]. simpl. split; [|exact I].
      now exists infl, ig, eg, year, ret.
    + destruct (MonteCarlo.simulateYears _ _ _ _ _ n _ _ _) as [rest|e] eqn:E;
        simpl; [|discriminate].
      intros [= <-]. simpl. split; [now exists infl, ig, eg, year, ret|].
      eapply IH, E.
Qed.

(** A successful deterministic run, taken apart. *)
Lemma projectDeterministic_Ok raw assumptions res :
  Deterministic.projectDeterministic raw assumptions = Ok res ->
  let inputs := sanitizeInputs raw in
  let inflationRate :=
    Assumptions.inflation_mean (Assumptions.inflation assumptions) / 100 in
  exists expectedReturn,
    validateInputs inputs = Ok tt
    /\ Deterministic.calculatePortfolioReturn (assetAllocation inputs)
         assumptions = Ok expectedReturn
    /\ timeline res =
       Deterministic.projectYears inputs inflationRate
         (fst (growthRates inputs inflationRate))
         (snd (growthRates inputs inflationRate))
         expectedReturn
         (iterations (lifeExpectancy inputs - currentAge inputs)) 0
         (JS.Fin (currentSavings inputs)).
Proof.
  intros Hres inputs inflationRate.
  unfold Deterministic.projectDeterministic in Hres.
  fold inputs inflationRate in Hres.
  destruct (validateInputs inputs) as [[]|]; [|discriminate].
  unfold bind at 1 in Hres.
  destruct (growthRates inputs inflationRate) as [ig eg].
  destruct (Deterministic.calculatePortfolioReturn _ _) as [ret|];
    [|discriminate].
  unfold bind at 1 in Hres.
  destruct (Deterministic.summarize _ _ _ _) as [s|]; [|discriminate].
  injection Hres as <-. exists ret. repeat split.
Qed.

Lemma produced_chained `{JSMath} assumptions inputs tl :
  Produced assumptions inputs tl ->
  chained inputs (JS.Fin (currentSavings inputs)) tl.
Proof.
  intros [raw res Hres|inp seed tl' Hrun].
  - destruct (projectDeterministic_Ok _ _ _ Hres) as (ret & _ & _ & ->).
    apply projectYears_chained.
  - unfold MonteCarlo.runSingleSimulation in Hrun.
    destruct (growthRates _ _) as [ig eg].
    eapply simulateYears_chained, Hrun.
Qed.

Lemma chained_nth inputs tl :
  forall start i y,
    chained inputs start tl -> nth_error tl i = Some y ->
    exists infl ig eg year rate,
      y = simulateYear inputs infl ig eg year
            (match i with
             | O => start
             | S j =>
                 default JS.NaN (option_map portfolioValue (nth_error tl j))
             end) rate.
Proof.
  induction tl as [|y0 tl IH]; intros start i y Hch Hnth.
  - destruct i; discriminate.
  - destruct Hch as [Hy0 Hch]. destruct i as [|i]; simpl in Hnth.
    + injection Hnth as <-. exact Hy0.
    + destruct (IH _ _ _ Hch Hnth) as (infl & ig & eg & year & rate & Hy).
      exists infl, ig, eg, year, rate. rewrite Hy. f_equal.
      destruct i; reflexivity.
Qed.

(** C2.  Wherever a record of a produced timeline defines
    [withdrawal_rate], the portfolio ended the year positive and the rate
    is the year's withdrawal over the portfolio before it was taken out:
    start of year, plus the investment return, plus the contributions. *)
Theorem withdrawal_rate_over_portfolio_before_withdrawal `{JSMath}
    (assumptions : Assumptions.MarketAssumptions)
    (inputs : ProjectionInputs) (tl : list YearlyProjection) :
  Produced assumptions inputs tl ->
  forall (i : nat) (y : YearlyProjection) (rate : JS.num),
    nth_error tl i = Some y ->
    withdrawalRate y = Some rate ->
    JS.lt (JS.Fin 0) (portfolioValue y) = true
    /\ JS.same rate
         (JS.div (JS.Fin (withdrawals y))
            (JS.add (JS.add (startOfYear inputs tl i) (investmentReturn y))
                    (JS.Fin (contributions y)))).
Proof.
  intros Hp i y rate Hnth Hrate. apply produced_chained in Hp.
  destruct (chained_nth _ _ _ _ _ Hp Hnth)
    as (infl & ig & eg & year & ret & Hy).
  fold (startOfYear inputs tl i) in Hy.
  rewrite Hy in Hrate |- *.
  now apply simulateYear_withdrawalRate.
Qed.

Lemma withdrawal_rate_witness :
  exists tl y rate,
    @MonteCarlo.runSingleSimulation Examples.exampleMath
      Examples.household Assumptions.INDIA_2024_Q4 42 = Ok tl
    /\ nth_error tl 1 = Some y
    /\ withdrawalRate y = Some rate
    /\ JS.lt (JS.Fin 0) (portfolioValue y) = true
    /\ JS.same rate
         (JS.div (JS.Fin (withdrawals y))
            (JS.add (JS.add (startOfYear Examples.household tl 1)
                            (investmentReturn y))
                    (JS.Fin (contributions y)))).
Proof.
  do 3 eexists.
  split; [vm_compute; reflexivity|].
  split; [reflexivity|]. split; [reflexivity|].
  apply (@withdrawal_rate_over_portfolio_before_withdrawal
           Examples.exampleMath Assumptions.INDIA_2024_Q4
           Examples.household _ ).
  - apply (monte_carlo_timeline _ _ 42%Z). vm_compute. reflexivity.
  - reflexivity.
  - reflexivity.
Defined.


(** *** Non-negativity of the recorded portfolio values *)

(** In every produced timeline no portfolio value is below zero. *)
Lemma produced_not_negative `{JSMath}
    (assumptions : Assumptions.MarketAssumptions)
    (inputs : ProjectionInputs) (tl : list YearlyProjection) :
  Produced assumptions inputs tl ->
  List.Forall (fun y => JS.lt (portfolioValue y) (JS.Fin 0) = false) tl.
Proof.
  intros Hp. apply produced_chained in Hp.
  revert Hp. generalize (JS.Fin (currentSavings inputs)).
  induction tl as [|y tl IH]; intros start Hch; constructor.
  - destruct Hch as [(infl & ig & eg & year & rate & ->) _].
    apply simulateYear_not_negative.
  - destruct Hch as [_ Hch]. eapply IH, Hch.
Qed.

Lemma projectYears_finite inputs infl ig eg rate n :
  forall year (p : Q),
    List.Forall (fun y => exists q, portfolioValue y = JS.Fin q /\ 0 <= q)
      (Deterministic.projectYears inputs infl ig eg rate n year (JS.Fin p)).
Proof.
  induction n as [|n IH]; intros year p; cbn [Deterministic.projectYears];
    [constructor|].
  destruct (simulateYear_finite inputs infl ig eg year p rate)
    as (q & Hq & Hpos).
  constructor; [now exists q|].
  destruct (_ && _); [constructor|].
  rewrite Hq. apply IH.
Qed.

(** The deterministic projector records finite, non-negative portfolio
    values only. *)
Lemma deterministic_portfolio_nonnegative
    (rawInputs : ProjectionInputs)
    (assumptions : Assumptions.MarketAssumptions) (res : ProjectionResult) :
  Deterministic.projectDeterministic rawInputs assumptions = Ok res ->
  List.Forall (fun y => exists q, portfolioValue y = JS.Fin q /\ 0 <= q)
    (timeline res).
Proof.
  intros Hres.
  destruct (projectDeterministic_Ok _ _ _ Hres) as (ret & _ & _ & ->).
  apply projectYears_finite.
Qed.

(** C9 fails on the code for Monte Carlo paths.  From the seed 2088216195
    the generator's first output is zero, the first normal draw is
    infinite, and a portfolio that starts at zero times an infinite return
    is NaN: every recorded portfolio value of the path is NaN, which the
    clamp does not catch and which is not [>= 0]; the path is returned as
    the percentile paths of the run. *)
Lemma zero_draw_records_NaN (M : JSMath) :
  let inputs := Examples.withSavings 0 Examples.household in
  fst (Random.next {| Random.seed := Examples.zeroDrawSeed |}) == 0
  /\ exists tl res,
      MonteCarlo.runSingleSimulation inputs Assumptions.INDIA_2024_Q4
        Examples.zeroDrawSeed = Ok tl
      /\ length tl = 2%nat
      /\ List.Forall (fun y => portfolioValue y = JS.NaN
                              /\ ~ JS.nonneg (portfolioValue y)) tl
      /\ MonteCarlo.runMonteCarlo inputs Assumptions.INDIA_2024_Q4
           (Examples.mcConfig 1 (Some Examples.zeroDrawSeed)) = Ok res
      /\ MonteCarlo.p50 (MonteCarlo.percentiles res) = tl.
Proof.
  cbv zeta. split; [reflexivity|].
  do 2 eexists. split; [vm_compute; reflexivity|].
  split; [reflexivity|].
  split; [repeat constructor; simpl; tauto|].
  split; [vm_compute; reflexivity|reflexivity].
Qed.

End TimelineProps.

(** ** Monte Carlo aggregation and seeding *)

Module MonteCarloProps.
Import Exn Projection MonteCarlo StatisticsProps.

(** *** The base seed *)

Lemma runSimulations_baseSeed `{JSMath} inputs assumptions c1 c2 n :
  baseSeed c1 = baseSeed c2 ->
  forall sim,
    runSimulations inputs assumptions c1 n sim
    = runSimulations inputs assumptions c2 n sim.
Proof.
  intros Hseed. induction n as [|n IH]; intros sim; simpl; [reflexivity|].
  now rewrite Hseed, IH.
Qed.

Lemma runMonteCarlo_baseSeed `{JSMath} raw assumptions c1 c2 :
  numSimulations c1 = numSimulations c2 ->
  baseSeed c1 = baseSeed c2 ->
  runMonteCarlo raw assumptions c1 = runMonteCarlo raw assumptions c2.
Proof.
  intros Hn Hseed. unfold runMonteCarlo.
  now rewrite Hn, (runSimulations_baseSeed _ _ c1 c2 _ Hseed).
Qed.

(** C10.  A base seed of zero is indistinguishable from the default 42
    (and from no seed at all): the two runs return the same result. *)
Theorem zero_seed_is_default_seed `{JSMath}
    (rawInputs : ProjectionInputs)
    (assumptions : Assumptions.MarketAssumptions)
    (n : Z) (step : TimeStep) (regimes : option bool) :
  let config s :=
    {| numSimulations := n; seed := s; timeStep := step;
       includeRegimeSwitching := regimes |} in
  runMonteCarlo rawInputs assumptions (config (Some 0%Z))
  = runMonteCarlo rawInputs assumptions (config (Some 42%Z))
  /\ runMonteCarlo rawInputs assumptions (config (Some 0%Z))
     = runMonteCarlo rawInputs assumptions (config None).
Proof.
  intros config. split; apply runMonteCarlo_baseSeed; reflexivity.
Qed.

(** *** Aggregation *)

Lemma percentileIndex_half n : percentileIndex n (50 # 100) = Nat.div n 2.
Proof.
  unfold percentileIndex.
  assert (E : Qfloor (inject_Z (Z.of_nat n) * (50 # 100)) = (Z.of_nat n / 2)%Z).
  { unfold Qfloor, Qmult, inject_Z. cbn [Qnum Qden].
    change (Z.pos (1 * 100)) with (2 * 50)%Z.
    rewrite Z.div_mul_cancel_r by lia. reflexivity. }
  rewrite E. change 2%Z with (Z.of_nat 2).
  rewrite <- Nat2Z.inj_div. apply Nat2Z.id.
Qed.

Lemma aggregateResults_Ok `{JSMath} simulations inputs res :
  aggregateResults simulations inputs = Ok res ->
  exists s50 med,
    nth_error (Statistics.sortBy byTerminalValue simulations)
              (Nat.div (length simulations) 2) = Some s50
    /\ Statistics.percentile (map terminalValue simulations) 50 = Ok med
    /\ medianOutcome res = terminalValue s50
    /\ median (terminalValueDistribution res) = med
    /\ values (terminalValueDistribution res) = map terminalValue simulations.
Proof.
  unfold aggregateResults. cbv zeta. rewrite percentileIndex_half.
  set (sorted := Statistics.sortBy byTerminalValue simulations).
  destruct (nth_error sorted (Nat.div (length simulations) 2)) as [s50|];
    [|discriminate].
  repeat match goal with
         | |- context [nth_error sorted ?i] =>
             destruct (nth_error sorted i); [|discriminate]
         end.
  cbn [bind].
  destruct (Statistics.percentile _ 50) as [med|]; [|discriminate].
  cbn [bind].
  destruct (nth_error sorted _); [|discriminate].
  cbn [bind]. intros [= <-]. exists s50, med. repeat split.
Qed.

Lemma Qfloor_unique (q : Q) (z : Z) :
  inject_Z z <= q -> q < inject_Z (z + 1) -> Qfloor q = z.
Proof.
  intros Hle Hlt.
  pose proof (Qfloor_le q) as Hf. pose proof (Qlt_floor q) as Hf'.
  assert (H1 : inject_Z z < inject_Z (Qfloor q + 1)) by lra.
  assert (H2 : inject_Z (Qfloor q) < inject_Z (z + 1)) by lra.
  rewrite <- Zlt_Qlt in H1, H2. lia.
Qed.

Lemma Qceiling_unique (q : Q) (z : Z) :
  inject_Z (z - 1) < q -> q <= inject_Z z -> Qceiling q = z.
Proof.
  intros Hlt Hle.
  pose proof (Qle_ceiling q) as Hc. pose proof (Qceiling_lt q) as Hc'.
  assert (H1 : inject_Z (z - 1) < inject_Z (Qceiling q)) by lra.
  assert (H2 : inject_Z (Qceiling q - 1) < inject_Z z) by lra.
  rewrite <- Zlt_Qlt in H1, H2. lia.
Qed.

Lemma rank_50 n : rank n 50 == (inject_Z (Z.of_nat n) - 1) / 2.
Proof. unfold rank. field. Qed.

(** The source's [median] on finite numbers. *)
Lemma median_finite x rest :
  let v := x :: rest in
  let s := sortQ v in
  let mid := Nat.div (length v) 2 in
  Statistics.median (map JS.Fin v)
  = if Nat.even (length v)
    then JS.qdiv (nth (mid - 1) s 0 + nth mid s 0) 2
    else JS.Fin (nth mid s 0).
Proof.
  intros v s mid.
  assert (Hn : (0 < length v)%nat) by (simpl; lia).
  assert (Hmid : (mid < length v)%nat) by (apply Nat.div_lt; lia).
  unfold Statistics.median.
  change (map JS.Fin v) with (JS.Fin x :: map JS.Fin rest). cbv iota.
  change (JS.Fin x :: map JS.Fin rest) with (map JS.Fin v).
  cbv zeta. rewrite sortNumbers_finite, length_map, sortQ_length.
  fold mid. fold s.
  rewrite !at_index_finite by (unfold s; rewrite sortQ_length; lia).
  reflexivity.
Qed.

(** On finite numbers the interpolated 50th percentile is the textbook
    median. *)
Lemma percentile_50_median x rest med :
  Statistics.percentile (map JS.Fin (x :: rest)) 50 = Ok med ->
  JS.same med (Statistics.median (map JS.Fin (x :: rest))).
Proof.
  intros Hmed.
  destruct (percentile_interpolates x rest 50) as (r & Hr & Heq & _ & _);
    [lra|].
  rewrite Hr in Hmed. injection Hmed as <-. cbv zeta in Heq.
  rewrite median_finite. cbv zeta.
  set (n := length (x :: rest)) in *.
  set (s := sortQ (x :: rest)) in *.
  assert (Hn : (0 < n)%nat) by (unfold n; simpl; lia).
  pose proof (rank_50 n) as Hrank.
  destruct (Nat.even n) eqn:Heven.
  - (* an even count: half-way between the two middle values *)
    apply Nat.even_spec in Heven as [k Hk].
    assert (Hlo : Qfloor (rank n 50) = Z.of_nat (Nat.div n 2 - 1)).
    { apply Qfloor_unique; rewrite Hrank, Hk, Nat.mul_comm, Nat.div_mul by lia;
        rewrite ?Nat2Z.inj_sub, ?Nat2Z.inj_mul by lia;
        rewrite ?inject_Z_plus, ?inject_Z_mult; unfold Z.sub;
        rewrite ?inject_Z_plus, ?inject_Z_mult;
        change (inject_Z (Z.of_nat 2)) with 2;
        change (inject_Z (- Z.of_nat 1)) with (- (1));
        change (inject_Z 1) with 1.
      - apply Qle_shift_div_l; lra.
      - apply Qlt_shift_div_r; lra. }
    assert (Hhi : Qceiling (rank n 50) = Z.of_nat (Nat.div n 2)).
    { apply Qceiling_unique; rewrite Hrank, Hk, Nat.mul_comm, Nat.div_mul by lia;
        rewrite ?Nat2Z.inj_mul;
        unfold Z.sub; rewrite ?inject_Z_plus, ?inject_Z_mult;
        change (inject_Z (Z.of_nat 2)) with 2;
        change (inject_Z (- (1))) with (- (1)).
      - apply Qlt_shift_div_l; lra.
      - apply Qle_shift_div_r; lra. }
    rewrite Hlo, Hhi, !Nat2Z.id in Heq.
    unfold JS.qdiv. change (Qeq_bool 2 0) with false. cbv iota.
    cbn [JS.same]. rewrite Heq.
    assert (Hw : rank n 50 - inject_Z (Z.of_nat (Nat.div n 2 - 1)) == 1 # 2).
    { rewrite Hrank, Hk, Nat.mul_comm, Nat.div_mul by lia.
      rewrite Nat2Z.inj_sub, Nat2Z.inj_mul by lia. unfold Z.sub.
      rewrite !inject_Z_plus, inject_Z_mult.
      change (inject_Z (Z.of_nat 2)) with 2.
      change (inject_Z (- Z.of_nat 1)) with (- (1)). field. }
    rewrite Hw. field.
  - (* an odd count: the middle value *)
    assert (Hodd : Nat.odd n = true) by (unfold Nat.odd; now rewrite Heven).
    apply Nat.odd_spec in Hodd as [k Hk].
    assert (Hdiv : Nat.div n 2 = k).
    { rewrite Hk, Nat.add_comm, Nat.mul_comm, Nat.div_add by lia.
      reflexivity. }
    assert (Hidx : rank n 50 == inject_Z (Z.of_nat k)).
    { rewrite Hrank, Hk, Nat2Z.inj_add, Nat2Z.inj_mul.
      rewrite inject_Z_plus, inject_Z_mult.
      change (inject_Z (Z.of_nat 2)) with 2.
      change (inject_Z (Z.of_nat 1)) with 1. field. }
    rewrite (Qfloor_comp _ _ Hidx), (Qceiling_comp _ _ Hidx) in Heq.
    rewrite Hidx, Qfloor_Z, Qceiling_Z, Nat2Z.id in Heq.
    cbn [JS.same]. rewrite Heq, Hdiv. ring.
Qed.

Lemma runSimulations_length `{JSMath} inputs assumptions config n :
  forall sim sims,
    runSimulations inputs assumptions config n sim = Ok sims ->
    length sims = n.
Proof.
  induction n as [|n IH]; intros sim sims; simpl.
  - now intros [= <-].
  - destruct (runSingleSimulation _ _ _); [|discriminate]. cbn [bind].
    destruct (runSimulations _ _ _ n _) eqn:E; [|discriminate]. cbn [bind].
    intros [= <-]. simpl. f_equal. eapply IH, E.
Qed.

(** C7, amended.  [median_outcome] is the terminal value of the path at
    index [N div 2] of the paths sorted by terminal value (the p50 path);
    when the terminal values are finite,
    [terminal_value_distribution.median] is their interpolated median, and
    the two coincide when the number of simulations is odd. *)
Theorem median_outcome_is_middle_rank `{JSMath}
    (rawInputs : ProjectionInputs)
    (assumptions : Assumptions.MarketAssumptions)
    (config : MonteCarloConfig) (res : MonteCarloResult) :
  runMonteCarlo rawInputs assumptions config = Ok res ->
  let v := values (terminalValueDistribution res) in
  length v = Z.to_nat (numSimulations config)
  /\ (1 <= length v)%nat
  /\ medianOutcome res
     = Statistics.at_index (Statistics.sortNumbers v) (Nat.div (length v) 2)
  /\ forall qs : list Q,
       v = map JS.Fin qs ->
       JS.same (median (terminalValueDistribution res)) (Statistics.median v)
       /\ (Nat.odd (length v) = true ->
           JS.same (medianOutcome res)
                   (median (terminalValueDistribution res))).
Proof.
  unfold runMonteCarlo. intros Hrun.
  destruct (validateInputs _); [|discriminate]. cbn [bind] in Hrun.
  destruct (runSimulations _ _ _ _ _) as [sims|] eqn:Hsims; [|discriminate].
  cbn [bind] in Hrun.
  apply runSimulations_length in Hsims.
  destruct (aggregateResults_Ok _ _ _ Hrun)
    as (s50 & med & Hnth & Hmed & Hout & Hmedian & Hvalues).
  cbv zeta. rewrite Hvalues, Hmedian, Hout, length_map.
  assert (Hpos : (1 <= length sims)%nat).
  { assert (Hlt : (Nat.div (length sims) 2
                   < length (Statistics.sortBy byTerminalValue sims))%nat)
      by (apply nth_error_Some; congruence).
    rewrite sortBy_length in Hlt. lia. }
  assert (Hrank : terminalValue s50
                  = Statistics.at_index
                      (Statistics.sortNumbers (map terminalValue sims))
                      (Nat.div (length sims) 2)).
  { unfold Statistics.sortNumbers, Statistics.at_index.
    rewrite <- (map_sortBy terminalValue).
    change (fun a b => JS.sub (terminalValue a) (terminalValue b))
      with byTerminalValue.
    symmetry. erewrite nth_error_nth; [reflexivity|].
    rewrite nth_error_map, Hnth. reflexivity. }
  repeat split; try assumption.
  - destruct qs as [|x rest].
    { apply (f_equal (@length JS.num)) in H0. rewrite length_map in H0.
      simpl in H0. lia. }
    rewrite H0 in Hmed |- *. now apply percentile_50_median.
  - intros Hodd. rewrite Hrank.
    destruct qs as [|x rest].
    { apply (f_equal (@length JS.num)) in H0. rewrite length_map in H0.
      simpl in H0. lia. }
    assert (Hlen : length sims = length (x :: rest)).
    { apply (f_equal (@length JS.num)) in H0. now rewrite !length_map in H0. }
    rewrite H0 in Hmed |- *. rewrite Hlen in Hodd |- *.
    apply percentile_50_median in Hmed. rewrite median_finite in Hmed.
    cbv zeta in Hmed. unfold Nat.odd in Hodd.
    destruct (Nat.even (length (x :: rest))); [discriminate|].
    rewrite sortNumbers_finite, at_index_finite
      by (rewrite sortQ_length; apply Nat.div_lt; simpl; lia).
    destruct med; cbn [JS.same] in Hmed |- *; try contradiction.
    symmetry. exact Hmed.
Qed.

Lemma median_outcome_witness :
  exists res,
    @runMonteCarlo Examples.exampleMath Examples.household
      Assumptions.INDIA_2024_Q4 (Examples.mcConfig 3 None) = Ok res
    /\ values (terminalValueDistribution res)
       = map JS.Fin (map JS.toQ (values (terminalValueDistribution res)))
    /\ length (values (terminalValueDistribution res)) = 3%nat
    /\ JS.same (medianOutcome res) (median (terminalValueDistribution res)).
Proof.
  eexists. split; [vm_compute; reflexivity|].
  split; [vm_compute; reflexivity|].
  split; [reflexivity|].
  match goal with
  | |- JS.same (medianOutcome ?r) _ =>
      refine (proj2 (proj2 (proj2 (proj2
                (@median_outcome_is_middle_rank Examples.exampleMath
                   Examples.household Assumptions.INDIA_2024_Q4
                   (Examples.mcConfig 3 None) r _)))
                (map JS.toQ (values (terminalValueDistribution r))) _) _)
  end; vm_compute; reflexivity.
Defined.

(** C7, as stated, fails for an even number of paths: with two paths the
    median outcome is the larger terminal value, the distribution's median
    the mean of the two. *)
Lemma median_outcome_differs_for_two_paths :
  exists res,
    @aggregateResults Examples.exampleMath
      [Examples.pathAtRate 0 0; Examples.pathAtRate 1 (10 # 100)]
      Examples.household = Ok res
    /\ length (values (terminalValueDistribution res)) = 2%nat
    /\ JS.same (medianOutcome res) (JS.Fin 904000)
    /\ JS.same (median (terminalValueDistribution res)) (JS.Fin 784000)
    /\ JS.same (Statistics.median (values (terminalValueDistribution res)))
               (JS.Fin 784000)
    /\ ~ JS.same (medianOutcome res)
                 (median (terminalValueDistribution res)).
Proof.
  eexists. split; [vm_compute; reflexivity|].
  repeat split. intros E. vm_compute in E. discriminate.
Qed.

End MonteCarloProps.

(** ** Validation *)

Module ValidationProps.
Import Exn Projection Inputs JSFacts.

Lemma Qmax_0_cases x : Qmax 0 x = 0 \/ (Qmax 0 x = x /\ 0 <= x).
Proof.
  unfold Qmax, GenericMinMax.gmax.
  destruct (0 ?= x) eqn:E; [now left| |now left].
  right. split; [reflexivity|]. apply Qlt_alt in E. lra.
Qed.

Lemma Qmax_0_idem x : Qmax 0 (Qmax 0 x) = Qmax 0 x.
Proof.
  destruct (Qmax_0_cases x) as [E|[E _]]; rewrite E;
    [reflexivity|exact E].
Qed.

Lemma Qmax_0_nonneg x : JS.Qltb (Qmax 0 x) 0 = false.
Proof. apply Qltb_ge. apply Q.le_max_l. Qed.

Lemma sanitize_clampMonetary raw :
  sanitizeInputs (clampMonetary raw) = sanitizeInputs raw.
Proof.
  unfold sanitizeInputs, clampMonetary; cbn. now rewrite !Qmax_0_idem.
Qed.

(** After sanitizing, the three monetary checks of the validator cannot
    fire. *)
Lemma validate_sanitized_field raw field message :
  validateInputs (sanitizeInputs raw) = Throw (ValidationError field message) ->
  In field ["currentAge"; "retirementAge"; "lifeExpectancy"; "assetAllocation"].
Proof.
  unfold validateInputs.
  cbn [sanitizeInputs currentAge retirementAge lifeExpectancy currentSavings
       monthlyInvestment monthlyExpenses assetAllocation].
  rewrite !Qmax_0_nonneg. cbn [negb].
  repeat match goal with
         | |- (if ?b then _ else _) = _ -> _ =>
             destruct b; [|intros [= <- _]; simpl; tauto]
         end.
  discriminate.
Qed.


(** Applied to an input as given, the validator does reject a negative
    monetary field, naming the first one in the order of its checks. *)
Lemma validate_unsanitized_negative raw :
  agesValid raw ->
  (exists field, negativeField raw field) ->
  exists field,
    firstNegativeField raw field
    /\ negativeField raw field
    /\ validateInputs raw
       = Throw (ValidationError field "Cannot be negative").
Proof.
  intros ((H18 & H100) & Hret & Hlife) Hneg. unfold validateInputs.
  assert (E1 : JS.Qltb (currentAge raw) 18 || JS.Qltb 100 (currentAge raw)
               = false).
  { apply orb_false_iff. split; now apply Qltb_ge. }
  assert (E2 : Qle_bool (retirementAge raw) (currentAge raw) = false).
  { apply not_true_iff_false. rewrite Qle_bool_iff. lra. }
  assert (E3 : Qle_bool (lifeExpectancy raw) (retirementAge raw) = false).
  { apply not_true_iff_false. rewrite Qle_bool_iff. lra. }
  rewrite E1, E2, E3. cbn [negb].
  destruct (JS.Qltb (currentSavings raw) 0) eqn:S; cbn [negb].
  { apply Qltb_lt in S. exists "currentSavings"%string.
    split; [|split; [left; now split|reflexivity]].
    exists [], (currentSavings raw),
           [("monthlyInvestment"%string, monthlyInvestment raw);
            ("monthlyExpenses"%string, monthlyExpenses raw)].
    split; [reflexivity|]. split; [exact S|constructor]. }
  apply Qltb_ge in S.
  destruct (JS.Qltb (monthlyInvestment raw) 0) eqn:I; cbn [negb].
  { apply Qltb_lt in I. exists "monthlyInvestment"%string.
    split; [|split; [right; left; now split|reflexivity]].
    exists [("currentSavings"%string, currentSavings raw)],
           (monthlyInvestment raw),
           [("monthlyExpenses"%string, monthlyExpenses raw)].
    split; [reflexivity|]. split; [exact I|].
    repeat constructor. exact S. }
  apply Qltb_ge in I.
  destruct (JS.Qltb (monthlyExpenses raw) 0) eqn:X; cbn [negb].
  { apply Qltb_lt in X. exists "monthlyExpenses"%string.
    split; [|split; [right; right; now split|reflexivity]].
    exists [("currentSavings"%string, currentSavings raw);
            ("monthlyInvestment"%string, monthlyInvestment raw)],
           (monthlyExpenses raw), [].
    split; [reflexivity|]. split; [exact X|].
    repeat constructor; assumption. }
  apply Qltb_ge in X.
  destruct Hneg as (field & [[_ H]|[[_ H]|[_ H]]]); lra.
Qed.

(** C3, amended.  A negative monetary field does not make
    [project_deterministic] fail: the sanitizer replaces it by zero before
    the validator runs, so the call behaves exactly as on the clamped
    input and never raises a [ValidationError] naming a monetary field.
    It is the validator alone, applied to an input as given with valid
    ages, that rejects such an input, and the field it names is the
    first negative one in the order current savings, monthly investment,
    monthly expenses. *)
Theorem negative_money_is_clamped_before_validation
    (rawInputs : ProjectionInputs)
    (assumptions : Assumptions.MarketAssumptions) :
  Deterministic.projectDeterministic rawInputs assumptions
  = Deterministic.projectDeterministic (clampMonetary rawInputs) assumptions
  /\ (forall field message,
        Deterministic.projectDeterministic rawInputs assumptions
        = Throw (ValidationError field message) ->
        In field ["currentAge"; "retirementAge"; "lifeExpectancy";
                  "assetAllocation"])
  /\ (agesValid rawInputs ->
      (exists field, negativeField rawInputs field) ->
      exists field,
        firstNegativeField rawInputs field
        /\ negativeField rawInputs field
        /\ validateInputs rawInputs
           = Throw (ValidationError field "Cannot be negative")).
Proof.
  split; [|split].
  - unfold Deterministic.projectDeterministic.
    now rewrite sanitize_clampMonetary.
  - intros field message. unfold Deterministic.projectDeterministic.
    destruct (validateInputs (sanitizeInputs rawInputs)) as [[]|e] eqn:V.
    + cbn [bind]. destruct (growthRates _ _) as [ig eg].
      destruct (Deterministic.calculatePortfolioReturn _ _) as [ret|e] eqn:R.
      * cbn [bind].
        destruct (Deterministic.summarize _ _ _ _) as [s|e] eqn:S;
          cbn [bind]; [discriminate|].
        unfold Deterministic.summarize, Compound.presentValueAnnuity in S.
        repeat match type of S with
               | (if ?b then _ else _) = _ => destruct b
               | bind (if ?b then _ else _) _ = _ => destruct b
               end; cbn [bind] in S; try discriminate;
          injection S as <-; discriminate.
      * cbn [bind]. intros [= ->]. exfalso. clear V.
        unfold Deterministic.calculatePortfolioReturn in R.
        revert R. generalize 0.
        induction (assetAllocation (sanitizeInputs rawInputs))
          as [|[a w] l IH]; intros acc; simpl; [discriminate|].
        destruct (_ !! a); [apply IH|].
        destruct (JS.inherited a); discriminate.
    + cbn [bind]. intros [= ->]. eapply validate_sanitized_field, V.
  - apply validate_unsanitized_negative.
Qed.

(** C3, as stated, fails: negative savings are accepted and a projection
    is returned. *)
Lemma negative_savings_are_projected :
  currentSavings (Examples.withSavings (-1) Examples.household) < 0
  /\ exists res,
      Deterministic.projectDeterministic
        (Examples.withSavings (-1) Examples.household)
        Assumptions.INDIA_2024_Q4 = Ok res.
Proof. split; [reflexivity|]. eexists. vm_compute. reflexivity. Qed.

Lemma negative_money_witness :
  Deterministic.projectDeterministic
    (Examples.withExpenses (-50000)
       (Examples.withSavings (-1) Examples.household))
    Assumptions.INDIA_2024_Q4
  = Deterministic.projectDeterministic
      (Examples.withExpenses 0 (Examples.withSavings 0 Examples.household))
      Assumptions.INDIA_2024_Q4
  /\ validateInputs
       (Examples.withExpenses (-50000)
          (Examples.withSavings (-1) Examples.household))
     = Throw (ValidationError "currentSavings" "Cannot be negative").
Proof.
  destruct (negative_money_is_clamped_before_validation
              (Examples.withExpenses (-50000)
                 (Examples.withSavings (-1) Examples.household))
              Assumptions.INDIA_2024_Q4) as (Hsame & _ & Hvalidator).
  split; [exact Hsame|].
  destruct Hvalidator as (field & _ & _ & Hthrow).
  - unfold agesValid. cbn. repeat split; discriminate || reflexivity.
  - exists "monthlyExpenses"%string. right; right. split; reflexivity.
  - pose proof Hthrow as E. vm_compute in E. injection E as <-.
    exact Hthrow.
Defined.

End ValidationProps.

(** ** Deterministic projector *)

Module DeterministicProps.
Import Exn Projection.

(** C4 fails on the code: an explicit expense growth rate of zero is
    falsy, so the projector falls back to inflation (6%) and the second
    year's expenses are 636 000 instead of 600 000; the run is the one
    obtained with the field absent. *)
Lemma zero_expense_growth_falls_back_to_inflation :
  let inputs := Examples.withExpenseGrowth (Some 0) Examples.household in
  exists res y0 y1,
    Deterministic.projectDeterministic inputs Assumptions.INDIA_2024_Q4
    = Ok res
    /\ timeline res = [y0; y1]
    /\ expenses y0 == monthlyExpenses inputs * 12
    /\ expenses y1 == 636000
    /\ ~ expenses y1 == monthlyExpenses inputs * 12
    /\ Deterministic.projectDeterministic inputs Assumptions.INDIA_2024_Q4
       = Deterministic.projectDeterministic
           (Examples.withExpenseGrowth None Examples.household)
           Assumptions.INDIA_2024_Q4.
Proof.
  do 3 eexists. split; [vm_compute; reflexivity|].
  split; [reflexivity|]. repeat split. discriminate.
Qed.

End DeterministicProps.

(** ** Goal allocator *)

Module GoalsProps.
Import Exn Goals.

(** C5 fails on the code: a goal granted its full required SIP is
    projected with [1.10 ^ years] where the annuity-due future value has
    [(1 + 0.10 / 12) ^ (12 * years)], and so reports a shortfall. *)
Lemma full_grant_reports_shortfall :
  exists res a fv,
    allocateGoalBudget 2026 [Examples.educationGoal] 1000000
      Assumptions.INDIA_2024_Q4 = Ok res
    /\ allocations res = [a]
    /\ feasibility a = on_track
    /\ monthlySIP a = requiredSIP a
    /\ Compound.futureValueAnnuity (monthlySIP a) (expectedReturn / 12) 12
         Compound.due = Ok fv
    /\ fv == 5300000
    /\ projectedValue a < fv
    /\ 0 < shortfall a.
Proof.
  do 3 eexists. split; [vm_compute; reflexivity|].
  split; [reflexivity|]. split; [reflexivity|]. split; [reflexivity|].
  split; [vm_compute; reflexivity|]. repeat split.
Qed.

(** C6 fails on the code: with a zero budget the utilisation is
    [0 / 0 * 100], which is NaN; only the empty goal list returns 0. *)
Lemma zero_budget_utilization_is_NaN :
  (exists res,
      allocateGoalBudget 2026 [Examples.educationGoal] 0
        Assumptions.INDIA_2024_Q4 = Ok res
      /\ budgetUtilization res = JS.NaN)
  /\ (exists res,
        allocateGoalBudget 2026 [] 0 Assumptions.INDIA_2024_Q4 = Ok res
        /\ budgetUtilization res = JS.Fin 0).
Proof.
  split; eexists; (split; [vm_compute; reflexivity|reflexivity]).
Qed.

End GoalsProps.

(** ** Time value of money *)

Module CompoundProps.
Import Exn Compound JSFacts.

Lemma Qltb_nonneg a : 0 <= a -> JS.Qltb a 0 = false.
Proof. apply Qltb_ge. Qed.

Lemma Qeq_bool_false a b : ~ a == b -> Qeq_bool a b = false.
Proof.
  intros Hne. apply not_true_iff_false. intros E. apply Hne.
  now apply Qeq_bool_iff.
Qed.

Lemma Qle_bool_false a b : b < a -> Qle_bool a b = false.
Proof.
  intros Hlt. apply not_true_iff_false. rewrite Qle_bool_iff. lra.
Qed.

(** The accumulated factor of positive rate over at least one period. *)
Lemma growth_exceeds_one r n : 0 < r -> (0 < n)%Z -> 0 < Qpower (1 + r) n - 1.
Proof.
  intros Hr Hn. assert (H : 1 < Qpower (1 + r) n)
    by (apply Qpower_1_lt; [lra|exact Hn]).
  lra.
Qed.

Lemma Qpower_succ a n : (0 <= n)%Z -> Qpower a (n + 1) == Qpower a n * a.
Proof.
  intros Hn. rewrite Qpower_plus' by lia. now rewrite Qpower_1_r.
Qed.

Definition periodsOf (type : Period) (years : Z) : Z :=
  match type with monthly => (years * 12)%Z | annual => years end.

Definition rateOf (type : Period) (annualRate : Q) : Q :=
  match type with monthly => annualRate / 12 | annual => annualRate end.

Lemma periods_and_rate type annualRate years :
  0 <= annualRate -> (0 < years)%Z ->
  (0 < periodsOf type years)%Z /\ 0 <= rateOf type annualRate.
Proof.
  intros Hr Hy. destruct type; simpl; split; try lia; try exact Hr.
  apply Qle_shift_div_l; lra.
Qed.

Lemma requiredSIP_positive targetAmount annualRate years type :
  0 < targetAmount -> 0 <= annualRate -> (0 < years)%Z ->
  exists payment,
    requiredSIP targetAmount annualRate years type = Ok payment
    /\ 0 < payment.
Proof.
  intros Ht Hr Hy. unfold requiredSIP.
  fold (periodsOf type years). fold (rateOf type annualRate).
  destruct (periods_and_rate type annualRate years Hr Hy) as [Hn Hr'].
  set (n := periodsOf type years) in *. set (r := rateOf type annualRate) in *.
  assert (HnQ : 0 < inject_Z n).
  { change 0 with (inject_Z 0). now rewrite <- Zlt_Qlt. }
  rewrite (Qle_bool_false targetAmount 0 Ht).
  replace (years <=? 0)%Z with false by (symmetry; apply Z.leb_gt; lia).
  cbn [negb]. destruct (Qeq_bool r 0) eqn:E.
  - eexists. split; [reflexivity|]. apply Qlt_shift_div_l; lra.
  - assert (Hr0 : 0 < r).
    { assert (~ r == 0)
        by (intros F; apply Qeq_bool_iff in F; congruence).
      lra. }
    pose proof (growth_exceeds_one r n Hr0 Hn) as Hg.
    eexists. split; [reflexivity|]. apply Qlt_shift_div_l; [|lra].
    apply Qmult_lt_0_compat; [|lra]. apply Qlt_shift_div_l; lra.
Qed.

(** The payment [requiredSIP] returns, paid at the start of every period,
    accumulates to the target: [futureValueAnnuity] in its annuity-due
    form undoes [requiredSIP]. *)
Theorem requiredSIP_reaches_target
    (targetAmount annualRate : Q) (years : Z) (type : Period) :
  0 < targetAmount -> 0 <= annualRate -> (0 < years)%Z ->
  exists payment fv,
    requiredSIP targetAmount annualRate years type = Ok payment
    /\ 0 < payment
    /\ futureValueAnnuity payment (rateOf type annualRate)
         (periodsOf type years) due = Ok fv
    /\ fv == targetAmount.
Proof.
  intros Ht Hr Hy. unfold requiredSIP, futureValueAnnuity.
  fold (periodsOf type years). fold (rateOf type annualRate).
  set (n := periodsOf type years). set (r := rateOf type annualRate).
  assert (Hn : (0 < n)%Z) by (unfold n; destruct type; simpl; lia).
  assert (Hr' : 0 <= r).
  { unfold r; destruct type; simpl; [|exact Hr].
    apply Qle_shift_div_l; lra. }
  assert (HnQ : 0 < inject_Z n).
  { change 0 with (inject_Z 0). now rewrite <- Zlt_Qlt. }
  rewrite (Qle_bool_false targetAmount 0 Ht).
  replace (years <=? 0)%Z with false by (symmetry; apply Z.leb_gt; lia).
  replace (n <? 0)%Z with false by (symmetry; apply Z.ltb_ge; lia).
  cbn [negb]. destruct (Qeq_bool r 0) eqn:E.
  - (* no interest: the target is split evenly *)
    assert (Hp : 0 < targetAmount / inject_Z n)
      by (apply Qlt_shift_div_l; lra).
    do 2 eexists. split; [reflexivity|]. split; [exact Hp|].
    rewrite Qltb_nonneg by lra. cbn [negb]. split; [reflexivity|].
    field. lra.
  - assert (Hr0 : 0 < r).
    { assert (~ r == 0)
        by (intros F; apply Qeq_bool_iff in F; congruence).
      lra. }
    pose proof (growth_exceeds_one r n Hr0 Hn) as Hg.
    set (g := Qpower (1 + r) n) in *.
    assert (Hd : 0 < (g - 1) / r * (1 + r)).
    { apply Qmult_lt_0_compat; [|lra]. apply Qlt_shift_div_l; lra. }
    assert (Hp : 0 < targetAmount / ((g - 1) / r * (1 + r)))
      by (apply Qlt_shift_div_l; lra).
    do 2 eexists. split; [reflexivity|]. split; [exact Hp|].
    rewrite Qltb_nonneg by lra. cbn [negb]. split; [reflexivity|].
    field. split; [|split]; lra.
Qed.

Lemma requiredSIP_reaches_target_witness :
  exists payment fv,
    requiredSIP 5300000 (10 # 100) 1 monthly = Ok payment
    /\ 0 < payment
    /\ futureValueAnnuity payment ((10 # 100) / 12) 12 due = Ok fv
    /\ fv == 5300000.
Proof.
  apply (requiredSIP_reaches_target 5300000 (10 # 100) 1 monthly);
    [reflexivity|discriminate|reflexivity].
Defined.

(** Discounting undoes compounding: the present value of a future value,
    at the same rate over the same periods, is the amount compounded. *)
Theorem presentValue_undoes_futureValue (amount rate : Q) (periods : Z) :
  0 <= amount -> -1 < rate -> (0 <= periods)%Z ->
  exists fv back,
    futureValue amount rate periods = Ok fv
    /\ 0 <= fv
    /\ presentValue fv rate periods = Ok (JS.Fin back)
    /\ back == amount.
Proof.
  intros Ha Hr Hn.
  assert (Hg : 0 < Qpower (1 + rate) periods) by (apply Qpower_0_lt; lra).
  assert (Hfv : 0 <= amount * Qpower (1 + rate) periods)
    by (apply Qmult_le_0_compat; lra).
  assert (Hneg : (periods <? 0)%Z = false) by (apply Z.ltb_ge; lia).
  exists (amount * Qpower (1 + rate) periods).
  exists (amount * Qpower (1 + rate) periods / Qpower (1 + rate) periods).
  split; [|split; [exact Hfv|split]].
  - unfold futureValue. now rewrite (Qltb_nonneg amount Ha), Hneg.
  - unfold presentValue, JS.qdiv.
    rewrite (Qltb_nonneg _ Hfv), Hneg, Qeq_bool_false by lra. reflexivity.
  - field. lra.
Qed.

Lemma presentValue_undoes_futureValue_witness :
  exists fv back,
    futureValue 100000 (12 # 100) 10 = Ok fv
    /\ 0 <= fv
    /\ presentValue fv (12 # 100) 10 = Ok (JS.Fin back)
    /\ back == 100000.
Proof.
  apply (presentValue_undoes_futureValue 100000 (12 # 100) 10);
    [discriminate|reflexivity|discriminate].
Defined.

(** Compounding over [m] periods and then over [n] more is compounding
    over [m + n] periods. *)
Theorem futureValue_composes (amount rate : Q) (m n : Z) :
  0 <= amount -> -1 <= rate -> (0 <= m)%Z -> (0 <= n)%Z ->
  exists a b c,
    futureValue amount rate m = Ok a
    /\ futureValue a rate n = Ok b
    /\ futureValue amount rate (m + n) = Ok c
    /\ b == c.
Proof.
  intros Ha Hr Hm Hn.
  assert (Hg : 0 <= Qpower (1 + rate) m) by (apply Qpower_0_le; lra).
  assert (Hfv : 0 <= amount * Qpower (1 + rate) m)
    by (apply Qmult_le_0_compat; lra).
  assert (Em : (m <? 0)%Z = false) by (apply Z.ltb_ge; lia).
  assert (En : (n <? 0)%Z = false) by (apply Z.ltb_ge; lia).
  assert (Emn : (m + n <? 0)%Z = false) by (apply Z.ltb_ge; lia).
  exists (amount * Qpower (1 + rate) m).
  exists (amount * Qpower (1 + rate) m * Qpower (1 + rate) n).
  exists (amount * Qpower (1 + rate) (m + n)%Z).
  unfold futureValue.
  rewrite (Qltb_nonneg amount Ha), (Qltb_nonneg _ Hfv), Em, En, Emn.
  cbn [negb]. repeat (split; [reflexivity|]).
  destruct (Z.eq_dec (m + n)%Z 0%Z) as [E|E].
  - assert (m = 0%Z) by lia. assert (n = 0%Z) by lia. subst. simpl. ring.
  - rewrite (Qpower_plus' _ _ _ E). ring.
Qed.

Lemma futureValue_composes_witness :
  exists a b c,
    futureValue 100000 (12 # 100) 3 = Ok a
    /\ futureValue a (12 # 100) 7 = Ok b
    /\ futureValue 100000 (12 # 100) (3 + 7) = Ok c
    /\ b == c.
Proof.
  apply (futureValue_composes 100000 (12 # 100) 3 7); discriminate.
Defined.

(** The closed form of [futureValueAnnuity] is the balance of an account
    that earns [rate] on its balance every period and then receives the
    payment (ordinary) or receives it first (due): nothing after zero
    periods, one more period adds interest and one payment, and the
    annuity due is the ordinary one with a further period of interest. *)
Theorem futureValueAnnuity_accumulates (payment rate : Q) (periods : Z) :
  0 <= payment -> (0 <= periods)%Z ->
  exists zero now next nowDue,
    futureValueAnnuity payment rate 0 ordinary = Ok zero
    /\ zero == 0
    /\ futureValueAnnuity payment rate periods ordinary = Ok now
    /\ futureValueAnnuity payment rate (periods + 1) ordinary = Ok next
    /\ next == now * (1 + rate) + payment
    /\ futureValueAnnuity payment rate periods due = Ok nowDue
    /\ nowDue == now * (1 + rate).
Proof.
  intros Hp Hn. unfold futureValueAnnuity.
  rewrite !Qltb_nonneg by assumption.
  replace (periods <? 0)%Z with false by (symmetry; apply Z.ltb_ge; lia).
  replace (periods + 1 <? 0)%Z with false by (symmetry; apply Z.ltb_ge; lia).
  change (0 <? 0)%Z with false. cbn [negb].
  destruct (Qeq_bool rate 0) eqn:E.
  - apply Qeq_bool_iff in E.
    do 4 eexists. split; [reflexivity|]. split; [ring|].
    split; [reflexivity|]. split; [reflexivity|].
    split; [rewrite inject_Z_plus, E; change (inject_Z 1) with 1; ring|].
    split; [reflexivity|]. rewrite E. ring.
  - assert (Hr : ~ rate == 0)
      by (intros F; apply Qeq_bool_iff in F; congruence).
    do 4 eexists. split; [reflexivity|].
    split; [simpl; field; exact Hr|].
    split; [reflexivity|]. split; [reflexivity|].
    split; [rewrite (Qpower_succ _ _ Hn); field; exact Hr|].
    split; [reflexivity|]. reflexivity.
Qed.

Lemma futureValueAnnuity_accumulates_witness :
  exists zero now next nowDue,
    futureValueAnnuity 25000 (1 # 100) 0 ordinary = Ok zero
    /\ zero == 0
    /\ futureValueAnnuity 25000 (1 # 100) 12 ordinary = Ok now
    /\ futureValueAnnuity 25000 (1 # 100) (12 + 1) ordinary = Ok next
    /\ next == now * (1 + (1 # 100)) + 25000
    /\ futureValueAnnuity 25000 (1 # 100) 12 due = Ok nowDue
    /\ nowDue == now * (1 + (1 # 100)).
Proof.
  apply (futureValueAnnuity_accumulates 25000 (1 # 100) 12); discriminate.
Defined.

(** The exact conversions between nominal and real rates undo each other
    unless inflation is -100%, where the real rate is not a finite
    number. *)
Theorem real_and_nominal_rates_invert (nominalRate realRate inflationRate : Q) :
  (~ inflationRate == -1 ->
   (exists r, nominalToReal nominalRate inflationRate = JS.Fin r
              /\ realToNominal r inflationRate == nominalRate)
   /\ JS.same (nominalToReal (realToNominal realRate inflationRate)
                             inflationRate)
              (JS.Fin realRate))
  /\ (inflationRate == -1 ->
      ~ JS.finite (nominalToReal nominalRate inflationRate)).
Proof.
  unfold nominalToReal, realToNominal, JS.qdiv. split.
  - intros Hi. assert (Hd : ~ 1 + inflationRate == 0) by lra.
    rewrite !Qeq_bool_false by exact Hd. cbn [JS.sub JS.neg JS.add].
    split.
    + eexists. split; [reflexivity|]. field. exact Hd.
    + cbn [JS.same]. field. exact Hd.
  - intros Hi. assert (Hd : 1 + inflationRate == 0) by lra.
    apply Qeq_bool_iff in Hd. rewrite Hd.
    destruct (Qeq_bool (1 + nominalRate) 0); [simpl; tauto|].
    destruct (JS.Qltb 0 (1 + nominalRate)); simpl; tauto.
Qed.

Lemma real_and_nominal_rates_invert_witness :
  ((exists r, nominalToReal (12 # 100) (6 # 100) = JS.Fin r
              /\ realToNominal r (6 # 100) == 12 # 100)
   /\ JS.same (nominalToReal (realToNominal (5 # 100) (6 # 100)) (6 # 100))
              (JS.Fin (5 # 100)))
  /\ ~ JS.finite (nominalToReal (12 # 100) (-1)).
Proof.
  destruct (real_and_nominal_rates_invert (12 # 100) (5 # 100) (6 # 100))
    as [Hinv _].
  destruct (real_and_nominal_rates_invert (12 # 100) (5 # 100) (-1))
    as [_ Hsing].
  split; [apply Hinv; discriminate|apply Hsing; reflexivity].
Defined.

End CompoundProps.

(** ** Descriptive statistics on finite numbers *)

Module DescriptiveProps.
Import Exn Statistics JSFacts StatisticsProps.

(** *** Sums and counts *)

Lemma fold_plus_shift l a : fold_left Qplus l a == a + fold_left Qplus l 0.
Proof.
  revert a. induction l as [|x l IH]; intros a; simpl; [ring|].
  rewrite IH, (IH (0 + x)). ring.
Qed.

Lemma len_positive {A} (x : A) rest : 0 < len (x :: rest).
Proof.
  unfold len. change 0 with (inject_Z 0). rewrite <- Zlt_Qlt. simpl length.
  lia.
Qed.

(** *** Minimum and maximum *)

Definition qmin (a b : Q) : Q := if JS.Qltb b a then b else a.
Definition qmax (a b : Q) : Q := if JS.Qltb a b then b else a.

Lemma Math_min_from_finite l a :
  fold_left min2 (map JS.Fin l) (JS.Fin a) = JS.Fin (fold_left qmin l a).
Proof.
  revert a. induction l as [|x l IH]; intros a; simpl; [reflexivity|].
  unfold qmin at 2. destruct (JS.Qltb x a); apply IH.
Qed.

Lemma Math_max_from_finite l a :
  fold_left max2 (map JS.Fin l) (JS.Fin a) = JS.Fin (fold_left qmax l a).
Proof.
  revert a. induction l as [|x l IH]; intros a; simpl; [reflexivity|].
  unfold qmax at 2. destruct (JS.Qltb a x); apply IH.
Qed.

Lemma fold_qmin_least l a : least (fold_left qmin l a) (a :: l).
Proof.
  revert a. induction l as [|x l IH]; intros a; simpl.
  - split; [now left|]. intros y [<-|[]]. lra.
  - destruct (IH (qmin a x)) as [Hin Hle]. unfold qmin in *.
    destruct (JS.Qltb x a) eqn:E.
    + apply Qltb_lt in E. split.
      * destruct Hin as [<-|Hin]; [right; now left|right; now right].
      * intros y [<-|[<-|Hy]].
        -- specialize (Hle x (or_introl eq_refl)). lra.
        -- apply Hle. now left.
        -- apply Hle. now right.
    + apply Qltb_ge in E. split.
      * destruct Hin as [<-|Hin]; [now left|right; now right].
      * intros y [<-|[<-|Hy]].
        -- apply Hle. now left.
        -- specialize (Hle a (or_introl eq_refl)). lra.
        -- apply Hle. now right.
Qed.

Lemma fold_qmax_greatest l a : greatest (fold_left qmax l a) (a :: l).
Proof.
  revert a. induction l as [|x l IH]; intros a; simpl.
  - split; [now left|]. intros y [<-|[]]. lra.
  - destruct (IH (qmax a x)) as [Hin Hle]. unfold qmax in *.
    destruct (JS.Qltb a x) eqn:E.
    + apply Qltb_lt in E. split.
      * destruct Hin as [<-|Hin]; [right; now left|right; now right].
      * intros y [<-|[<-|Hy]].
        -- specialize (Hle x (or_introl eq_refl)). lra.
        -- apply Hle. now left.
        -- apply Hle. now right.
    + apply Qltb_ge in E. split.
      * destruct Hin as [<-|Hin]; [now left|right; now right].
      * intros y [<-|[<-|Hy]].
        -- apply Hle. now left.
        -- specialize (Hle a (or_introl eq_refl)). lra.
        -- apply Hle. now right.
Qed.

Lemma min_finite x rest :
  exists lo, min (map JS.Fin (x :: rest)) = JS.Fin lo /\ least lo (x :: rest).
Proof.
  exists (fold_left qmin rest x). split; [|apply fold_qmin_least].
  unfold min, Math_min. cbn [map fold_left min2 JS.lt].
  apply Math_min_from_finite.
Qed.

Lemma max_finite x rest :
  exists hi,
    max (map JS.Fin (x :: rest)) = JS.Fin hi /\ greatest hi (x :: rest).
Proof.
  exists (fold_left qmax rest x). split; [|apply fold_qmax_greatest].
  unfold max, Math_max. cbn [map fold_left max2 JS.lt].
  apply Math_max_from_finite.
Qed.

Lemma fold_min2_NaN l : fold_left min2 l JS.NaN = JS.NaN.
Proof. induction l as [|v l IH]; [reflexivity|exact IH]. Qed.

Lemma fold_max2_NaN l : fold_left max2 l JS.NaN = JS.NaN.
Proof. induction l as [|v l IH]; [reflexivity|exact IH]. Qed.

Lemma min2_NaN a : min2 a JS.NaN = JS.NaN.
Proof. now destruct a. Qed.

Lemma max2_NaN a : max2 a JS.NaN = JS.NaN.
Proof. now destruct a. Qed.

(** On a non-empty vector of finite numbers [min] and [max] return the
    least and the greatest element, which are also the 0th and the 100th
    percentile.  One NaN among the values makes both NaN, and on the
    empty vector both are 0 (not the infinities of [Math.min()] and
    [Math.max()]). *)
Theorem min_and_max_are_extremes :
  (forall (x : Q) (rest : list Q),
      let values := x :: rest in
      exists lo hi p0 p100,
        min (map JS.Fin values) = JS.Fin lo
        /\ max (map JS.Fin values) = JS.Fin hi
        /\ least lo values /\ greatest hi values
        /\ lo <= hi
        /\ percentile (map JS.Fin values) 0 = Ok (JS.Fin p0) /\ p0 == lo
        /\ percentile (map JS.Fin values) 100 = Ok (JS.Fin p100)
        /\ p100 == hi)
  /\ (forall before after : list JS.num,
        min (before ++ JS.NaN :: after) = JS.NaN
        /\ max (before ++ JS.NaN :: after) = JS.NaN)
  /\ min [] = JS.Fin 0 /\ max [] = JS.Fin 0.
Proof.
  split; [|split; [|split; reflexivity]].
  - intros x rest values.
    destruct (min_finite x rest) as (lo & Hmin & Hlo).
    destruct (max_finite x rest) as (hi & Hmax & Hhi).
    destruct (percentile_0 x rest) as (p0 & Hp0 & E0).
    destruct (percentile_100 x rest) as (p100 & Hp100 & E100).
    exists lo, hi, p0, p100.
    split; [exact Hmin|]. split; [exact Hmax|].
    split; [exact Hlo|]. split; [exact Hhi|].
    split; [apply Hhi, Hlo|].
    split; [exact Hp0|]. split.
    { rewrite E0. apply (least_unique _ _ (x :: rest)); [|exact Hlo].
      apply sorted_first_least. discriminate. }
    split; [exact Hp100|].
    rewrite E100.
    pose proof (sorted_last_greatest (x :: rest)) as [Hin Hge];
      [discriminate|].
    destruct Hhi as [Hin' Hge']. apply Qle_antisym; auto.
  - intros before after.
    assert (Hne : forall l : list JS.num, before ++ JS.NaN :: after = l ->
                  min l = Math_min l /\ max l = Math_max l).
    { intros l <-. destruct before; split; reflexivity. }
    destruct (Hne _ eq_refl) as [-> ->].
    unfold Math_min, Math_max. rewrite !fold_left_app. cbn [fold_left].
    rewrite min2_NaN, max2_NaN, fold_min2_NaN, fold_max2_NaN.
    now split.
Qed.

(** *** Percentiles *)

(** [percentile(values, 50)] is [median(values)] (the first test of the
    percentile suite). *)
Theorem percentile_50_is_median (x : Q) (rest : list Q) :
  let v := map JS.Fin (x :: rest) in
  exists p50 med,
    percentile v 50 = Ok (JS.Fin p50)
    /\ median v = JS.Fin med
    /\ p50 == med.
Proof.
  intros v.
  destruct (percentile_interpolates x rest 50) as (r & Hr & _); [lra|].
  pose proof (MonteCarloProps.percentile_50_median x rest _ Hr) as Hsame.
  fold v in Hsame, Hr.
  destruct (median v) as [med| | |] eqn:E; cbn [JS.same] in Hsame;
    try contradiction.
  exists r, med. repeat split; assumption.
Qed.

(** *** The order of the input does not matter *)

Lemma sorted_without (l l' : list Q) a :
  StronglySorted Qle (l ++ a :: l') -> StronglySorted Qle (l ++ l').
Proof.
  induction l as [|y l IH]; simpl; intros Hs.
  - now inversion Hs.
  - inversion Hs as [|? ? Hs' Hall]; subst. constructor; [now apply IH|].
    apply List.Forall_app in Hall as [H1 H2]. apply List.Forall_app.
    split; [exact H1|]. now inversion H2.
Qed.

Lemma moved_equal_element (pre post : list Q) a b :
  a == b -> List.Forall (fun y => y == a) pre ->
  Forall2 Qeq (b :: pre ++ post) (pre ++ a :: post).
Proof.
  intros Hab Hpre. revert b Hab.
  induction pre as [|y pre IH]; intros b Hab; simpl.
  - constructor; [now symmetry|].
    induction post; constructor; [reflexivity|assumption].
  - inversion Hpre as [|? ? Hy Hpre']; subst.
    constructor; [rewrite Hy; now symmetry|].
    apply IH; [exact Hpre'|now symmetry].
Qed.

Lemma Forall2_Qeq_trans (l1 l2 l3 : list Q) :
  Forall2 Qeq l1 l2 -> Forall2 Qeq l2 l3 -> Forall2 Qeq l1 l3.
Proof.
  intros H12. revert l3. induction H12; intros l3 H23; inversion H23; subst;
    constructor; [etransitivity; eassumption|auto].
Qed.

(** Two sorted arrangements of the same numbers agree position by
    position. *)
Lemma sorted_perm_pointwise (l1 : list Q) :
  forall l2, StronglySorted Qle l1 -> StronglySorted Qle l2 ->
             Permutation l1 l2 -> Forall2 Qeq l1 l2.
Proof.
  induction l1 as [|a t1 IH]; intros l2 Hs1 Hs2 Hperm.
  - apply Permutation_nil in Hperm. subst. constructor.
  - destruct l2 as [|b t2];
      [apply Permutation_sym, Permutation_nil in Hperm; discriminate|].
    inversion Hs1 as [|? ? Hs1' Hall1]; subst.
    inversion Hs2 as [|? ? Hs2' Hall2]; subst.
    rewrite List.Forall_forall in Hall1, Hall2.
    assert (Hab : a <= b).
    { assert (Hin : In b (a :: t1))
        by (eapply Permutation_in;
            [apply Permutation_sym, Hperm|now left]).
      destruct Hin as [<-|Hin]; [lra|now apply Hall1]. }
    assert (Hin : In a (b :: t2))
      by (eapply Permutation_in; [apply Hperm|now left]).
    assert (Hba : b <= a)
      by (destruct Hin as [<-|Hin']; [lra|now apply Hall2]).
    assert (Heq : a == b) by lra.
    destruct Hin as [<-|Hin].
    + constructor; [reflexivity|].
      apply IH; [assumption..|]. exact (Permutation_cons_inv Hperm).
    + apply in_split in Hin as (pre & post & ->).
      assert (Hperm' : Permutation t1 (b :: pre ++ post)).
      { exact (Permutation_cons_app_inv (b :: pre) post Hperm). }
      assert (Hsorted' : StronglySorted Qle (b :: pre ++ post)).
      { apply (sorted_without (b :: pre) post a). exact Hs2. }
      assert (Hpre : List.Forall (fun y => y == a) pre).
      { apply List.Forall_forall. intros y Hy.
        assert (b <= y) by (apply Hall2, in_or_app; now left).
        assert (y <= a).
        { clear - Hs2' Hy. induction pre as [|z pre IHp]; [destruct Hy|].
          simpl in Hs2'. inversion Hs2' as [|? ? Hs Hall]; subst.
          destruct Hy as [<-|Hy].
          - rewrite List.Forall_forall in Hall. apply Hall, in_or_app.
            right; now left.
          - now apply IHp. }
        lra. }
      constructor; [exact Heq|].
      pose proof (IH _ Hs1' Hsorted' Hperm') as H1.
      pose proof (moved_equal_element pre post a b Heq Hpre) as H2.
      pose proof (Forall2_Qeq_trans _ _ _ H1 H2) as H3.
      exact H3.
Qed.

Lemma pointwise_nth (s1 s2 : list Q) i :
  Forall2 Qeq s1 s2 -> nth i s1 0 == nth i s2 0.
Proof.
  intros H. revert i. induction H; intros [|i]; simpl;
    [reflexivity|reflexivity|assumption|apply IHForall2].
Qed.

Lemma sortQ_of_permutation (l1 l2 : list Q) i :
  Permutation l1 l2 -> nth i (sortQ l1) 0 == nth i (sortQ l2) 0.
Proof.
  intros Hperm. apply pointwise_nth, sorted_perm_pointwise;
    [apply sortQ_sorted..|].
  rewrite (sortQ_perm l1), (sortQ_perm l2). exact Hperm.
Qed.

(** [median] and [percentile] work on a sorted copy of their input: on
    finite numbers their result does not depend on the order in which
    the values are given. *)
Theorem median_and_percentile_ignore_order
    (values shuffled : list Q) (p : Q) :
  values <> [] -> Permutation values shuffled -> 0 <= p <= 100 ->
  exists med med' a b,
    median (map JS.Fin values) = JS.Fin med
    /\ median (map JS.Fin shuffled) = JS.Fin med' /\ med == med'
    /\ percentile (map JS.Fin values) p = Ok (JS.Fin a)
    /\ percentile (map JS.Fin shuffled) p = Ok (JS.Fin b) /\ a == b.
Proof.
  intros Hne Hperm Hp.
  destruct values as [|x rest]; [contradiction|].
  destruct shuffled as [|x' rest'];
    [apply Permutation_sym, Permutation_nil in Hperm; discriminate|].
  pose proof (Permutation_length Hperm) as Hlen.
  assert (Hmed : exists med med',
             median (map JS.Fin (x :: rest)) = JS.Fin med
             /\ median (map JS.Fin (x' :: rest')) = JS.Fin med'
             /\ med == med').
  { rewrite !MonteCarloProps.median_finite. cbv zeta. rewrite <- Hlen.
    destruct (Nat.even (length (x :: rest))).
    - unfold JS.qdiv. change (Qeq_bool 2 0) with false. cbv iota.
      do 2 eexists. split; [reflexivity|]. split; [reflexivity|].
      rewrite !(sortQ_of_permutation _ _ _ Hperm). reflexivity.
    - do 2 eexists. split; [reflexivity|]. split; [reflexivity|].
      apply sortQ_of_permutation, Hperm. }
  destruct Hmed as (med & med' & Hm1 & Hm2 & Hm3).
  exists med, med'. do 2 eexists.
  split; [exact Hm1|]. split; [exact Hm2|]. split; [exact Hm3|].
  rewrite !percentile_finite by exact Hp. cbv zeta. rewrite <- Hlen.
  split; [reflexivity|]. split; [reflexivity|].
  rewrite !(sortQ_of_permutation _ _ _ Hperm). reflexivity.
Qed.

Lemma median_and_percentile_ignore_order_witness :
  exists med med' a b,
    median (map JS.Fin [5; 2; 4; 1; 3]) = JS.Fin med
    /\ median (map JS.Fin [1; 2; 3; 4; 5]) = JS.Fin med' /\ med == med'
    /\ percentile (map JS.Fin [5; 2; 4; 1; 3]) 25 = Ok (JS.Fin a)
    /\ percentile (map JS.Fin [1; 2; 3; 4; 5]) 25 = Ok (JS.Fin b) /\ a == b.
Proof.
  apply (median_and_percentile_ignore_order
           [5; 2; 4; 1; 3] [1; 2; 3; 4; 5] 25).
  - discriminate.
  - apply Permutation_sym.
    change [1; 2; 3; 4; 5] with (sortQ [5; 2; 4; 1; 3]). apply sortQ_perm.
  - split; discriminate.
Defined.

End DescriptiveProps.

(** ** Seeded random numbers *)

Module RandomProps.
Import Random.

(** Whatever the seed, negative or beyond 32 bits, [next()] leaves a seed
    of at most 31 bits and returns it divided by [0x7fffffff]: a number
    from 0 to 1, both ends included, that is 0 exactly when the new seed
    is 0. *)
Theorem next_is_a_31_bit_fraction (rng : SeededRandom) :
  let u := fst (next rng) in
  let s := seed (snd (next rng)) in
  (0 <= s <= 0x7fffffff)%Z
  /\ u = inject_Z s / inject_Z 0x7fffffff
  /\ 0 <= u <= 1
  /\ (u == 0 <-> s = 0%Z)
  /\ (u == 1 <-> s = 0x7fffffff%Z).
Proof.
  unfold next. cbn [fst snd seed].
  set (x := round53 (round53 (seed rng * 1103515245) + 12345)).
  assert (Hs : (0 <= Z.land x 0x7fffffff <= 0x7fffffff)%Z).
  { change 0x7fffffff%Z with (Z.ones 31). rewrite Z.land_ones by lia.
    pose proof (Z.mod_pos_bound x (2 ^ 31)) as H.
    change (Z.ones 31) with (2 ^ 31 - 1)%Z. lia. }
  set (s := Z.land x 0x7fffffff) in *.
  assert (H0 : 0 <= inject_Z s)
    by (change 0 with (inject_Z 0); rewrite <- Zle_Qle; lia).
  assert (H1 : inject_Z s <= inject_Z 0x7fffffff)
    by (rewrite <- Zle_Qle; lia).
  assert (Hd : 0 < inject_Z 0x7fffffff) by reflexivity.
  split; [exact Hs|]. split; [reflexivity|]. split; [split|split].
  - apply Qle_shift_div_l; lra.
  - apply Qle_shift_div_r; lra.
  - split.
    + intros E.
      assert (E' : inject_Z s == inject_Z 0).
      { change (inject_Z 0) with 0.
        rewrite <- (Qmult_div_r (inject_Z s) (inject_Z 0x7fffffff)) by lra.
        rewrite E. ring. }
      exact (proj1 (inject_Z_injective _ _) E').
    + intros ->. reflexivity.
  - split.
    + intros E.
      assert (E' : inject_Z s == inject_Z 0x7fffffff).
      { rewrite <- (Qmult_div_r (inject_Z s) (inject_Z 0x7fffffff)) by lra.
        rewrite E. ring. }
      exact (proj1 (inject_Z_injective _ _) E').
    + intros ->. reflexivity.
Qed.

End RandomProps.

(** ** Sanitizing and validating inputs *)

Module InputProps.
Import Exn Projection JSFacts.

Lemma Math_round_integer z : JS.Math_round (inject_Z z) = inject_Z z.
Proof.
  unfold JS.Math_round. f_equal. apply MonteCarloProps.Qfloor_unique.
  - lra.
  - rewrite inject_Z_plus. change (inject_Z 1) with 1. lra.
Qed.

Lemma Math_round_idem q :
  JS.Math_round (JS.Math_round q) = JS.Math_round q.
Proof.
  change (JS.Math_round q) with (inject_Z (Qfloor (q + (1 # 2)))).
  apply Math_round_integer.
Qed.

Lemma Math_round_near q :
  - (1 # 2) < JS.Math_round q - q <= 1 # 2.
Proof.
  unfold JS.Math_round.
  pose proof (Qfloor_le (q + (1 # 2))) as H1.
  pose proof (Qlt_floor (q + (1 # 2))) as H2.
  rewrite inject_Z_plus in H2. change (inject_Z 1) with 1 in H2.
  split; lra.
Qed.

(** [sanitizeInputs] rounds the three ages to the nearest integer (halves
    upwards), clamps the three monetary fields at zero and leaves the rest
    alone; sanitizing a second time changes nothing. *)
Theorem sanitizeInputs_idempotent (raw : ProjectionInputs) :
  let inputs := sanitizeInputs raw in
  sanitizeInputs inputs = inputs
  /\ (exists a r l,
        currentAge inputs = inject_Z a
        /\ retirementAge inputs = inject_Z r
        /\ lifeExpectancy inputs = inject_Z l)
  /\ - (1 # 2) < currentAge inputs - currentAge raw <= 1 # 2
  /\ - (1 # 2) < retirementAge inputs - retirementAge raw <= 1 # 2
  /\ - (1 # 2) < lifeExpectancy inputs - lifeExpectancy raw <= 1 # 2
  /\ currentSavings inputs = Qmax 0 (currentSavings raw)
  /\ monthlyInvestment inputs = Qmax 0 (monthlyInvestment raw)
  /\ monthlyExpenses inputs = Qmax 0 (monthlyExpenses raw)
  /\ 0 <= currentSavings inputs
  /\ 0 <= monthlyInvestment inputs
  /\ 0 <= monthlyExpenses inputs
  /\ assetAllocation inputs = assetAllocation raw
  /\ investmentGrowthRate inputs = investmentGrowthRate raw
  /\ expenseGrowthRate inputs = expenseGrowthRate raw
  /\ futureExpenses inputs = futureExpenses raw.
Proof.
  cbv zeta. split.
  - unfold sanitizeInputs.
    cbn [currentAge retirementAge lifeExpectancy currentSavings
         monthlyInvestment monthlyExpenses investmentGrowthRate
         expenseGrowthRate assetAllocation futureExpenses].
    now rewrite !ValidationProps.Qmax_0_idem, !Math_round_idem.
  - split; [do 3 eexists; repeat split|].
    cbn. repeat split; try apply Math_round_near; apply Q.le_max_l.
Qed.

Definition accepted (inputs : ProjectionInputs) : Prop :=
  18 <= currentAge inputs <= 100
  /\ currentAge inputs < retirementAge inputs
  /\ retirementAge inputs < lifeExpectancy inputs
  /\ 0 <= currentSavings inputs
  /\ 0 <= monthlyInvestment inputs
  /\ 0 <= monthlyExpenses inputs
  /\ Qabs (JS.sum (JS.values (assetAllocation inputs)) - 100) <= 1 # 100
  /\ List.Forall (fun pct => 0 <= pct <= 100)
                 (JS.values (assetAllocation inputs)).

Lemma guard_Ok {A} (b : bool) e (c : result A) v :
  (if b then c else Throw e) = Ok v <-> b = true /\ c = Ok v.
Proof. destruct b; split; [auto|tauto|discriminate|intros [? _]; discriminate]. Qed.

(** The guards of [validateInputs] as a proposition, the allocation sum
    taken exactly. *)
Lemma validateInputs_Ok_iff (inputs : ProjectionInputs) :
  validateInputs inputs = Ok tt <-> accepted inputs.
Proof.
  unfold validateInputs, accepted.
  rewrite !guard_Ok, !negb_true_iff, orb_false_iff, !Qltb_ge.
  rewrite <- !not_true_iff_false, !Qle_bool_iff, forallb_forall,
    List.Forall_forall.
  split.
  - intros ((H1 & H2) & H3 & H4 & H5 & H6 & H7 & H8 & H9 & _).
    repeat split; try lra.
    + apply H9 in H. apply negb_true_iff, orb_false_iff in H as [H _].
      now apply Qltb_ge in H.
    + apply H9 in H. apply negb_true_iff, orb_false_iff in H as [_ H].
      now apply Qltb_ge in H.
  - intros ((H1 & H2) & H3 & H4 & H5 & H6 & H7 & H8 & H9).
    repeat split; try lra.
    intros pct Hin. apply negb_true_iff, orb_false_iff.
    destruct (H9 pct Hin). split; now apply Qltb_ge.
Qed.

End InputProps.

(** ** The yearly loop of both projectors *)

Module LoopProps.
Import Exn Projection Timelines JSFacts.

(** [looped inputs infl ig eg R n year start tl]: [tl] is what the yearly
    loop records when it has [n] iterations left at counter [year] with
    balance [start]: each record is [simulateYear] at the next counter on
    the balance its predecessor ended with, at a rate of return satisfying
    [R], and the loop stops after the last iteration or after a retired
    year that ends on zero. *)
Fixpoint looped (inputs : ProjectionInputs) (infl ig eg : Q)
    (R : JS.num -> Prop) (n : nat)
    (year : Z) (start : JS.num) (tl : list YearlyProjection) : Prop :=
  match tl with
  | [] => n = O
  | y :: rest =>
      exists n' rate,
        n = S n' /\ R rate
        /\ y = simulateYear inputs infl ig eg year start rate
        /\ if Deterministic.depleted inputs y then rest = []
           else looped inputs infl ig eg R n' (year + 1) (portfolioValue y)
                       rest
  end.

Lemma depleted_simulateYear inputs infl ig eg year start rate :
  let y := simulateYear inputs infl ig eg year start rate in
  Deterministic.depleted inputs y
  = JS.eqb (portfolioValue y) (JS.Fin 0) && isRetired inputs year.
Proof. reflexivity. Qed.

Lemma projectYears_looped inputs infl ig eg rate n :
  forall year portfolio,
    looped inputs infl ig eg (eq (JS.Fin rate)) n year portfolio
      (Deterministic.projectYears inputs infl ig eg rate n year portfolio).
Proof.
  induction n as [|n IH]; intros year portfolio; simpl; [reflexivity|].
  exists n, (JS.Fin rate). split; [reflexivity|]. split; [reflexivity|].
  split; [reflexivity|].
  rewrite depleted_simulateYear.
  destruct (_ && _); [reflexivity|apply IH].
Qed.

Lemma simulateYears_looped `{JSMath} inputs infl ig eg params n :
  forall year rng portfolio tl,
    MonteCarlo.simulateYears inputs infl ig eg params n year rng portfolio
    = Ok tl ->
    looped inputs infl ig eg (fun _ => True) n year portfolio tl.
Proof.
  induction n as [|n IH]; intros year rng portfolio tl; simpl.
  - now intros [= <-].
  - destruct (MonteCarlo.sampleReturn rng (JS.Fin 0) params)
      as [[ret rng']|e]; simpl; [|discriminate].
    destruct (_ && _) eqn:D.
    + intros [= <-]. cbn [looped]. exists n, ret.
      split; [reflexivity|]. split; [exact I|]. split; [reflexivity|].
      match goal with |- if ?b then _ else _ =>
        replace b with true by (symmetry; exact D) end.
      reflexivity.
    + destruct (MonteCarlo.simulateYears _ _ _ _ _ n _ _ _) as [rest|e] eqn:E;
        simpl; [|discriminate].
      intros [= <-]. cbn [looped]. exists n, ret.
      split; [reflexivity|]. split; [exact I|]. split; [reflexivity|].
      match goal with |- if ?b then _ else _ =>
        replace b with false by (symmetry; exact D) end.
      eapply IH, E.
Qed.

Lemma looped_weaken inputs infl ig eg (R R' : JS.num -> Prop) tl :
  (forall r, R r -> R' r) ->
  forall n year start,
    looped inputs infl ig eg R n year start tl ->
    looped inputs infl ig eg R' n year start tl.
Proof.
  intros HR. induction tl as [|y rest IH]; intros n year start; simpl;
    [auto|].
  intros (n' & rate & Hn & Hr & Hy & Hrest).
  exists n', rate. repeat (split; [auto|]).
  destruct (Deterministic.depleted inputs y); [exact Hrest|now apply IH].
Qed.

(** The inflation rate and the two growth rates both projectors use. *)
Definition inflationOf (assumptions : Assumptions.MarketAssumptions) : Q :=
  Assumptions.inflation_mean (Assumptions.inflation assumptions) / 100.

Definition investmentGrowthOf (assumptions : Assumptions.MarketAssumptions)
    (inputs : ProjectionInputs) : Q :=
  fst (growthRates inputs (inflationOf assumptions)).

Definition expenseGrowthOf (assumptions : Assumptions.MarketAssumptions)
    (inputs : ProjectionInputs) : Q :=
  snd (growthRates inputs (inflationOf assumptions)).

Lemma produced_looped `{JSMath} assumptions inputs tl :
  Produced assumptions inputs tl ->
  looped inputs (inflationOf assumptions)
    (investmentGrowthOf assumptions inputs)
    (expenseGrowthOf assumptions inputs) (fun _ => True)
    (iterations (lifeExpectancy inputs - currentAge inputs)) 0
    (JS.Fin (currentSavings inputs)) tl.
Proof.
  intros [raw res Hres|inp seed tl' Hrun].
  - destruct (TimelineProps.projectDeterministic_Ok _ _ _ Hres)
      as (ret & _ & _ & ->).
    eapply looped_weaken; [|apply projectYears_looped]. now intros.
  - unfold MonteCarlo.runSingleSimulation in Hrun.
    unfold investmentGrowthOf, expenseGrowthOf, inflationOf.
    destruct (growthRates _ _) as [ig eg].
    eapply simulateYears_looped, Hrun.
Qed.

Lemma looped_nth inputs infl ig eg R tl :
  forall n year start i y,
    looped inputs infl ig eg R n year start tl ->
    nth_error tl i = Some y ->
    (i < n)%nat
    /\ (exists rate,
          R rate /\
          y = simulateYear inputs infl ig eg (year + Z.of_nat i)
                (match i with
                 | O => start
                 | S j =>
                     default JS.NaN
                       (option_map portfolioValue (nth_error tl j))
                 end) rate)
    /\ ((S i < length tl)%nat -> Deterministic.depleted inputs y = false)
    /\ ((S i = length tl)%nat ->
        S i = n \/ Deterministic.depleted inputs y = true).
Proof.
  induction tl as [|y0 rest IH]; intros n year start i y Hl Hnth.
  - destruct i; discriminate.
  - destruct Hl as (n' & rate & -> & HR & Hy0 & Hrest).
    destruct i as [|i]; simpl in Hnth.
    + injection Hnth as <-. split; [lia|].
      split; [exists rate; split; [exact HR|now rewrite Z.add_0_r]|].
      destruct (Deterministic.depleted inputs y0) eqn:D.
      * subst rest. simpl. split; [lia|now right].
      * split; [reflexivity|]. intros Hlen.
        destruct rest; [|simpl in Hlen; lia].
        simpl in Hrest. left. now subst n'.
    + destruct (Deterministic.depleted inputs y0) eqn:D.
      { subst rest. destruct i; discriminate. }
      destruct (IH _ _ _ _ _ Hrest Hnth)
        as (Hlt & (r & Hr & Hy) & Hmid & Hend).
      split; [lia|]. split.
      * exists r. split; [exact Hr|]. rewrite Hy. f_equal; [lia|].
        destruct i; [reflexivity|reflexivity].
      * simpl length. split.
        -- intros Hlen. apply Hmid. lia.
        -- intros Hlen. destruct Hend as [E|E]; [lia| |now right].
           left. lia.
Qed.

Lemma isRetired_spec inputs year :
  (isRetired inputs year = true
   <-> retirementAge inputs <= currentAge inputs + inject_Z year)
  /\ (isRetired inputs year = false
      <-> currentAge inputs + inject_Z year < retirementAge inputs).
Proof.
  unfold isRetired. split; [apply Qle_bool_iff|].
  rewrite <- not_true_iff_false, Qle_bool_iff. split; lra.
Qed.

(** In every timeline of either projector the record at index [i] is the
    year [i], at age [currentAge + i], with expenses grown from today's
    monthly expenses plus the one-off expenses of that year.  Before the
    retirement age it contributes the grown monthly investment and
    withdraws nothing; from the retirement age on it contributes nothing
    and withdraws the year's expenses. *)
Theorem yearly_cash_flows `{JSMath}
    (assumptions : Assumptions.MarketAssumptions)
    (inputs : ProjectionInputs) (tl : list YearlyProjection) :
  Produced assumptions inputs tl ->
  forall (i : nat) (y : YearlyProjection),
    nth_error tl i = Some y ->
    let k := Z.of_nat i in
    year y = k
    /\ age y = currentAge inputs + inject_Z k
    /\ income y = 0
    /\ expenses y
       = monthlyExpenses inputs * 12
         * Qpower (1 + expenseGrowthOf assumptions inputs) k
         + futureExpenseAt inputs (inflationOf assumptions) k
    /\ netCashflow y = contributions y - withdrawals y
    /\ (age y < retirementAge inputs ->
        contributions y
        = monthlyInvestment inputs * 12
          * Qpower (1 + investmentGrowthOf assumptions inputs) k
        /\ withdrawals y = 0)
    /\ (retirementAge inputs <= age y ->
        contributions y = 0 /\ withdrawals y = expenses y).
Proof.
  intros Hprod i y Hnth k.
  destruct (looped_nth _ _ _ _ _ _ _ _ _ _ _
              (produced_looped _ _ _ Hprod) Hnth)
    as (_ & (rate & _ & ->) & _).
  rewrite Z.add_0_l. fold k.
  unfold simulateYear.
  cbn [year age income expenses netCashflow contributions withdrawals].
  destruct (isRetired_spec inputs k) as [Hr Hw].
  repeat (split; [reflexivity|]).
  destruct (isRetired inputs k).
  - split; [|now intros _].
    intros Hlt. pose proof (proj1 Hr eq_refl). lra.
  - split; [now intros _|].
    intros Hle. pose proof (proj1 Hw eq_refl). lra.
Qed.

Lemma yearly_cash_flows_witness :
  exists res y,
    Deterministic.projectDeterministic Examples.household
      Assumptions.INDIA_2024_Q4 = Ok res
    /\ nth_error (timeline res) 1 = Some y
    /\ year y = 1%Z /\ age y == 60
    /\ contributions y = 0 /\ withdrawals y = expenses y.
Proof.
  eexists. eexists. split; [vm_compute; reflexivity|].
  split; [reflexivity|].
  match goal with
  | |- year ?y = _ /\ _ =>
      destruct (@yearly_cash_flows Examples.exampleMath
                  Assumptions.INDIA_2024_Q4
                  (sanitizeInputs Examples.household) _
                  (deterministic_timeline Assumptions.INDIA_2024_Q4
                     Examples.household _ eq_refl)
                  1%nat y eq_refl)
        as (Hy & Ha & _ & _ & _ & _ & Hret)
  end.
  split; [exact Hy|]. split; [rewrite Ha; reflexivity|].
  apply Hret. rewrite Ha. discriminate.
Defined.

Lemma last_nth_error {A} (l : list A) :
  last l = nth_error l (length l - 1).
Proof.
  induction l as [|x [|x' l] IH]; [reflexivity..|].
  change (last (x :: x' :: l)) with (last (x' :: l)). rewrite IH.
  simpl. now rewrite Nat.sub_0_r.
Qed.

(** A produced timeline is no longer than the horizon, is empty only
    for an empty horizon, and holds no depleted year before its last
    record. *)
Lemma produced_bounds `{JSMath}
    (assumptions : Assumptions.MarketAssumptions)
    (inputs : ProjectionInputs) (tl : list YearlyProjection) :
  Produced assumptions inputs tl ->
  let horizon := iterations (lifeExpectancy inputs - currentAge inputs) in
  (length tl <= horizon)%nat
  /\ (tl = [] <-> horizon = O)
  /\ (forall i y, nth_error tl i = Some y -> (S i < length tl)%nat ->
                  Deterministic.depleted inputs y = false).
Proof.
  intros Hprod horizon.
  pose proof (produced_looped _ _ _ Hprod) as Hl. fold horizon in Hl.
  split; [|split].
  - destruct tl as [|y0 rest]; [simpl; lia|].
    destruct (nth_error (y0 :: rest) (length (y0 :: rest) - 1)) as [y|]
      eqn:Hy.
    + destruct (looped_nth _ _ _ _ _ _ _ _ _ _ _ Hl Hy) as (Hlt & _).
      simpl length in *. lia.
    + apply nth_error_None in Hy. simpl in Hy. lia.
  - split.
    + intros ->. exact Hl.
    + intros Hz. destruct tl as [|y0 rest]; [reflexivity|].
      destruct Hl as (n' & _ & Hn & _). lia.
  - intros i y Hnth Hlt.
    now destruct (looped_nth _ _ _ _ _ _ _ _ _ _ _ Hl Hnth) as (_ & _ & Hmid & _);
      apply Hmid.
Qed.

(** The loop of either projector runs at most once per year from the
    current age to the life expectancy and records every year it runs.
    It stops early only after a retired year that ends on a portfolio of
    exactly zero ([depleted]): no record but the last is such a year, and
    a timeline shorter than the horizon ends on one. *)
Theorem timeline_stops_at_depletion `{JSMath}
    (assumptions : Assumptions.MarketAssumptions)
    (inputs : ProjectionInputs) (tl : list YearlyProjection) :
  Produced assumptions inputs tl ->
  let horizon := iterations (lifeExpectancy inputs - currentAge inputs) in
  (length tl <= horizon)%nat
  /\ (tl = [] <-> horizon = O)
  /\ (forall i y, nth_error tl i = Some y -> (S i < length tl)%nat ->
                  Deterministic.depleted inputs y = false)
  /\ ((length tl < horizon)%nat ->
      exists y, last tl = Some y
                /\ Deterministic.depleted inputs y = true
                /\ JS.same (portfolioValue y) (JS.Fin 0)
                /\ retirementAge inputs <= age y).
Proof.
  intros Hprod horizon.
  pose proof (produced_looped _ _ _ Hprod) as Hl. fold horizon in Hl.
  destruct (produced_bounds _ _ _ Hprod) as (Hlen & Hempty & Hmid).
  fold horizon in Hlen, Hempty.
  split; [exact Hlen|]. split; [exact Hempty|]. split; [exact Hmid|].
  intros Hshort.
  destruct tl as [|y0 rest].
  { simpl in Hshort. simpl in Hl. lia. }
  destruct (nth_error (y0 :: rest) (length (y0 :: rest) - 1)) as [y|] eqn:Hy;
    [|apply nth_error_None in Hy; simpl in Hy; lia].
  destruct (looped_nth _ _ _ _ _ _ _ _ _ _ _ Hl Hy) as (_ & _ & _ & Hend).
  destruct Hend as [E|D]; [simpl length; lia|simpl length in *; lia|].
  exists y. rewrite last_nth_error. split; [exact Hy|].
  split; [exact D|].
  unfold Deterministic.depleted in D. apply andb_true_iff in D as [D1 D2].
  split; [|now apply Qle_bool_iff].
  destruct (portfolioValue y); try discriminate.
  cbn [JS.eqb] in D1. cbn [JS.same]. now apply Qeq_bool_iff.
Qed.

Lemma timeline_stops_at_depletion_witness :
  exists res y,
    Deterministic.projectDeterministic Examples.earlyDepletion
      Assumptions.INDIA_2024_Q4 = Ok res
    /\ length (timeline res) = 2%nat
    /\ iterations (lifeExpectancy (sanitizeInputs Examples.earlyDepletion)
                   - currentAge (sanitizeInputs Examples.earlyDepletion))
       = 4%nat
    /\ last (timeline res) = Some y
    /\ Deterministic.depleted (sanitizeInputs Examples.earlyDepletion) y
       = true.
Proof.
  eexists. eexists. split; [vm_compute; reflexivity|].
  split; [reflexivity|]. split; [reflexivity|].
  destruct (@timeline_stops_at_depletion Examples.exampleMath
              Assumptions.INDIA_2024_Q4
              (sanitizeInputs Examples.earlyDepletion) _
              (deterministic_timeline Assumptions.INDIA_2024_Q4
                 Examples.earlyDepletion _ eq_refl))
    as (_ & _ & _ & Hshort).
  destruct Hshort as (y & Hy & Hd & _); [vm_compute; lia|].
  split; [vm_compute; reflexivity|].
  vm_compute in Hy. injection Hy as <-. exact Hd.
Defined.

(** In every timeline of either projector a year opens on the balance the
    previous year closed on (the current savings for the first year), the
    investment return is that opening balance times the year's rate of
    return, and the closing balance is opening balance plus return plus
    net cash flow, replaced by zero when that sum is negative. *)
Theorem closing_balance `{JSMath}
    (assumptions : Assumptions.MarketAssumptions)
    (inputs : ProjectionInputs) (tl : list YearlyProjection) :
  Produced assumptions inputs tl ->
  forall (i : nat) (y : YearlyProjection),
    nth_error tl i = Some y ->
    let opening := startOfYear inputs tl i in
    let balance :=
      JS.add (JS.add opening (investmentReturn y))
             (JS.Fin (contributions y - withdrawals y)) in
    (exists rate, investmentReturn y = JS.mul opening rate)
    /\ portfolioValue y
       = (if JS.lt balance (JS.Fin 0) then JS.Fin 0 else balance)
    /\ realReturn y
       = JS.div (investmentReturn y)
           (JS.Fin (Qpower (1 + inflationOf assumptions) (Z.of_nat i))).
Proof.
  intros Hprod i y Hnth.
  destruct (looped_nth _ _ _ _ _ _ _ _ _ _ _
              (produced_looped _ _ _ Hprod) Hnth)
    as (_ & (rate & _ & ->) & _).
  rewrite Z.add_0_l. cbv zeta. split; [now exists rate|].
  split; reflexivity.
Qed.

Lemma closing_balance_witness :
  exists res y0 y1,
    Deterministic.projectDeterministic Examples.household
      Assumptions.INDIA_2024_Q4 = Ok res
    /\ timeline res = [y0; y1]
    /\ portfolioValue y1
       = (if JS.lt (JS.add (JS.add (portfolioValue y0) (investmentReturn y1))
                           (JS.Fin (contributions y1 - withdrawals y1)))
                   (JS.Fin 0)
          then JS.Fin 0
          else JS.add (JS.add (portfolioValue y0) (investmentReturn y1))
                      (JS.Fin (contributions y1 - withdrawals y1))).
Proof.
  do 3 eexists. split; [vm_compute; reflexivity|].
  split; [reflexivity|].
  match goal with
  | |- portfolioValue ?y = _ =>
      exact (proj1 (proj2
               (@closing_balance Examples.exampleMath
                  Assumptions.INDIA_2024_Q4
                  (sanitizeInputs Examples.household) _
                  (deterministic_timeline Assumptions.INDIA_2024_Q4
                     Examples.household _ eq_refl)
                  1%nat y eq_refl)))
  end.
Defined.

End LoopProps.

(** ** Deterministic projector: results and errors *)

Module ProjectorProps.
Import Exn Projection Timelines JSFacts InputProps LoopProps.

(** [known assumptions allocation]: every asset of the allocation has
    parameters in the bundle. *)
Definition known (assumptions : Assumptions.MarketAssumptions)
    (allocation : JS.obj Q) : Prop :=
  List.Forall
    (fun a => Assumptions.assetClasses assumptions !! a <> None)
    (JS.keys allocation).

Lemma portfolioReturnFrom_known assumptions allocation :
  known assumptions allocation ->
  forall acc, exists r,
    Deterministic.portfolioReturnFrom acc allocation assumptions = Ok r.
Proof.
  induction allocation as [|[a w] rest IH]; intros Hk acc; simpl.
  - now exists acc.
  - inversion Hk as [|? ? Ha Hrest]; subst. simpl in Ha.
    destruct (Assumptions.assetClasses assumptions !! a);
      [|contradiction].
    apply IH. exact Hrest.
Qed.

Lemma portfolioReturnFrom_unknown assumptions known_part a w rest :
  known assumptions known_part ->
  Assumptions.assetClasses assumptions !! a = None ->
  forall acc,
    Deterministic.portfolioReturnFrom acc (known_part ++ (a, w) :: rest)
      assumptions
    = if JS.inherited a
      then Throw (TypeError "Cannot read properties of undefined")
      else Throw (Error ("Unknown asset: " ++ a)).
Proof.
  induction known_part as [|[a' w'] l IH]; intros Hk Ha acc; simpl.
  - now rewrite Ha.
  - inversion Hk as [|? ? Ha' Hrest]; subst. simpl in Ha'.
    destruct (Assumptions.assetClasses assumptions !! a');
      [|contradiction].
    now apply IH.
Qed.

Lemma summarize_returns inputs infl ret tl :
  accepted inputs -> -1 <= infl ->
  exists s, Deterministic.summarize inputs infl ret tl = Ok s.
Proof.
  intros (_ & _ & Hlife & _ & _ & Hexp & _) Hinfl.
  unfold Deterministic.summarize, Compound.presentValueAnnuity.
  assert (Hpay : 0 <= monthlyExpenses inputs * 12
                      * Qpower (1 + infl)
                          (Qfloor (retirementAge inputs - currentAge inputs))).
  { apply Qmult_le_0_compat; [lra|]. apply Qpower_0_le. lra. }
  rewrite (Qltb_ge_intro _ _ Hpay).
  assert (Hper : (Qfloor (lifeExpectancy inputs - retirementAge inputs) <? 0)%Z
                 = false).
  { apply Z.ltb_ge. change 0%Z with (Qfloor 0). apply Qfloor_resp_le. lra. }
  rewrite Hper. cbn [negb].
  destruct (JS.eqb _ _); cbn [bind]; eexists; reflexivity.
Qed.

(** [projectDeterministic] returns a result, with at least one yearly
    record, whenever the sanitized inputs pass validation, every asset of
    the allocation is in the bundle and mean inflation is not below
    -100%. *)
Theorem projectDeterministic_returns
    (rawInputs : ProjectionInputs)
    (assumptions : Assumptions.MarketAssumptions) :
  accepted (sanitizeInputs rawInputs) ->
  known assumptions (assetAllocation rawInputs) ->
  -100 <= Assumptions.inflation_mean (Assumptions.inflation assumptions) ->
  exists res,
    Deterministic.projectDeterministic rawInputs assumptions = Ok res
    /\ timeline res <> [].
Proof.
  intros Hacc Hknown Hinfl. unfold Deterministic.projectDeterministic.
  rewrite (proj2 (validateInputs_Ok_iff _) Hacc). cbn [bind].
  destruct (growthRates _ _) as [ig eg].
  destruct (portfolioReturnFrom_known assumptions _ Hknown 0) as [r Hr].
  unfold Deterministic.calculatePortfolioReturn.
  change (assetAllocation (sanitizeInputs rawInputs))
    with (assetAllocation rawInputs).
  rewrite Hr. cbn [bind].
  match goal with
  | |- context [Deterministic.summarize ?i ?f ?e ?t] =>
      destruct (summarize_returns i f e t Hacc) as [s Hs]
  end.
  { apply Qle_shift_div_l; [reflexivity|]. lra. }
  rewrite Hs. cbn [bind]. eexists. split; [reflexivity|].
  cbn [timeline].
  destruct Hacc as ((H18 & _) & Hret & Hlife & _).
  assert (Hpos : (0 < iterations (lifeExpectancy (sanitizeInputs rawInputs)
                                  - currentAge (sanitizeInputs rawInputs)))%nat).
  { unfold iterations.
    assert (0 < Qceiling (lifeExpectancy (sanitizeInputs rawInputs)
                          - currentAge (sanitizeInputs rawInputs)))%Z; [|lia].
    rewrite Zlt_Qlt. eapply Qlt_le_trans; [|apply Qle_ceiling].
    change (inject_Z 0) with 0. lra. }
  destruct (iterations _); [lia|]. discriminate.
Qed.

Lemma projectDeterministic_returns_witness :
  exists res,
    Deterministic.projectDeterministic Examples.household
      Assumptions.INDIA_2024_Q4 = Ok res
    /\ timeline res <> [].
Proof.
  apply projectDeterministic_returns.
  - apply validateInputs_Ok_iff. reflexivity.
  - repeat constructor; discriminate.
  - discriminate.
Defined.

(** The first allocation asset missing from the bundle. *)
Definition firstUnknown (assumptions : Assumptions.MarketAssumptions)
    (allocation : JS.obj Q) (a : string) : Prop :=
  exists before w rest,
    allocation = before ++ (a, w) :: rest
    /\ known assumptions before
    /\ Assumptions.assetClasses assumptions !! a = None.

(** [projectDeterministic] throws what [validateInputs] throws on the
    sanitized inputs.  When they pass and the allocation names an asset
    the bundle has no parameters for, the first such asset decides: the
    call throws the plain [Error] "Unknown asset: <id>", unless the name
    is one every object inherits (such as "constructor"), which passes
    the guard and ends in a [TypeError]. *)
Theorem projectDeterministic_throws
    (rawInputs : ProjectionInputs)
    (assumptions : Assumptions.MarketAssumptions) :
  (forall e, validateInputs (sanitizeInputs rawInputs) = Throw e ->
             Deterministic.projectDeterministic rawInputs assumptions
             = Throw e)
  /\ (forall a,
        validateInputs (sanitizeInputs rawInputs) = Ok tt ->
        firstUnknown assumptions (assetAllocation rawInputs) a ->
        (JS.inherited a = false ->
         Deterministic.projectDeterministic rawInputs assumptions
         = Throw (Error ("Unknown asset: " ++ a)))
        /\ (JS.inherited a = true ->
            exists message,
              Deterministic.projectDeterministic rawInputs assumptions
              = Throw (TypeError message))).
Proof.
  unfold Deterministic.projectDeterministic. split.
  - intros e ->. reflexivity.
  - intros a -> (before & w & rest & Halloc & Hk & Ha). cbn [bind].
    destruct (growthRates _ _) as [ig eg].
    unfold Deterministic.calculatePortfolioReturn.
    change (assetAllocation (sanitizeInputs rawInputs))
      with (assetAllocation rawInputs).
    rewrite Halloc, (portfolioReturnFrom_unknown _ _ _ _ _ Hk Ha).
    split; intros ->; [reflexivity|]. eexists. reflexivity.
Qed.

(** An allocation that names "constructor" is such a case: a mistyped
    name is reported as an unknown asset, this one is not. *)
Lemma inherited_asset_name_is_a_TypeError :
  let allocating allocation :=
    {| currentAge := 59; retirementAge := 60; lifeExpectancy := 61;
       currentSavings := 1000000; monthlyInvestment := 25000;
       investmentGrowthRate := None; monthlyExpenses := 50000;
       expenseGrowthRate := None; assetAllocation := allocation;
       futureExpenses := None |} in
  Deterministic.projectDeterministic
    (allocating [("equity-nifty50", 70); ("equity", 30)])
    Assumptions.INDIA_2024_Q4
  = Throw (Error "Unknown asset: equity")
  /\ Deterministic.projectDeterministic
       (allocating [("equity-nifty50", 70); ("constructor", 30)])
       Assumptions.INDIA_2024_Q4
     = Throw (TypeError "Cannot read properties of undefined").
Proof. split; vm_compute; reflexivity. Qed.

(** *** The records of a deterministic run *)

Lemma projectYears_openings inputs infl ig eg rate n :
  forall year (p : Q) i y,
    0 <= p ->
    nth_error
      (Deterministic.projectYears inputs infl ig eg rate n year (JS.Fin p)) i
    = Some y ->
    exists opening,
      match i with
      | O => JS.Fin p
      | S j =>
          default JS.NaN
            (option_map portfolioValue
               (nth_error
                  (Deterministic.projectYears inputs infl ig eg rate n year
                     (JS.Fin p)) j))
      end = JS.Fin opening
      /\ 0 <= opening
      /\ investmentReturn y = JS.Fin (opening * rate).
Proof.
  induction n as [|n IH]; intros year p i y Hp; [now destruct i|].
  cbn [Deterministic.projectYears].
  destruct (TimelineProps.simulateYear_finite inputs infl ig eg year p rate)
    as (q & Hq & Hpos).
  set (y0 := simulateYear inputs infl ig eg year (JS.Fin p) (JS.Fin rate))
    in *.
  cbv zeta. fold y0.
  destruct i as [|i]; cbn [nth_error].
  - intros [= <-]. exists p. repeat split. exact Hp.
  - destruct (_ && _); [now destruct i|].
    rewrite Hq. intros Hy.
    destruct (IH _ _ _ _ Hpos Hy) as (opening & Hopen & Hnonneg & Hret).
    exists opening. split; [|split; assumption].
    destruct i as [|i]; [|exact Hopen].
    change (portfolioValue y0 = JS.Fin opening). rewrite Hq. exact Hopen.
Qed.

(** The expected return is the allocation-weighted mean of the nominal
    returns of the bundle. *)
Lemma portfolioReturnFrom_sum assumptions allocation :
  forall acc r,
    Deterministic.portfolioReturnFrom acc allocation assumptions = Ok r ->
    exists means,
      Forall2 (fun '(a, _) m =>
                 exists params,
                   Assumptions.assetClasses assumptions !! a = Some params
                   /\ m = Assumptions.mean (Assumptions.nominalReturn params))
              allocation means
      /\ r == acc
              + fold_left Qplus
                  (map (fun '(w, m) => (w / 100) * (m / 100))
                       (combine (JS.values allocation) means)) 0.
Proof.
  induction allocation as [|[a w] rest IH]; intros acc r; simpl.
  - intros [= <-]. exists []. split; [constructor|]. simpl. ring.
  - destruct (Assumptions.assetClasses assumptions !! a) as [params|] eqn:E;
      [|destruct (JS.inherited a); discriminate].
    intros Hr. destruct (IH _ _ Hr) as (means & Hm & Hsum).
    exists (Assumptions.mean (Assumptions.nominalReturn params) :: means).
    split; [constructor; [now exists params|exact Hm]|].
    simpl. rewrite Hsum.
    rewrite (DescriptiveProps.fold_plus_shift _ (0 + _)). ring.
Qed.

(** Every record of a deterministic timeline holds a finite, non-negative
    portfolio value, and its investment return is the balance the year
    opened with (the sanitized savings in the first year, the value the
    previous record closed with afterwards) times the expected return of
    the allocation: the weights, as percentages, applied to the bundle's
    mean nominal returns, as percentages. *)
Theorem deterministic_records_are_finite
    (rawInputs : ProjectionInputs)
    (assumptions : Assumptions.MarketAssumptions) (res : ProjectionResult) :
  Deterministic.projectDeterministic rawInputs assumptions = Ok res ->
  exists expectedReturn means,
    Forall2 (fun '(a, _) m =>
               exists params,
                 Assumptions.assetClasses assumptions !! a = Some params
                 /\ m = Assumptions.mean (Assumptions.nominalReturn params))
            (assetAllocation rawInputs) means
    /\ expectedReturn
       == fold_left Qplus
            (map (fun '(w, m) => (w / 100) * (m / 100))
                 (combine (JS.values (assetAllocation rawInputs)) means)) 0
    /\ forall i y,
        nth_error (timeline res) i = Some y ->
        exists opening value,
          startOfYear (sanitizeInputs rawInputs) (timeline res) i
          = JS.Fin opening
          /\ 0 <= opening
          /\ investmentReturn y = JS.Fin (opening * expectedReturn)
          /\ portfolioValue y = JS.Fin value /\ 0 <= value.
Proof.
  intros Hres.
  destruct (TimelineProps.projectDeterministic_Ok _ _ _ Hres)
    as (r & _ & Hr & Htl).
  destruct (portfolioReturnFrom_sum _ _ _ _ Hr) as (means & Hm & Hsum).
  exists r, means. split; [exact Hm|].
  split; [rewrite Hsum; apply Qplus_0_l|].
  intros i y Hy.
  pose proof (TimelineProps.deterministic_portfolio_nonnegative _ _ _ Hres)
    as Hfin.
  rewrite List.Forall_forall in Hfin.
  destruct (Hfin y (nth_error_In _ _ Hy)) as (value & Hv & Hpos).
  unfold startOfYear. rewrite Htl in Hy |- *.
  destruct (projectYears_openings _ _ _ _ _ _ _ _ _ _
              (Q.le_max_l 0 (currentSavings rawInputs)) Hy)
    as (opening & Hopen & Hnonneg & Hret).
  exists opening, value. repeat split; assumption.
Qed.

Lemma deterministic_records_are_finite_witness :
  exists res,
    Deterministic.projectDeterministic Examples.household
      Assumptions.INDIA_2024_Q4 = Ok res
    /\ exists expectedReturn,
        expectedReturn == 1056 # 10000
        /\ forall i y,
            nth_error (timeline res) i = Some y ->
            exists opening value,
              startOfYear (sanitizeInputs Examples.household)
                (timeline res) i = JS.Fin opening
              /\ 0 <= opening
              /\ investmentReturn y = JS.Fin (opening * expectedReturn)
              /\ portfolioValue y = JS.Fin value /\ 0 <= value.
Proof.
  eexists. split; [vm_compute; reflexivity|].
  destruct (deterministic_records_are_finite Examples.household
              Assumptions.INDIA_2024_Q4 _ eq_refl)
    as (r & means & Hm & Hsum & Hall).
  exists r. split; [|exact Hall].
  rewrite Hsum. unfold Examples.household in Hm |- *.
  cbn [assetAllocation] in Hm |- *.
  inversion Hm as [|? m1 ? ms1 H1 Hm']; subst.
  inversion Hm' as [|? m2 ? ms2 H2 Hm'']; subst.
  inversion Hm''; subst. cbv beta iota in H1, H2.
  destruct H1 as (p1 & E1 & ->). destruct H2 as (p2 & E2 & ->).
  vm_compute in E1. injection E1 as <-.
  vm_compute in E2. injection E2 as <-.
  reflexivity.
Defined.

(** *** The summary of a deterministic run *)

Lemma looped_reaches inputs infl ig eg R :
  forall k n year start tl,
    looped inputs infl ig eg R n year start tl ->
    (k < n)%nat ->
    (forall j, (j < k)%nat ->
               isRetired inputs (year + Z.of_nat j) = false) ->
    exists y, nth_error tl k = Some y.
Proof.
  induction k as [|k IH]; intros n year start tl Hl Hk Hwork.
  - destruct tl as [|y0 rest]; [simpl in Hl; lia|]. now exists y0.
  - destruct tl as [|y0 rest]; [simpl in Hl; lia|].
    destruct Hl as (n' & rate & -> & _ & Hy0 & Hrest).
    assert (D : Deterministic.depleted inputs y0 = false).
    { rewrite Hy0, depleted_simulateYear.
      specialize (Hwork O ltac:(lia)). rewrite Z.add_0_r in Hwork.
      rewrite Hwork. apply andb_false_r. }
    rewrite D in Hrest. simpl.
    apply (IH n' (year + 1)%Z (portfolioValue y0)); [exact Hrest|lia|].
    intros j Hj. specialize (Hwork (S j) ltac:(lia)).
    rewrite <- Hwork. f_equal. lia.
Qed.

Lemma find_at {A} (f : A -> bool) :
  forall l k y,
    nth_error l k = Some y -> f y = true ->
    (forall j z, (j < k)%nat -> nth_error l j = Some z -> f z = false) ->
    find f l = Some y.
Proof.
  induction l as [|x l IH]; intros k y Hnth Hy Hbefore.
  - destruct k; discriminate.
  - destruct k as [|k]; simpl in *.
    + injection Hnth as ->. now rewrite Hy.
    + rewrite (Hbefore O x ltac:(lia) eq_refl).
      apply (IH k); [exact Hnth|exact Hy|].
      intros j z Hj Hz. apply (Hbefore (S j) z); [lia|exact Hz].
Qed.

Lemma find_last_only {A} (f : A -> bool) (l : list A) :
  (forall i y, nth_error l i = Some y -> (S i < length l)%nat ->
               f y = false) ->
  find f l = match last l with
             | Some y => if f y then Some y else None
             | None => None
             end.
Proof.
  induction l as [|x [|x' l] IH]; intros Hmid; [reflexivity|reflexivity|].
  change (last (x :: x' :: l)) with (last (x' :: l)).
  rewrite <- IH.
  - simpl. rewrite (Hmid O x eq_refl); [reflexivity|simpl; lia].
  - intros i y Hnth Hlt. apply (Hmid (S i) y); [exact Hnth|simpl in *; lia].
Qed.

Lemma or_num_finite q :
  JS.same (JS.or_num (Some (JS.Fin q)) (JS.Fin 0)) (JS.Fin q).
Proof.
  unfold JS.or_num, JS.truthy. destruct (Qeq_bool q 0) eqn:E; cbn.
  - apply Qeq_bool_iff in E. now symmetry.
  - reflexivity.
Qed.

Lemma summarize_fields inputs infl ret tl s :
  Deterministic.summarize inputs infl ret tl = Ok s ->
  projectedCorpusAtRetirement s
  = JS.or_num
      (option_map portfolioValue
         (find (fun y => Qeq_bool (age y) (retirementAge inputs)) tl))
      (JS.Fin 0)
  /\ finalPortfolioValue s
     = JS.or_num (option_map portfolioValue (last tl)) (JS.Fin 0)
  /\ depletionAge s = option_map age (find (Deterministic.depleted inputs) tl)
  /\ (successMetric s = depletion
      <-> find (Deterministic.depleted inputs) tl <> None).
Proof.
  unfold Deterministic.summarize.
  destruct (Compound.presentValueAnnuity _ _ _) as [needed|];
    [|discriminate].
  cbn [bind]. intros [= <-].
  cbn [projectedCorpusAtRetirement finalPortfolioValue depletionAge
       successMetric].
  repeat (split; [reflexivity|]).
  destruct (find (Deterministic.depleted inputs) tl).
  - split; [discriminate|reflexivity].
  - split; [|contradiction].
    destruct (JS.lt _ _); [discriminate|].
    destruct (JS.lt _ _); discriminate.
Qed.

(** The summary of a deterministic run reads the timeline it comes with:
    the final value is the last record's portfolio value; the run is a
    depletion exactly when the last record is a retired year that ended on
    zero, and the depletion age is then that record's age; the corpus at
    retirement is the portfolio value at the end of the year in which the
    retirement age is reached, a year every timeline contains. *)
Theorem summary_reads_the_timeline
    (rawInputs : ProjectionInputs)
    (assumptions : Assumptions.MarketAssumptions) (res : ProjectionResult) :
  Deterministic.projectDeterministic rawInputs assumptions = Ok res ->
  let inputs := sanitizeInputs rawInputs in
  let s := summary res in
  exists final,
    last (timeline res) = Some final
    /\ JS.same (finalPortfolioValue s) (portfolioValue final)
    /\ (Deterministic.depleted inputs final = true ->
        successMetric s = depletion /\ depletionAge s = Some (age final))
    /\ (Deterministic.depleted inputs final = false ->
        successMetric s <> depletion /\ depletionAge s = None)
    /\ exists atRetirement,
        nth_error (timeline res)
          (Z.to_nat (Qfloor (retirementAge inputs - currentAge inputs)))
        = Some atRetirement
        /\ age atRetirement == retirementAge inputs
        /\ JS.same (projectedCorpusAtRetirement s)
                   (portfolioValue atRetirement).
Proof.
  intros Hres inputs s.
  pose proof (deterministic_timeline (H := Examples.exampleMath) _ _ _ Hres)
    as Hprod.
  fold inputs in Hprod.
  pose proof (produced_looped _ _ _ Hprod) as Hl.
  destruct (produced_bounds _ _ _ Hprod) as (Hlen & Hempty & Hmid).
  destruct (TimelineProps.projectDeterministic_Ok _ _ _ Hres)
    as (r & Hvalid & _ & _).
  fold inputs in Hvalid.
  apply validateInputs_Ok_iff in Hvalid.
  destruct Hvalid as ((H18 & _) & Hret & Hlife & _).
  pose proof (TimelineProps.deterministic_portfolio_nonnegative _ _ _ Hres)
    as Hfin.
  rewrite List.Forall_forall in Hfin.
  (* the summary's fields *)
  assert (Hs : exists infl ret,
             Deterministic.summarize inputs infl ret (timeline res)
             = Ok (summary res)).
  { unfold Deterministic.projectDeterministic in Hres. fold inputs in Hres.
    destruct (validateInputs inputs); [|discriminate]. cbn [bind] in Hres.
    destruct (growthRates _ _) as [ig eg].
    destruct (Deterministic.calculatePortfolioReturn _ _) as [ret|];
      [|discriminate].
    cbn [bind] in Hres.
    destruct (Deterministic.summarize _ _ _ _) as [s0|] eqn:E;
      [|discriminate].
    injection Hres as <-. cbn [timeline summary]. eauto. }
  destruct Hs as (infl & ret & Hs).
  destruct (summarize_fields _ _ _ _ _ Hs) as (Hcorpus & Hfinal & Hage & Hdep).
  fold s in Hcorpus, Hfinal, Hage, Hdep.
  rewrite (find_last_only _ _ Hmid) in Hage, Hdep.
  (* integer ages *)
  set (a := Qfloor (currentAge rawInputs + (1 # 2))).
  set (rt := Qfloor (retirementAge rawInputs + (1 # 2))).
  set (lf := Qfloor (lifeExpectancy rawInputs + (1 # 2))).
  assert (Ea : currentAge inputs = inject_Z a) by reflexivity.
  assert (Er : retirementAge inputs = inject_Z rt) by reflexivity.
  assert (El : lifeExpectancy inputs = inject_Z lf) by reflexivity.
  rewrite Ea, Er in Hret. rewrite Er, El in Hlife.
  rewrite <- Zlt_Qlt in Hret, Hlife.
  assert (Hk : Qfloor (retirementAge inputs - currentAge inputs)
               = (rt - a)%Z).
  { rewrite Ea, Er. unfold Qminus. rewrite <- inject_Z_opp, <- inject_Z_plus.
    apply Qfloor_Z. }
  assert (Hn : iterations (lifeExpectancy inputs - currentAge inputs)
               = Z.to_nat (lf - a)).
  { unfold iterations. rewrite Ea, El. unfold Qminus.
    rewrite <- inject_Z_opp, <- inject_Z_plus. now rewrite Qceiling_Z. }
  rewrite Hn in Hl.
  destruct (looped_reaches _ _ _ _ _ (Z.to_nat (rt - a)) _ _ _ _ Hl)
    as [yr Hyr]; [lia| |].
  { intros j Hj. apply isRetired_spec. rewrite Ea, Er, Z.add_0_l.
    rewrite <- inject_Z_plus, <- Zlt_Qlt. lia. }
  destruct (last (timeline res)) as [final|] eqn:Hlast.
  2:{ rewrite last_nth_error in Hlast. apply nth_error_None in Hlast.
      destruct (timeline res); [destruct (Z.to_nat (rt - a)); discriminate|].
      simpl in Hlast. lia. }
  exists final. split; [reflexivity|].
  assert (Hin : In final (timeline res)).
  { rewrite last_nth_error in Hlast. eapply nth_error_In, Hlast. }
  destruct (Hfin final Hin) as (q & Hq & _).
  split.
  { rewrite Hfinal. cbn [option_map]. rewrite Hq. apply or_num_finite. }
  split; [|split].
  - intros D. rewrite D in Hage, Hdep. split; [|exact Hage].
    apply Hdep. discriminate.
  - intros D. rewrite D in Hage, Hdep. split; [|exact Hage].
    intros E. apply Hdep in E. now apply E.
  - exists yr. rewrite Hk. split; [exact Hyr|].
    destruct (looped_nth _ _ _ _ _ _ _ _ _ _ _ Hl Hyr)
      as (_ & (rate & _ & Hrec) & _).
    assert (Hyage : age yr == retirementAge inputs).
    { rewrite Hrec. cbn [simulateYear age]. rewrite Ea, Er, Z.add_0_l.
      rewrite <- inject_Z_plus, Z2Nat.id by lia.
      apply inject_Z_injective. lia. }
    split; [exact Hyage|].
    rewrite Hcorpus.
    rewrite (find_at _ _ _ yr Hyr).
    + cbn [option_map].
      destruct (Hfin yr (nth_error_In _ _ Hyr)) as (q' & Hq' & _).
      rewrite Hq'. apply or_num_finite.
    + now apply Qeq_bool_iff.
    + intros j z Hj Hz.
      destruct (looped_nth _ _ _ _ _ _ _ _ _ _ _ Hl Hz)
        as (_ & (rate' & _ & Hrec') & _).
      rewrite Hrec'. cbn [simulateYear age]. rewrite Ea, Er, Z.add_0_l.
      apply not_true_iff_false. intros E. apply Qeq_bool_iff in E.
      rewrite <- inject_Z_plus in E.
      pose proof (proj1 (inject_Z_injective _ _) E). lia.
Qed.

Lemma summary_reads_the_timeline_witness :
  exists res,
    Deterministic.projectDeterministic Examples.earlyDepletion
      Assumptions.INDIA_2024_Q4 = Ok res
    /\ successMetric (summary res) = depletion
    /\ exists final,
        last (timeline res) = Some final
        /\ depletionAge (summary res) = Some (age final).
Proof.
  eexists. split; [vm_compute; reflexivity|].
  destruct (summary_reads_the_timeline Examples.earlyDepletion
              Assumptions.INDIA_2024_Q4 _ eq_refl)
    as (final & Hlast & _ & Hdep & _).
  pose proof Hlast as Hlast'. vm_compute in Hlast'.
  injection Hlast' as Hfinal.
  destruct Hdep as [Hm Ha]; [rewrite <- Hfinal; reflexivity|].
  split; [exact Hm|]. exists final. split; [exact Hlast|exact Ha].
Defined.

(** *** More savings *)

Lemma simulateYear_value inputs infl ig eg year (p r : Q) :
  let y := simulateYear inputs infl ig eg year (JS.Fin p) (JS.Fin r) in
  let balance := p + p * r + (contributions y - withdrawals y) in
  portfolioValue y = JS.Fin (if JS.Qltb balance 0 then 0 else balance).
Proof.
  cbv zeta. unfold simulateYear.
  cbn [portfolioValue contributions withdrawals JS.mul JS.add JS.lt].
  match goal with |- context [JS.Qltb ?x 0] => destruct (JS.Qltb x 0) end;
    reflexivity.
Qed.

Lemma clamp_monotone (a b : Q) :
  a <= b ->
  (if JS.Qltb a 0 then 0 else a) <= (if JS.Qltb b 0 then 0 else b).
Proof.
  intros Hab.
  destruct (JS.Qltb a 0) eqn:A; destruct (JS.Qltb b 0) eqn:B;
    try apply Qltb_lt in A; try apply Qltb_ge in A;
    try apply Qltb_lt in B; try apply Qltb_ge in B; lra.
Qed.

Lemma projectYears_monotone inputs inputs' infl ig eg r :
  (forall year p rate,
      simulateYear inputs' infl ig eg year p rate
      = simulateYear inputs infl ig eg year p rate) ->
  (forall year, isRetired inputs' year = isRetired inputs year) ->
  -1 <= r ->
  forall n year (p p' : Q),
    p <= p' ->
    let tl :=
      Deterministic.projectYears inputs infl ig eg r n year (JS.Fin p) in
    let tl' :=
      Deterministic.projectYears inputs' infl ig eg r n year (JS.Fin p') in
    (length tl <= length tl')%nat
    /\ forall i y y',
         nth_error tl i = Some y -> nth_error tl' i = Some y' ->
         exists q q',
           portfolioValue y = JS.Fin q /\ portfolioValue y' = JS.Fin q'
           /\ q <= q'.
Proof.
  intros Hsame Hret Hr. induction n as [|n IH]; intros year p p' Hp; cbv zeta.
  - split; [reflexivity|]. intros [|i] y y'; discriminate.
  - cbn [Deterministic.projectYears]. rewrite Hsame, Hret.
    set (y0 := simulateYear inputs infl ig eg year (JS.Fin p) (JS.Fin r)).
    set (y0' := simulateYear inputs infl ig eg year (JS.Fin p') (JS.Fin r)).
    pose proof (simulateYear_value inputs infl ig eg year p r) as Hv.
    pose proof (simulateYear_value inputs infl ig eg year p' r) as Hv'.
    cbv zeta in Hv, Hv'. fold y0 in Hv. fold y0' in Hv'.
    assert (Hnet : contributions y0' - withdrawals y0'
                   = contributions y0 - withdrawals y0) by reflexivity.
    rewrite Hnet in Hv'.
    set (net := contributions y0 - withdrawals y0) in *.
    set (q := if JS.Qltb (p + p * r + net) 0 then 0 else p + p * r + net)
      in *.
    set (q' := if JS.Qltb (p' + p' * r + net) 0 then 0
               else p' + p' * r + net) in *.
    assert (Hq : q <= q').
    { apply clamp_monotone.
      assert (p * (1 + r) <= p' * (1 + r))
        by (apply Qmult_le_compat_r; lra).
      lra. }
    assert (Hq0 : 0 <= q).
    { unfold q. destruct (JS.Qltb (p + p * r + net) 0) eqn:E;
        [lra|now apply Qltb_ge in E]. }
    rewrite Hv, Hv'. cbn [JS.eqb].
    destruct (isRetired inputs year); rewrite ?andb_false_r, ?andb_true_r.
    + destruct (Qeq_bool q' 0) eqn:E'.
      * apply Qeq_bool_iff in E'.
        assert (E : Qeq_bool q 0 = true) by (apply Qeq_bool_iff; lra).
        rewrite E. split; [reflexivity|].
        intros [|i] y y'; simpl; [|destruct i; discriminate].
        intros [= <-] [= <-]. now exists q, q'.
      * destruct (Qeq_bool q 0).
        -- split; [simpl; lia|].
           intros [|i] y y'; simpl; [|destruct i; discriminate].
           intros [= <-] [= <-]. now exists q, q'.
        -- destruct (IH (year + 1)%Z q q' Hq) as [Hlen Hnth].
           split; [simpl; lia|].
           intros [|i] y y'; simpl.
           ++ intros [= <-] [= <-]. now exists q, q'.
           ++ apply Hnth.
    + destruct (IH (year + 1)%Z q q' Hq) as [Hlen Hnth].
      split; [simpl; lia|].
      intros [|i] y y'; simpl.
      * intros [= <-] [= <-]. now exists q, q'.
      * apply Hnth.
Qed.

(** With an expected return of at least -100%, starting from more savings
    never leaves the deterministic projection with less: the timeline is
    at least as long, and year by year the portfolio value is at least as
    high. *)
Theorem more_savings_never_hurt
    (rawInputs : ProjectionInputs) (moreSavings : Q)
    (assumptions : Assumptions.MarketAssumptions)
    (res res' : ProjectionResult) (expectedReturn : Q) :
  currentSavings rawInputs <= moreSavings ->
  Deterministic.calculatePortfolioReturn (assetAllocation rawInputs)
    assumptions = Ok expectedReturn ->
  -1 <= expectedReturn ->
  Deterministic.projectDeterministic rawInputs assumptions = Ok res ->
  Deterministic.projectDeterministic
    (Examples.withSavings moreSavings rawInputs) assumptions = Ok res' ->
  (length (timeline res) <= length (timeline res'))%nat
  /\ forall i y y',
       nth_error (timeline res) i = Some y ->
       nth_error (timeline res') i = Some y' ->
       exists value value',
         portfolioValue y = JS.Fin value
         /\ portfolioValue y' = JS.Fin value'
         /\ value <= value'.
Proof.
  intros Hmore Hret Hr Hres Hres'.
  destruct (TimelineProps.projectDeterministic_Ok _ _ _ Hres)
    as (r1 & _ & Hr1 & ->).
  destruct (TimelineProps.projectDeterministic_Ok _ _ _ Hres')
    as (r2 & _ & Hr2 & ->).
  change (assetAllocation (sanitizeInputs rawInputs))
    with (assetAllocation rawInputs) in Hr1.
  change (assetAllocation
            (sanitizeInputs (Examples.withSavings moreSavings rawInputs)))
    with (assetAllocation rawInputs) in Hr2.
  assert (r1 = expectedReturn) by congruence.
  assert (r2 = expectedReturn) by congruence. subst r1 r2.
  apply (projectYears_monotone (sanitizeInputs rawInputs)
           (sanitizeInputs (Examples.withSavings moreSavings rawInputs)));
    [reflexivity|reflexivity|exact Hr|].
  cbn [sanitizeInputs Examples.withSavings currentSavings].
  apply Q.max_le_compat_l. exact Hmore.
Qed.

Lemma more_savings_never_hurt_witness :
  exists res res',
    Deterministic.projectDeterministic Examples.earlyDepletion
      Assumptions.INDIA_2024_Q4 = Ok res
    /\ Deterministic.projectDeterministic
         (Examples.withSavings 10000000 Examples.earlyDepletion)
         Assumptions.INDIA_2024_Q4 = Ok res'
    /\ length (timeline res) = 2%nat
    /\ length (timeline res') = 4%nat
    /\ (length (timeline res) <= length (timeline res'))%nat.
Proof.
  do 2 eexists. split; [vm_compute; reflexivity|].
  split; [vm_compute; reflexivity|].
  split; [reflexivity|]. split; [reflexivity|].
  refine (proj1 (more_savings_never_hurt Examples.earlyDepletion 10000000
                   Assumptions.INDIA_2024_Q4 _ _ _ _ _ _ _ _));
    [discriminate|vm_compute; reflexivity|discriminate
    |vm_compute; reflexivity|vm_compute; reflexivity].
Defined.

End ProjectorProps.

(** ** Monte Carlo runs *)

Module SimulationProps.
Import Exn Projection MonteCarlo Timelines JSFacts InputProps LoopProps
       ProjectorProps.

(** Whether a call returned, and whether numbers are finite: the two
    facts a run is evaluated for. *)
Definition returned {A} (r : result A) : bool :=
  match r with Ok _ => true | Throw _ => false end.

Definition isFin (v : JS.num) : bool :=
  match v with JS.Fin _ => true | _ => false end.

Lemma returned_Ok {A} (r : result A) :
  returned r = true -> exists a, r = Ok a.
Proof. destruct r as [a|e]; [now exists a|discriminate]. Qed.

Lemma finite_values (l : list JS.num) :
  forallb isFin l = true -> l = map JS.Fin (map JS.toQ l).
Proof.
  induction l as [|v l IH]; [reflexivity|]. simpl.
  intros Hall. apply andb_true_iff in Hall as [Hv Hl].
  destruct v; try discriminate. simpl. f_equal. now apply IH.
Qed.

Section Runs.
Context `{JSMath}.

(** *** The simulated paths *)

Lemma runSimulations_nth inputs assumptions config n :
  forall sim sims i s,
    runSimulations inputs assumptions config n sim = Ok sims ->
    nth_error sims i = Some s ->
    exists tl,
      runSingleSimulation inputs assumptions
        (baseSeed config + (sim + Z.of_nat i)) = Ok tl
      /\ s = simulationPath inputs (sim + Z.of_nat i) tl.
Proof.
  induction n as [|n IH]; intros sim sims i s; simpl.
  - intros [= <-]. destruct i; discriminate.
  - destruct (runSingleSimulation _ _ _) as [tl|] eqn:E; [|discriminate].
    cbn [bind].
    destruct (runSimulations _ _ _ n _) as [rest|] eqn:R; [|discriminate].
    cbn [bind]. intros [= <-]. destruct i as [|i]; simpl.
    + intros [= <-]. exists tl. now rewrite Z.add_0_r.
    + intros Hnth. destruct (IH _ _ _ _ R Hnth) as (tl' & Htl & ->).
      exists tl'. replace (sim + Z.of_nat (S i))%Z
        with (sim + 1 + Z.of_nat i)%Z by lia.
      now split.
Qed.

Lemma runSimulations_prefix inputs assumptions config k :
  forall n sim sims,
    runSimulations inputs assumptions config (n + k) sim = Ok sims ->
    runSimulations inputs assumptions config n sim = Ok (firstn n sims).
Proof.
  induction n as [|n IH]; intros sim sims; [reflexivity|].
  cbn [Nat.add runSimulations].
  destruct (runSingleSimulation _ _ _) as [tl|]; [|discriminate].
  cbn [bind].
  destruct (runSimulations _ _ _ (n + k) _) as [rest|] eqn:R;
    [|discriminate].
  cbn [bind]. intros [= <-]. now rewrite (IH _ _ R).
Qed.

Lemma runMonteCarlo_Ok raw assumptions config res :
  runMonteCarlo raw assumptions config = Ok res ->
  exists sims,
    validateInputs (sanitizeInputs raw) = Ok tt
    /\ runSimulations (sanitizeInputs raw) assumptions config
         (Z.to_nat (numSimulations config)) 0 = Ok sims
    /\ aggregateResults sims (sanitizeInputs raw) = Ok res.
Proof.
  unfold runMonteCarlo.
  destruct (validateInputs _) as [[]|]; [|discriminate]. cbn [bind].
  destruct (runSimulations _ _ _ _ _) as [sims|]; [|discriminate].
  cbn [bind]. intros Hagg. now exists sims.
Qed.

Lemma aggregateResults_values sims inputs res :
  aggregateResults sims inputs = Ok res ->
  values (terminalValueDistribution res) = map terminalValue sims.
Proof.
  intros Hagg.
  now destruct (MonteCarloProps.aggregateResults_Ok _ _ _ Hagg)
    as (_ & _ & _ & _ & _ & _ & Hv).
Qed.

(** The terminal values of a run are those of the paths seeded with the
    base seed plus the path's index, so a run with the same base seed and
    more simulations extends the sample: the terminal values of the
    shorter run are the first values of the longer one. *)
Theorem more_simulations_extend_the_sample
    (rawInputs : ProjectionInputs)
    (assumptions : Assumptions.MarketAssumptions)
    (few many : MonteCarloConfig) (resFew resMany : MonteCarloResult) :
  baseSeed few = baseSeed many ->
  (numSimulations few <= numSimulations many)%Z ->
  runMonteCarlo rawInputs assumptions few = Ok resFew ->
  runMonteCarlo rawInputs assumptions many = Ok resMany ->
  values (terminalValueDistribution resFew)
  = firstn (Z.to_nat (numSimulations few))
           (values (terminalValueDistribution resMany))
  /\ forall i v,
       nth_error (values (terminalValueDistribution resMany)) i = Some v ->
       exists tl,
         runSingleSimulation (sanitizeInputs rawInputs) assumptions
           (baseSeed many + Z.of_nat i) = Ok tl
         /\ v = JS.or_num (option_map portfolioValue (last tl)) (JS.Fin 0).
Proof.
  intros Hseed Hle Hfew Hmany.
  destruct (runMonteCarlo_Ok _ _ _ _ Hfew) as (s1 & _ & Hs1 & Ha1).
  destruct (runMonteCarlo_Ok _ _ _ _ Hmany) as (s2 & _ & Hs2 & Ha2).
  rewrite (aggregateResults_values _ _ _ Ha1),
    (aggregateResults_values _ _ _ Ha2).
  split.
  - set (n := Z.to_nat (numSimulations few)) in *.
    set (m := Z.to_nat (numSimulations many)) in *.
    assert (Hm : m = (n + (m - n))%nat) by lia.
    rewrite Hm in Hs2.
    apply runSimulations_prefix in Hs2.
    rewrite (MonteCarloProps.runSimulations_baseSeed _ _ few many n Hseed)
      in Hs1.
    rewrite Hs1 in Hs2. injection Hs2 as ->.
    now rewrite firstn_map.
  - intros i v Hnth. rewrite nth_error_map in Hnth.
    destruct (nth_error s2 i) as [s|] eqn:E; [|discriminate].
    injection Hnth as <-.
    destruct (runSimulations_nth _ _ _ _ _ _ _ _ Hs2 E) as (tl & Htl & ->).
    exists tl. rewrite Z.add_0_l in Htl. now split.
Qed.

End Runs.

Lemma more_simulations_extend_the_sample_witness :
  exists resFew resMany,
    @runMonteCarlo Examples.exampleMath Examples.household
      Assumptions.INDIA_2024_Q4 (Examples.mcConfig 1 None) = Ok resFew
    /\ @runMonteCarlo Examples.exampleMath Examples.household
         Assumptions.INDIA_2024_Q4 (Examples.mcConfig 2 (Some 42%Z))
       = Ok resMany
    /\ values (terminalValueDistribution resFew)
       = firstn 1 (values (terminalValueDistribution resMany)).
Proof.
  destruct (returned_Ok
              (@runMonteCarlo Examples.exampleMath Examples.household
                 Assumptions.INDIA_2024_Q4 (Examples.mcConfig 1 None)))
    as [resFew Hfew]; [vm_compute; reflexivity|].
  destruct (returned_Ok
              (@runMonteCarlo Examples.exampleMath Examples.household
                 Assumptions.INDIA_2024_Q4 (Examples.mcConfig 2 (Some 42%Z))))
    as [resMany Hmany]; [vm_compute; reflexivity|].
  exists resFew, resMany. split; [exact Hfew|]. split; [exact Hmany|].
  refine (proj1 (@more_simulations_extend_the_sample Examples.exampleMath
                   Examples.household Assumptions.INDIA_2024_Q4
                   (Examples.mcConfig 1 None)
                   (Examples.mcConfig 2 (Some 42%Z)) _ _ _ _ Hfew Hmany));
    [reflexivity|discriminate].
Defined.

(** *** Success probability *)

Definition succeeded (sim : SimulationPath) : bool :=
  match last (timeline sim) with
  | Some y => JS.lt (JS.Fin 0) (portfolioValue y)
  | None => false
  end.

Section Probability.
Context `{JSMath}.

Lemma aggregateResults_probability sims inputs res :
  aggregateResults sims inputs = Ok res ->
  sims <> []
  /\ successProbability res
     = inject_Z (Z.of_nat (length (List.filter succeeded sims)))
       / inject_Z (Z.of_nat (length sims))
  /\ probability (shortfallRisk res) = 1 - successProbability res.
Proof.
  intros Hagg.
  assert (Hne : sims <> []).
  { intros ->. unfold aggregateResults in Hagg. cbv zeta in Hagg.
    change (Statistics.sortBy byTerminalValue []) with (@nil SimulationPath)
      in Hagg.
    destruct (percentileIndex _ (50 # 100)); discriminate. }
  revert Hagg. unfold aggregateResults. cbv zeta. fold succeeded.
  set (sorted := Statistics.sortBy byTerminalValue sims).
  repeat match goal with
         | |- context [nth_error sorted ?i] =>
             destruct (nth_error sorted i); [|discriminate]
         end.
  cbn [bind].
  destruct (Statistics.percentile _ 50); [|discriminate]. cbn [bind].
  destruct (nth_error sorted _); [|discriminate]. cbn [bind].
  intros [= <-]. cbn [successProbability shortfallRisk probability].
  now repeat split.
Qed.

Lemma terminalValue_positive inputs sim tl :
  JS.lt (JS.Fin 0) (terminalValue (simulationPath inputs sim tl))
  = succeeded (simulationPath inputs sim tl).
Proof.
  unfold succeeded, simulationPath. cbn [terminalValue timeline].
  destruct (last tl) as [y|]; [|reflexivity]. cbn [option_map].
  unfold JS.or_num, JS.truthy.
  destruct (portfolioValue y) as [q| | |]; try reflexivity.
  destruct (Qeq_bool q 0) eqn:E; [|reflexivity].
  cbn [negb JS.lt]. apply Qeq_bool_iff in E.
  change (JS.Qltb 0 0) with false. symmetry. apply Qltb_ge. lra.
Qed.

Lemma filter_length_map {A B} (f : A -> bool) (g : B -> bool)
    (h : A -> B) (l : list A) :
  (forall x, In x l -> f x = g (h x)) ->
  length (List.filter f l) = length (List.filter g (map h l)).
Proof.
  induction l as [|x l IH]; intros Hfg; [reflexivity|]. simpl.
  rewrite <- (Hfg x (or_introl eq_refl)).
  destruct (f x); simpl; rewrite IH; auto; intros; apply Hfg; now right.
Qed.

Lemma filter_length_le {A} (f : A -> bool) (l : list A) :
  (length (List.filter f l) <= length l)%nat.
Proof.
  induction l as [|x l IH]; [reflexivity|]. simpl.
  destruct (f x); simpl; lia.
Qed.

(** The success probability of a run is the fraction of its terminal
    values that are greater than zero, a number from 0 to 1, and the
    shortfall probability is its complement. *)
Theorem success_probability_is_a_fraction
    (rawInputs : ProjectionInputs)
    (assumptions : Assumptions.MarketAssumptions)
    (config : MonteCarloConfig) (res : MonteCarloResult) :
  runMonteCarlo rawInputs assumptions config = Ok res ->
  let v := values (terminalValueDistribution res) in
  let positive := List.filter (fun x => JS.lt (JS.Fin 0) x) v in
  length v = Z.to_nat (numSimulations config)
  /\ (1 <= length v)%nat
  /\ successProbability res
     = inject_Z (Z.of_nat (length positive)) / inject_Z (Z.of_nat (length v))
  /\ 0 <= successProbability res <= 1
  /\ probability (shortfallRisk res) = 1 - successProbability res
  /\ 0 <= probability (shortfallRisk res) <= 1.
Proof.
  intros Hrun v positive.
  destruct (runMonteCarlo_Ok _ _ _ _ Hrun) as (sims & _ & Hsims & Hagg).
  destruct (aggregateResults_probability _ _ _ Hagg) as (Hne & Hp & Hq).
  pose proof (aggregateResults_values _ _ _ Hagg) as Hv. fold v in Hv.
  pose proof (MonteCarloProps.runSimulations_length _ _ _ _ _ _ Hsims)
    as Hlen.
  assert (Hvl : length v = length sims) by (rewrite Hv; apply length_map).
  assert (Hpos : (1 <= length sims)%nat)
    by (destruct sims; [contradiction|simpl; lia]).
  assert (Hcount : length (List.filter succeeded sims) = length positive).
  { unfold positive. rewrite Hv. apply filter_length_map.
    intros s Hs. apply In_nth_error in Hs as [i Hi].
    destruct (runSimulations_nth _ _ _ _ _ _ _ _ Hsims Hi) as (tl & _ & ->).
    symmetry. apply terminalValue_positive. }
  assert (Hfrac : 0 <= successProbability res <= 1).
  { rewrite Hp.
    assert (Hn : 0 < inject_Z (Z.of_nat (length sims))).
    { change 0 with (inject_Z 0). rewrite <- Zlt_Qlt. lia. }
    pose proof (filter_length_le succeeded sims) as Hle.
    assert (H0 : 0 <= inject_Z (Z.of_nat (length (List.filter succeeded sims)))).
    { change 0 with (inject_Z 0). rewrite <- Zle_Qle. lia. }
    assert (H1 : inject_Z (Z.of_nat (length (List.filter succeeded sims)))
                 <= inject_Z (Z.of_nat (length sims))).
    { rewrite <- Zle_Qle. lia. }
    split; [apply Qle_shift_div_l|apply Qle_shift_div_r]; lra. }
  split; [lia|]. split; [lia|].
  split; [now rewrite Hp, Hcount, Hvl|].
  split; [exact Hfrac|]. split; [exact Hq|]. rewrite Hq. lra.
Qed.

End Probability.

Lemma success_probability_is_a_fraction_witness :
  exists res,
    @runMonteCarlo Examples.exampleMath Examples.household
      Assumptions.INDIA_2024_Q4 (Examples.mcConfig 2 None) = Ok res
    /\ length (values (terminalValueDistribution res)) = 2%nat
    /\ 0 <= successProbability res <= 1.
Proof.
  destruct (returned_Ok
              (@runMonteCarlo Examples.exampleMath Examples.household
                 Assumptions.INDIA_2024_Q4 (Examples.mcConfig 2 None)))
    as [res Hrun]; [vm_compute; reflexivity|].
  exists res. split; [exact Hrun|].
  destruct (@success_probability_is_a_fraction Examples.exampleMath
              Examples.household Assumptions.INDIA_2024_Q4
              (Examples.mcConfig 2 None) _ Hrun)
    as (Hlen & _ & _ & Hfrac & _).
  split; [exact Hlen|exact Hfrac].
Defined.

(** *** Errors *)

Section Errors.
Context `{JSMath}.

Lemma sampleReturn_unknown assumptions before a w rest :
  known assumptions before ->
  Assumptions.assetClasses assumptions !! a = None ->
  forall rng acc,
    sampleReturn rng acc
      (map (fun '(assetId, weight) =>
              (weight / 100,
               Assumptions.assetClasses assumptions !! assetId))
           (before ++ (a, w) :: rest))
    = Throw (TypeError "Cannot read properties of undefined").
Proof.
  induction before as [|[a' w'] l IH]; intros Hk Ha rng acc;
    cbn [app map sampleReturn].
  - now rewrite Ha.
  - inversion Hk as [|? ? Ha' Hrest]; subst. simpl in Ha'.
    destruct (Assumptions.assetClasses assumptions !! a');
      [|contradiction].
    destruct (Random.normalWithParams _ _ _) as [z rng'].
    now apply IH.
Qed.

(** [runMonteCarlo] throws what [validateInputs] throws on the sanitized
    inputs.  When they pass, a simulation count of zero or less raises a
    [TypeError] (the percentile paths are read from an empty array), and
    so does an allocation that names an asset missing from the bundle,
    where the deterministic projector raises its own "Unknown asset"
    error. *)
Theorem runMonteCarlo_throws
    (rawInputs : ProjectionInputs)
    (assumptions : Assumptions.MarketAssumptions)
    (config : MonteCarloConfig) :
  (forall e, validateInputs (sanitizeInputs rawInputs) = Throw e ->
             runMonteCarlo rawInputs assumptions config = Throw e)
  /\ (validateInputs (sanitizeInputs rawInputs) = Ok tt ->
      ((numSimulations config <= 0)%Z
       \/ exists a, firstUnknown assumptions (assetAllocation rawInputs) a) ->
      exists message,
        runMonteCarlo rawInputs assumptions config
        = Throw (TypeError message)).
Proof.
  unfold runMonteCarlo. split.
  - intros e ->. reflexivity.
  - intros Hvalid Hcase. rewrite Hvalid. cbn [bind]. eexists.
    destruct (Z.to_nat (numSimulations config)) as [|n] eqn:En.
    + (* no path: the sorted array is empty *)
      cbn [runSimulations bind]. unfold aggregateResults. cbv zeta.
      change (Statistics.sortBy byTerminalValue []) with (@nil SimulationPath).
      destruct (percentileIndex _ (50 # 100)); reflexivity.
    + destruct Hcase as [Hzero|(a & before & w & rest & Halloc & Hk & Ha)];
        [lia|].
      cbn [runSimulations]. unfold runSingleSimulation.
      destruct (growthRates _ _) as [ig eg].
      change (assetAllocation (sanitizeInputs rawInputs))
        with (assetAllocation rawInputs).
      rewrite Halloc.
      apply validateInputs_Ok_iff in Hvalid.
      destruct Hvalid as ((H18 & _) & Hret & Hlife & _).
      assert (Hpos : (0 < iterations
                           (lifeExpectancy (sanitizeInputs rawInputs)
                            - currentAge (sanitizeInputs rawInputs)))%nat).
      { unfold iterations.
        assert (0 < Qceiling (lifeExpectancy (sanitizeInputs rawInputs)
                              - currentAge (sanitizeInputs rawInputs)))%Z;
          [|lia].
        rewrite Zlt_Qlt. eapply Qlt_le_trans; [|apply Qle_ceiling].
        change (inject_Z 0) with 0. lra. }
      destruct (iterations _) as [|m]; [lia|].
      cbn [simulateYears].
      rewrite (sampleReturn_unknown _ _ _ _ _ Hk Ha). reflexivity.
Qed.

End Errors.

Lemma runMonteCarlo_throws_witness :
  exists message,
    @runMonteCarlo Examples.exampleMath Examples.household
      Assumptions.INDIA_2024_Q4 (Examples.mcConfig 0 None)
    = Throw (TypeError message).
Proof.
  apply (@runMonteCarlo_throws Examples.exampleMath).
  - reflexivity.
  - left. discriminate.
Defined.

(** *** Percentile paths *)

(** The terminal value of a timeline, as [runMonteCarlo] reads it. *)
Definition terminalOf (tl : list YearlyProjection) : JS.num :=
  JS.or_num (option_map portfolioValue (last tl)) (JS.Fin 0).

Section Paths.
Context `{JSMath}.

Lemma aggregateResults_paths sims inputs res :
  aggregateResults sims inputs = Ok res ->
  let sorted := Statistics.sortBy byTerminalValue sims in
  let at_ p := nth_error sorted (percentileIndex (length sims) p) in
  exists s0 s10 s25 s50 s75 s90,
    at_ 0 = Some s0 /\ at_ (10 # 100) = Some s10
    /\ at_ (25 # 100) = Some s25 /\ at_ (50 # 100) = Some s50
    /\ at_ (75 # 100) = Some s75 /\ at_ (90 # 100) = Some s90
    /\ worstCase (shortfallRisk res) = terminalValue s0
    /\ medianOutcome res = terminalValue s50
    /\ percentiles res
       = {| p10 := timeline s10; p25 := timeline s25; p50 := timeline s50;
            p75 := timeline s75; p90 := timeline s90 |}.
Proof.
  unfold aggregateResults. cbv zeta.
  set (sorted := Statistics.sortBy byTerminalValue sims).
  destruct (nth_error sorted (percentileIndex _ (50 # 100))) as [s50|];
    [|discriminate].
  cbn [bind].
  destruct (nth_error sorted (percentileIndex _ (10 # 100))) as [s10|];
    [|discriminate].
  cbn [bind].
  destruct (nth_error sorted (percentileIndex _ (25 # 100))) as [s25|];
    [|discriminate].
  cbn [bind].
  destruct (nth_error sorted (percentileIndex _ (75 # 100))) as [s75|];
    [|discriminate].
  cbn [bind].
  destruct (nth_error sorted (percentileIndex _ (90 # 100))) as [s90|];
    [|discriminate].
  cbn [bind].
  destruct (Statistics.percentile _ 50); [|discriminate]. cbn [bind].
  destruct (nth_error sorted (percentileIndex _ 0)) as [s0|];
    [|discriminate].
  cbn [bind]. intros [= <-].
  exists s0, s10, s25, s50, s75, s90. now repeat split.
Qed.

Lemma percentileIndex_monotone n p q :
  0 <= p -> p <= q -> (percentileIndex n p <= percentileIndex n q)%nat.
Proof.
  intros Hp Hpq. unfold percentileIndex.
  apply Z2Nat.inj_le.
  - change 0%Z with (Qfloor 0). apply Qfloor_resp_le.
    apply Qmult_le_0_compat; [|exact Hp].
    change 0 with (inject_Z 0). rewrite <- Zle_Qle. lia.
  - change 0%Z with (Qfloor 0). apply Qfloor_resp_le.
    apply Qmult_le_0_compat; [|lra].
    change 0 with (inject_Z 0). rewrite <- Zle_Qle. lia.
  - apply Qfloor_resp_le.
    rewrite (Qmult_comm _ p), (Qmult_comm _ q).
    apply Qmult_le_compat_r; [exact Hpq|].
    change 0 with (inject_Z 0). rewrite <- Zle_Qle. lia.
Qed.

Lemma simulateYears_nonempty inputs infl ig eg params n :
  forall year rng portfolio tl,
    MonteCarlo.simulateYears inputs infl ig eg params (S n) year rng portfolio
    = Ok tl ->
    tl <> [].
Proof.
  intros year rng portfolio tl. cbn [simulateYears].
  destruct (sampleReturn _ _ _) as [[ret rng']|]; [|discriminate].
  cbn [bind]. destruct (_ && _); [now intros [= <-]|].
  destruct (simulateYears _ _ _ _ _ _ _ _ _); [|discriminate].
  cbn [bind]. now intros [= <-].
Qed.

(** The five percentile paths of a run are timelines of simulated paths of
    the run, none of them empty.  When the terminal values are finite
    numbers, the worst case is the least of them and the paths are ordered
    by the value they end on: worst case, then p10, p25, p50 (whose end is
    the median outcome), p75 and p90. *)
Theorem percentile_paths_are_ordered
    (rawInputs : ProjectionInputs)
    (assumptions : Assumptions.MarketAssumptions)
    (config : MonteCarloConfig) (res : MonteCarloResult) :
  runMonteCarlo rawInputs assumptions config = Ok res ->
  let paths := percentiles res in
  List.Forall
    (fun tl => tl <> []
               /\ Produced assumptions (sanitizeInputs rawInputs) tl
               /\ In (terminalOf tl) (values (terminalValueDistribution res)))
    [p10 paths; p25 paths; p50 paths; p75 paths; p90 paths]
  /\ medianOutcome res = terminalOf (p50 paths)
  /\ forall qs : list Q,
       values (terminalValueDistribution res) = map JS.Fin qs ->
       exists w t10 t25 t50 t75 t90,
         worstCase (shortfallRisk res) = JS.Fin w
         /\ terminalOf (p10 paths) = JS.Fin t10
         /\ terminalOf (p25 paths) = JS.Fin t25
         /\ terminalOf (p50 paths) = JS.Fin t50
         /\ terminalOf (p75 paths) = JS.Fin t75
         /\ terminalOf (p90 paths) = JS.Fin t90
         /\ StatisticsProps.least w qs
         /\ w <= t10 /\ t10 <= t25 /\ t25 <= t50 /\ t50 <= t75 /\ t75 <= t90.
Proof.
  intros Hrun paths.
  destruct (runMonteCarlo_Ok _ _ _ _ Hrun) as (sims & Hvalid & Hsims & Hagg).
  pose proof (aggregateResults_values _ _ _ Hagg) as Hv.
  destruct (aggregateResults_paths _ _ _ Hagg)
    as (s0 & s10 & s25 & s50 & s75 & s90
        & H0 & H10 & H25 & H50 & H75 & H90 & Hworst & Hmed & Hpaths).
  cbv zeta in *. unfold paths. rewrite Hpaths. cbn [p10 p25 p50 p75 p90].
  set (sorted := Statistics.sortBy byTerminalValue sims) in *.
  set (inputs := sanitizeInputs rawInputs) in *.
  (* every sorted path is a simulated path *)
  assert (Hpath : forall i s, nth_error sorted i = Some s ->
            exists k tl,
              runSingleSimulation inputs assumptions k = Ok tl
              /\ s = simulationPath inputs (k - baseSeed config) tl
              /\ In s sims).
  { intros i s Hi.
    assert (Hin : In s sims).
    { eapply Permutation_in; [apply StatisticsProps.sortBy_perm|].
      eapply nth_error_In, Hi. }
    destruct (In_nth_error _ _ Hin) as [j Hj].
    destruct (runSimulations_nth _ _ _ _ _ _ _ _ Hsims Hj) as (tl & Htl & ->).
    exists (baseSeed config + (0 + Z.of_nat j))%Z, tl.
    split; [exact Htl|]. split; [f_equal; lia|exact Hin]. }
  assert (Hiter : exists m,
            iterations (lifeExpectancy inputs - currentAge inputs) = S m).
  { apply validateInputs_Ok_iff in Hvalid.
    destruct Hvalid as ((H18 & _) & Hret & Hlife & _).
    destruct (iterations _) as [|m] eqn:E; [|now exists m].
    unfold iterations in E.
    assert (0 < Qceiling (lifeExpectancy inputs - currentAge inputs))%Z;
      [|lia].
    rewrite Zlt_Qlt. eapply Qlt_le_trans; [|apply Qle_ceiling].
    change (inject_Z 0) with 0. lra. }
  assert (Hgood : forall i s, nth_error sorted i = Some s ->
            timeline s <> []
            /\ Produced assumptions inputs (timeline s)
            /\ In (terminalOf (timeline s))
                  (values (terminalValueDistribution res))
            /\ terminalValue s = terminalOf (timeline s)).
  { intros i s Hi. destruct (Hpath i s Hi) as (k & tl & Htl & -> & Hin).
    cbn [simulationPath timeline terminalValue]. split; [|split; [|split]].
    - destruct Hiter as [m Hm]. unfold runSingleSimulation in Htl.
      destruct (growthRates _ _) as [ig eg]. rewrite Hm in Htl.
      eapply simulateYears_nonempty, Htl.
    - eapply monte_carlo_timeline, Htl.
    - rewrite Hv. apply (in_map terminalValue) in Hin. exact Hin.
    - reflexivity. }
  split; [|split].
  - repeat constructor;
      match goal with
      | |- timeline ?s <> [] =>
          match goal with
          | Hs : nth_error sorted _ = Some s |- _ =>
              apply (Hgood _ _ Hs)
          end
      | |- Produced _ _ (timeline ?s) =>
          match goal with
          | Hs : nth_error sorted _ = Some s |- _ =>
              apply (Hgood _ _ Hs)
          end
      | |- In (terminalOf (timeline ?s)) _ =>
          match goal with
          | Hs : nth_error sorted _ = Some s |- _ =>
              apply (Hgood _ _ Hs)
          end
      end.
  - rewrite Hmed. apply (Hgood _ _ H50).
  - intros qs Hqs.
    assert (Hkeys : map terminalValue sorted
                    = map JS.Fin (StatisticsProps.sortQ qs)).
    { unfold sorted.
      rewrite (StatisticsProps.map_sortBy terminalValue), <- Hv, Hqs.
      apply StatisticsProps.sortNumbers_finite. }
    assert (Hlen : length (StatisticsProps.sortQ qs) = length sims).
    { rewrite StatisticsProps.sortQ_length.
      apply (f_equal (@length JS.num)) in Hqs.
      rewrite Hv, !length_map in Hqs. now symmetry. }
    assert (Hval : forall i s, nth_error sorted i = Some s ->
              terminalValue s
              = JS.Fin (nth i (StatisticsProps.sortQ qs) 0)
              /\ (i < length sims)%nat).
    { intros i s Hi.
      assert (Hlt : (i < length sorted)%nat)
        by (apply nth_error_Some; congruence).
      assert (Hm : nth_error (map terminalValue sorted) i
                   = Some (terminalValue s))
        by (rewrite nth_error_map, Hi; reflexivity).
      rewrite Hkeys, nth_error_map in Hm.
      unfold sorted in Hlt. rewrite StatisticsProps.sortBy_length in Hlt.
      split; [|exact Hlt].
      destruct (nth_error (StatisticsProps.sortQ qs) i) as [q|] eqn:E;
        [|discriminate].
      injection Hm as <-. f_equal. symmetry.
      now apply nth_error_nth. }
    pose proof (StatisticsProps.sortQ_sorted qs) as Hsorted.
    assert (Hstep : forall i j s s', nth_error sorted i = Some s ->
              nth_error sorted j = Some s' -> (i <= j)%nat ->
              nth i (StatisticsProps.sortQ qs) 0
              <= nth j (StatisticsProps.sortQ qs) 0).
    { intros i j s s' Hi Hj Hij.
      apply StatisticsProps.sorted_nth; [exact Hsorted|].
      destruct (Hval _ _ Hj). lia. }
    set (n := length sims) in *.
    do 6 eexists.
    rewrite Hworst, (proj1 (Hval _ _ H0)).
    rewrite <- (proj2 (proj2 (proj2 (Hgood _ _ H10)))), (proj1 (Hval _ _ H10)).
    rewrite <- (proj2 (proj2 (proj2 (Hgood _ _ H25)))), (proj1 (Hval _ _ H25)).
    rewrite <- (proj2 (proj2 (proj2 (Hgood _ _ H50)))), (proj1 (Hval _ _ H50)).
    rewrite <- (proj2 (proj2 (proj2 (Hgood _ _ H75)))), (proj1 (Hval _ _ H75)).
    rewrite <- (proj2 (proj2 (proj2 (Hgood _ _ H90)))), (proj1 (Hval _ _ H90)).
    repeat (split; [reflexivity|]).
    split.
    { assert (E0 : percentileIndex n 0 = O).
      { unfold percentileIndex. rewrite Qmult_0_r. reflexivity. }
      rewrite E0. apply StatisticsProps.sorted_first_least.
      intros ->. destruct (Hval _ _ H0) as [_ Hlt]. unfold n in Hlt.
      apply (f_equal (@length JS.num)) in Hqs.
      rewrite Hv, length_map in Hqs. simpl in Hqs. lia. }
    repeat split;
      match goal with
      | |- nth (percentileIndex n ?p) _ _ <= nth (percentileIndex n ?q) _ _ =>
          eapply Hstep; [eassumption|eassumption|];
          apply percentileIndex_monotone; [discriminate|discriminate]
      end.
Qed.

End Paths.

Lemma percentile_paths_are_ordered_witness :
  exists res,
    @runMonteCarlo Examples.exampleMath Examples.household
      Assumptions.INDIA_2024_Q4 (Examples.mcConfig 2 None) = Ok res
    /\ medianOutcome res = terminalOf (p50 (percentiles res))
    /\ exists w t10 t90,
        worstCase (shortfallRisk res) = JS.Fin w
        /\ terminalOf (p10 (percentiles res)) = JS.Fin t10
        /\ terminalOf (p90 (percentiles res)) = JS.Fin t90
        /\ w <= t10 /\ t10 <= t90.
Proof.
  assert (Hfin : match @runMonteCarlo Examples.exampleMath Examples.household
                         Assumptions.INDIA_2024_Q4 (Examples.mcConfig 2 None)
                 with
                 | Ok r => forallb isFin (values (terminalValueDistribution r))
                 | Throw _ => false
                 end = true) by (vm_compute; reflexivity).
  destruct (@runMonteCarlo Examples.exampleMath Examples.household
              Assumptions.INDIA_2024_Q4 (Examples.mcConfig 2 None))
    as [res|e] eqn:Hrun; [|discriminate].
  exists res. split; [reflexivity|].
  destruct (@percentile_paths_are_ordered Examples.exampleMath
              Examples.household Assumptions.INDIA_2024_Q4
              (Examples.mcConfig 2 None) res Hrun)
    as (_ & Hmed & Hord).
  destruct (Hord _ (finite_values _ Hfin))
    as (w & t10 & t25 & t50 & t75 & t90
        & Hw & H10 & _ & _ & _ & H90 & _ & L1 & L2 & L3 & L4 & L5).
  split; [exact Hmed|]. exists w, t10, t90.
  repeat (split; [assumption|]). lra.
Defined.

(** *** Shortfall *)

Section Shortfall.
Context `{JSMath}.

Lemma aggregateResults_shortfall sims inputs res :
  aggregateResults sims inputs = Ok res ->
  averageShortfall (shortfallRisk res)
  = match List.filter (fun sim => match depletedAt sim with
                                  | Some _ => true
                                  | None => false
                                  end) sims with
    | [] => JS.Fin 0
    | failed => Statistics.mean (map shortfallOf failed)
    end.
Proof.
  unfold aggregateResults. cbv zeta.
  set (sorted := Statistics.sortBy byTerminalValue sims).
  repeat match goal with
         | |- context [nth_error sorted ?i] =>
             destruct (nth_error sorted i); [|discriminate]
         end.
  cbn [bind].
  destruct (Statistics.percentile _ 50); [|discriminate]. cbn [bind].
  destruct (nth_error sorted _); [|discriminate]. cbn [bind].
  intros [= <-]. cbn [shortfallRisk averageShortfall].
  destruct (List.filter _ sims); reflexivity.
Qed.

Definition isZero (v : JS.num) : Prop := exists q, v = JS.Fin q /\ q == 0.

Lemma sum_of_zeros l :
  List.Forall isZero l ->
  forall a, a == 0 ->
    exists s, fold_left JS.add l (JS.Fin a) = JS.Fin s /\ s == 0.
Proof.
  induction 1 as [|v l (q & -> & Hq) _ IH]; intros a Ha; simpl.
  - now exists a.
  - apply IH. lra.
Qed.

Lemma mean_of_zeros l :
  List.Forall isZero l -> JS.same (Statistics.mean l) (JS.Fin 0).
Proof.
  intros Hl. destruct l as [|v l]; [reflexivity|].
  unfold Statistics.mean, Statistics.sum.
  destruct (sum_of_zeros _ Hl 0) as (s & -> & Hs); [reflexivity|].
  cbn [JS.div]. unfold JS.qdiv.
  pose proof (DescriptiveProps.len_positive v l) as Hpos.
  destruct (Qeq_bool (Statistics.len (v :: l)) 0) eqn:Z.
  { apply Qeq_bool_iff in Z. lra. }
  cbn [JS.same]. rewrite Hs. field. lra.
Qed.

(** The shortfall of a path that was depleted: the portfolio value of the
    year it was depleted in, which is zero. *)
Lemma shortfallOf_depleted assumptions inputs seed tl sim d :
  runSingleSimulation inputs assumptions seed = Ok tl ->
  depletedAt (simulationPath inputs sim tl) = Some d ->
  isZero (shortfallOf (simulationPath inputs sim tl)).
Proof.
  intros Htl. unfold shortfallOf, simulationPath.
  cbn [depletedAt timeline].
  destruct (find (Deterministic.depleted inputs) tl) as [yd|] eqn:F;
    [|discriminate].
  cbn [option_map]. intros [= <-].
  destruct (find_some _ _ F) as [Hin Hdep].
  destruct (In_nth_error _ _ Hin) as [k Hk].
  pose proof (produced_looped _ _ _ (monte_carlo_timeline _ _ _ _ Htl)) as Hl.
  assert (Hyear : forall j z, nth_error tl j = Some z -> year z = Z.of_nat j).
  { intros j z Hz.
    destruct (looped_nth _ _ _ _ _ _ _ _ _ _ _ Hl Hz)
      as (_ & (rate & _ & ->) & _).
    cbn [simulateYear year]. lia. }
  rewrite (find_at _ tl k yd Hk).
  - unfold Deterministic.depleted in Hdep.
    apply andb_true_iff in Hdep as [Hzero _].
    destruct (portfolioValue yd) as [q| | |]; try discriminate.
    cbn [JS.eqb] in Hzero. apply Qeq_bool_iff in Hzero.
    exists (Qabs q). split; [reflexivity|]. rewrite Hzero. reflexivity.
  - apply Z.eqb_refl.
  - intros j z Hj Hz. rewrite (Hyear _ _ Hz), (Hyear _ _ Hk).
    apply Z.eqb_neq. lia.
Qed.

(** The average shortfall a run reports is always zero: the shortfall of
    a depleted path is read from the year it was depleted in, and that is
    a year whose portfolio value is zero. *)
Theorem average_shortfall_is_zero
    (rawInputs : ProjectionInputs)
    (assumptions : Assumptions.MarketAssumptions)
    (config : MonteCarloConfig) (res : MonteCarloResult) :
  runMonteCarlo rawInputs assumptions config = Ok res ->
  JS.same (averageShortfall (shortfallRisk res)) (JS.Fin 0).
Proof.
  intros Hrun.
  destruct (runMonteCarlo_Ok _ _ _ _ Hrun) as (sims & _ & Hsims & Hagg).
  rewrite (aggregateResults_shortfall _ _ _ Hagg).
  set (failed := List.filter _ sims).
  assert (Hall : List.Forall isZero (map shortfallOf failed)).
  { apply List.Forall_forall. intros v Hv.
    apply in_map_iff in Hv as (s & <- & Hs).
    apply filter_In in Hs as [Hin Hd].
    destruct (In_nth_error _ _ Hin) as [i Hi].
    destruct (runSimulations_nth _ _ _ _ _ _ _ _ Hsims Hi) as (tl & Htl & ->).
    destruct (depletedAt (simulationPath _ _ tl)) as [d|] eqn:D;
      [|discriminate].
    eapply shortfallOf_depleted; eassumption. }
  destruct failed; [reflexivity|]. now apply mean_of_zeros.
Qed.

End Shortfall.

Lemma average_shortfall_is_zero_witness :
  exists res,
    @runMonteCarlo Examples.exampleMath Examples.earlyDepletion
      Assumptions.INDIA_2024_Q4 (Examples.mcConfig 1 None) = Ok res
    /\ Qeq_bool (probability (shortfallRisk res)) 1 = true
    /\ JS.same (averageShortfall (shortfallRisk res)) (JS.Fin 0).
Proof.
  assert (Hfails : match @runMonteCarlo Examples.exampleMath
                           Examples.earlyDepletion Assumptions.INDIA_2024_Q4
                           (Examples.mcConfig 1 None)
                   with
                   | Ok r => Qeq_bool (probability (shortfallRisk r)) 1
                   | Throw _ => false
                   end = true) by (vm_compute; reflexivity).
  destruct (@runMonteCarlo Examples.exampleMath Examples.earlyDepletion
              Assumptions.INDIA_2024_Q4 (Examples.mcConfig 1 None))
    as [res|e] eqn:Hrun; [|discriminate].
  exists res. split; [reflexivity|]. split; [exact Hfails|].
  exact (@average_shortfall_is_zero Examples.exampleMath _ _ _ _ Hrun).
Defined.

End SimulationProps.

(** ** Rebalancer: the drift functions and the trade list *)

Module TradeProps.
Import Rebalancing JSFacts RebalancingProps.








Lemma tradeFor_spec (h : Portfolio) (t : JS.obj Q) T M a d tr :
  In tr (tradeFor h t T M (a, d)) ->
  asset tr = a
  /\ 1 < Qabs d
  /\ targetValue tr = default 0 (JS.get t a) / 100 * T
  /\ currentValue tr = JS.or (JS.get h a) 0
  /\ amount tr = Qabs (targetValue tr - currentValue tr)
  /\ M <= amount tr
  /\ (action tr = BUY <-> currentValue tr < targetValue tr).
Proof.
  unfold tradeFor. destruct (JS.Qltb 1 (Qabs d)) eqn:D; [|intros []].
  apply Qltb_lt in D.
  match goal with |- context [Qle_bool M ?x] =>
    destruct (Qle_bool M x) eqn:E end; [|intros []].
  apply Qle_bool_iff in E.
  intros [<-|[]]. cbn [asset targetValue currentValue amount action].
  repeat (split; [assumption || reflexivity|]).
  match goal with |- context [JS.Qltb 0 ?x] =>
    destruct (JS.Qltb 0 x) eqn:S end.
  - apply Qltb_lt in S. split; [intros _; lra|reflexivity].
  - apply Qltb_ge in S. split; [discriminate|intros F; lra].
Qed.

(** Every trade the rebalancer emits is for a target asset whose drift
    exceeds one percentage point, moves the holding to the target share of
    the portfolio's total value, is worth at least the minimum trade
    amount, and buys exactly when the holding is below that target value;
    there is at most one trade per target asset; assets held but absent
    from the target are never traded; and a result that says no
    rebalancing is needed carries no trade and no cost. *)
Theorem emitted_trades_are_significant
    (holdings : Portfolio) (target : JS.obj Q)
    (assumptions : Assumptions.MarketAssumptions)
    (config : RebalancingConfig) :
  let r := generateRebalancingTrades holdings target assumptions config in
  let total := totalValueOf holdings in
  (needsRebalancing r = false ->
   trades r = [] /\ estimatedCost r = 0 /\ impactOnReturn r = 0)
  /\ (List.NoDup (JS.keys target) -> List.NoDup (map asset (trades r)))
  /\ forall tr, In tr (trades r) ->
       In (asset tr) (JS.keys target)
       /\ (exists drift, In (asset tr, drift) (drifts r) /\ 1 < Qabs drift)
       /\ targetValue tr
          = default 0 (JS.get target (asset tr)) / 100 * total
       /\ currentValue tr = JS.or (JS.get holdings (asset tr)) 0
       /\ amount tr = Qabs (targetValue tr - currentValue tr)
       /\ minimumTrade config <= amount tr
       /\ (action tr = BUY <-> currentValue tr < targetValue tr).
Proof.
  cbv zeta. unfold generateRebalancingTrades.
  destruct (Qeq_bool (totalValueOf holdings) 0).
  { cbn. repeat split; try constructor; contradiction. }
  destruct (JS.lt _ _).
  { cbn. repeat split; try constructor; contradiction. }
  cbn [needsRebalancing trades drifts estimatedCost impactOnReturn].
  split; [discriminate|]. split.
  - intros Hnd. apply trades_NoDup. now rewrite driftsOf_keys.
  - intros tr Hin. apply in_flat_map in Hin as ([a d] & Hd & Htr).
    destruct (tradeFor_spec _ _ _ _ _ _ _ Htr)
      as (Ha & H1 & Ht & Hc & Hamt & Hmin & Hbuy).
    subst a. split.
    { rewrite <- (driftsOf_keys
                    (map (fun '(a, value) =>
                            (a, value / totalValueOf holdings * 100))
                         holdings) target).
      apply (in_map fst) in Hd. exact Hd. }
    split; [now exists d|]. repeat split; assumption || apply Hbuy.
Qed.

End TradeProps.

(** ** Goal allocator: errors, budget and order *)

Module AllocationProps.
Import Exn Goals JSFacts.

(** *** Requirements *)

Lemma requirementOf_returns currentYear assumptions goal :
  (currentYear < targetYear goal)%Z ->
  exists req,
    requirementOf currentYear assumptions goal = Ok req
    /\ req_goalId req = id goal
    /\ req_name req = name goal
    /\ req_priority req = priority goal
    /\ req_years req = (targetYear goal - currentYear)%Z
    /\ 0 <= req_requiredSIP req.
Proof.
  intros Hfuture. unfold requirementOf.
  replace (targetYear goal - currentYear <=? 0)%Z with false
    by (symmetry; apply Z.leb_gt; lia).
  cbn [negb].
  match goal with |- context [JS.Qltb 0 ?x] =>
    destruct (JS.Qltb 0 x) eqn:E end.
  - apply Qltb_lt in E.
    destruct (CompoundProps.requiredSIP_positive _ expectedReturn
                (targetYear goal - currentYear) Compound.monthly E)
      as (p & Hp & Hpos); [discriminate|lia|].
    rewrite Hp. cbn [bind]. eexists. split; [reflexivity|].
    cbn. repeat split. lra.
  - cbn [bind]. eexists. split; [reflexivity|]. cbn. repeat split. lra.
Qed.

Lemma requirementOf_past currentYear assumptions goal :
  (targetYear goal <= currentYear)%Z ->
  requirementOf currentYear assumptions goal
  = Throw (Error ("Goal " ++ id goal
                  ++ " has invalid target year (must be in future)")).
Proof.
  intros Hpast. unfold requirementOf.
  replace (targetYear goal - currentYear <=? 0)%Z with true
    by (symmetry; apply Z.leb_le; lia).
  reflexivity.
Qed.

(** What [requirementOf] keeps of a goal. *)
Definition requires (currentYear : Z) (goal : GoalInput)
    (req : Requirement) : Prop :=
  req_goalId req = id goal
  /\ req_name req = name goal
  /\ req_priority req = priority goal
  /\ req_years req = (targetYear goal - currentYear)%Z
  /\ (0 < req_years req)%Z
  /\ 0 <= req_requiredSIP req.

Lemma traverse_returns currentYear assumptions goals :
  List.Forall (fun g => (currentYear < targetYear g)%Z) goals ->
  exists reqs,
    traverse (requirementOf currentYear assumptions) goals = Ok reqs
    /\ Forall2 (requires currentYear) goals reqs.
Proof.
  induction 1 as [|g goals Hg _ [reqs [IH1 IH2]]]; simpl.
  - exists []. split; [reflexivity|constructor].
  - destruct (requirementOf_returns currentYear assumptions g Hg)
      as (req & Hreq & H1 & H2 & H3 & H4 & H5).
    rewrite Hreq, IH1. cbn [bind]. exists (req :: reqs).
    split; [reflexivity|]. constructor; [|exact IH2].
    unfold requires. repeat split; try assumption. lia.
Qed.

Lemma traverse_Ok currentYear assumptions goals reqs :
  traverse (requirementOf currentYear assumptions) goals = Ok reqs ->
  List.Forall (fun g => (currentYear < targetYear g)%Z) goals
  /\ Forall2 (requires currentYear) goals reqs.
Proof.
  revert reqs. induction goals as [|g goals IH]; intros reqs; simpl.
  - intros [= <-]. split; constructor.
  - destruct (Z_lt_le_dec currentYear (targetYear g)) as [Hg|Hg].
    + destruct (requirementOf_returns currentYear assumptions g Hg)
        as (req & Hreq & H1 & H2 & H3 & H4 & H5).
      rewrite Hreq. cbn [bind].
      destruct (traverse _ goals) as [rest|]; [|discriminate].
      cbn [bind]. intros [= <-]. destruct (IH rest eq_refl) as [IH1 IH2].
      split; constructor; try assumption.
      unfold requires. repeat split; try assumption. lia.
    + now rewrite (requirementOf_past _ _ _ Hg).
Qed.

Lemma traverse_past currentYear assumptions before goal rest :
  List.Forall (fun g => (currentYear < targetYear g)%Z) before ->
  (targetYear goal <= currentYear)%Z ->
  traverse (requirementOf currentYear assumptions)
           (before ++ goal :: rest)
  = Throw (Error ("Goal " ++ id goal
                  ++ " has invalid target year (must be in future)")).
Proof.
  intros Hbefore Hpast.
  induction Hbefore as [|g before Hg _ IH]; simpl.
  - now rewrite (requirementOf_past _ _ _ Hpast).
  - destruct (requirementOf_returns currentYear assumptions g Hg)
      as (req & Hreq & _).
    rewrite Hreq. cbn [bind]. now rewrite IH.
Qed.

(** [allocateGoalBudget] returns a result exactly when the budget is not
    negative and every goal's target year lies after the current year.
    A negative budget is reported first, whatever the goals; otherwise the
    first goal, in the order given, whose target year is not in the future
    is the one named in the error. *)
Theorem allocateGoalBudget_returns_or_throws
    (currentYear : Z) (goals : list GoalInput) (monthlyBudget : Q)
    (assumptions : Assumptions.MarketAssumptions) :
  let run := allocateGoalBudget currentYear goals monthlyBudget assumptions in
  ((exists res, run = Ok res)
   <-> 0 <= monthlyBudget
       /\ List.Forall (fun g => (currentYear < targetYear g)%Z) goals)
  /\ (monthlyBudget < 0 ->
      run = Throw (Error "Monthly budget cannot be negative"))
  /\ (forall before goal rest,
        0 <= monthlyBudget ->
        goals = before ++ goal :: rest ->
        List.Forall (fun g => (currentYear < targetYear g)%Z) before ->
        (targetYear goal <= currentYear)%Z ->
        run = Throw (Error ("Goal " ++ id goal
                            ++ " has invalid target year (must be in future)"))).
Proof.
  cbv zeta. unfold allocateGoalBudget. split; [|split].
  - destruct (JS.Qltb monthlyBudget 0) eqn:B; cbn [negb].
    + apply Qltb_lt in B. split; [intros [res F]; discriminate|].
      intros [Hb _]. lra.
    + apply Qltb_ge in B. destruct goals as [|g goals].
      * split; [intros _; split; [exact B|constructor]|eauto].
      * split.
        -- intros [res Hres]. split; [exact B|].
           destruct (traverse _ (g :: goals)) as [reqs|] eqn:T;
             [|discriminate].
           now apply traverse_Ok in T.
        -- intros [_ Hall].
           destruct (traverse_returns currentYear assumptions _ Hall)
             as (reqs & -> & _).
           cbn [bind]. eauto.
  - intros B. apply Qltb_lt in B. now rewrite B.
  - intros before goal rest B -> Hbefore Hpast.
    rewrite (Qltb_ge_intro _ _ B). cbn [negb].
    rewrite (traverse_past _ _ _ _ _ Hbefore Hpast).
    destruct before; reflexivity.
Qed.

(** *** The allocation loop *)

(** What the loop records for one requirement. *)
Definition funded (req : Requirement) (a : GoalAllocation) : Prop :=
  goalId a = req_goalId req
  /\ requiredSIP a = req_requiredSIP req
  /\ 0 <= monthlySIP a <= requiredSIP a
  /\ (feasibility a = on_track -> monthlySIP a = requiredSIP a)
  /\ (feasibility a = tight ->
      0 < monthlySIP a < requiredSIP a
      /\ 7 # 10 < monthlySIP a / requiredSIP a)
  /\ (feasibility a = underfunded ->
      0 < monthlySIP a < requiredSIP a
      /\ monthlySIP a / requiredSIP a <= 7 # 10)
  /\ (feasibility a = impossible -> monthlySIP a = 0).

(** Once a goal is not fully funded, nothing is left for the goals after
    it. *)
Definition nothingAfterShortfall (a b : GoalAllocation) : Prop :=
  feasibility a <> on_track -> monthlySIP b == 0.

Lemma allocateOne_step goals st req :
  0 <= req_requiredSIP req -> 0 <= remaining st ->
  let st' := allocateOne goals st req in
  exists a,
    allocated_so_far st' = allocated_so_far st ++ [a]
    /\ funded req a
    /\ monthlySIP a == remaining st - remaining st'
    /\ 0 <= remaining st'
    /\ (feasibility a <> on_track -> remaining st' == 0)
    /\ (remaining st == 0 -> monthlySIP a == 0).
Proof.
  intros Hreq Hrem. cbv zeta. unfold allocateOne.
  destruct (Qle_bool (req_requiredSIP req) (remaining st)) eqn:Full.
  - apply Qle_bool_iff in Full. eexists.
    cbn [allocated_so_far remaining]. split; [reflexivity|].
    unfold funded.
    cbn [goalId requiredSIP monthlySIP feasibility].
    repeat split; try reflexivity; try lra; try discriminate.
    + intros F. now contradiction F.
  - assert (Hlt : remaining st < req_requiredSIP req).
    { apply Qnot_le_lt. intros F. apply Qle_bool_iff in F. congruence. }
    destruct (JS.Qltb 0 (remaining st)) eqn:Part.
    + apply Qltb_lt in Part. eexists.
      cbn [allocated_so_far remaining]. split; [reflexivity|].
      unfold funded.
      cbn [goalId requiredSIP monthlySIP feasibility].
      destruct (JS.Qltb (7 # 10) (remaining st / req_requiredSIP req)) eqn:T;
        [apply Qltb_lt in T|apply Qltb_ge in T];
        repeat split; try reflexivity; try lra; try discriminate.
    + apply Qltb_ge in Part. eexists.
      cbn [allocated_so_far remaining]. split; [reflexivity|].
      unfold funded.
      cbn [goalId requiredSIP monthlySIP feasibility].
      repeat split; try reflexivity; try lra; try discriminate.
Qed.

Lemma allocate_loop goals :
  forall reqs st,
    List.Forall (fun r => 0 <= req_requiredSIP r) reqs ->
    0 <= remaining st ->
    let st' := fold_left (allocateOne goals) reqs st in
    exists new,
      allocated_so_far st' = allocated_so_far st ++ new
      /\ Forall2 funded reqs new
      /\ fold_left Qplus (map monthlySIP new) 0
         == remaining st - remaining st'
      /\ 0 <= remaining st' <= remaining st
      /\ (remaining st == 0 ->
          List.Forall (fun a => monthlySIP a == 0) new)
      /\ ForallOrdPairs nothingAfterShortfall new.
Proof.
  induction reqs as [|req reqs IH]; intros st Hreqs Hrem; cbv zeta.
  - exists []. simpl. rewrite app_nil_r.
    repeat split; try constructor; lra.
  - inversion Hreqs as [|? ? Hreq Hrest]; subst.
    destruct (allocateOne_step goals st req Hreq Hrem)
      as (a & Ha & Hf & Hm & Hpos & Hshort & Hzero).
    cbv zeta in *.
    destruct (IH (allocateOne goals st req) Hrest Hpos)
      as (new & Hnew & Hfs & Hsum & Hbound & Hz & Hpairs).
    cbv zeta in *. exists (a :: new). cbn [fold_left].
    split; [rewrite Hnew, Ha, <- app_assoc; reflexivity|].
    split; [constructor; assumption|].
    split.
    { cbn [map fold_left].
      rewrite DescriptiveProps.fold_plus_shift, Hsum, Hm. ring. }
    assert (Hdec : remaining (allocateOne goals st req) <= remaining st).
    { destruct Hf as (_ & _ & [H0 _] & _). lra. }
    split; [lra|]. split.
    + intros Hst. constructor; [now apply Hzero|].
      apply Hz. lra.
    + constructor; [|exact Hpairs].
      rewrite List.Forall_forall. intros b Hb Hna.
      specialize (Hz (Hshort Hna)). rewrite List.Forall_forall in Hz.
      now apply Hz.
Qed.

(** *** Priority order *)

(** [precedes a b]: [a] has the higher priority, or the same priority and
    a target year that is not later. *)
Definition precedes (a b : Requirement) : Prop :=
  priorityOrder (req_priority b) < priorityOrder (req_priority a)
  \/ (req_priority a = req_priority b /\ (req_years a <= req_years b)%Z).

Lemma priorityOrder_injective p q :
  priorityOrder p == priorityOrder q -> p = q.
Proof. destruct p, q; intros E; try reflexivity; discriminate. Qed.

Lemma byPriority_not_positive a b :
  JS.lt (JS.Fin 0) (byPriority a b) = false -> precedes a b.
Proof.
  unfold byPriority, precedes.
  destruct (Qeq_bool _ 0) eqn:E; cbn [negb JS.lt]; intros Hlt;
    apply Qltb_ge in Hlt.
  - apply Qeq_bool_iff in E. right. split.
    + apply priorityOrder_injective. lra.
    + change 0 with (inject_Z 0) in Hlt. rewrite <- Zle_Qle in Hlt. lia.
  - left. assert (~ priorityOrder (req_priority b)
                    - priorityOrder (req_priority a) == 0)
      by (intros F; apply Qeq_bool_iff in F; congruence).
    lra.
Qed.

Lemma byPriority_positive a b :
  JS.lt (JS.Fin 0) (byPriority a b) = true -> precedes b a.
Proof.
  unfold byPriority, precedes.
  destruct (Qeq_bool _ 0) eqn:E; cbn [negb JS.lt]; intros Hlt;
    apply Qltb_lt in Hlt.
  - apply Qeq_bool_iff in E. right. split.
    + apply priorityOrder_injective. lra.
    + change 0 with (inject_Z 0) in Hlt. rewrite <- Zlt_Qlt in Hlt. lia.
  - left. lra.
Qed.

Lemma precedes_transitive a b c : precedes a b -> precedes b c -> precedes a c.
Proof.
  unfold precedes. intros [H1|[E1 Y1]] [H2|[E2 Y2]].
  - left. lra.
  - left. now rewrite <- E2.
  - left. now rewrite E1.
  - right. split; [congruence|lia].
Qed.

Lemma insertBy_precedes x l :
  StronglySorted precedes l ->
  StronglySorted precedes (Statistics.insertBy byPriority x l).
Proof.
  induction l as [|y l IH]; intros Hs; cbn [Statistics.insertBy].
  - repeat constructor.
  - inversion Hs as [|? ? Hs' Hall]; subst.
    destruct (JS.lt (JS.Fin 0) (byPriority x y)) eqn:E.
    + constructor; [now apply IH|].
      apply List.Forall_forall. intros z Hz.
      eapply Permutation_in in Hz; [|apply StatisticsProps.insertBy_perm].
      destruct Hz as [<-|Hz]; [now apply byPriority_positive|].
      rewrite List.Forall_forall in Hall. now apply Hall.
    + constructor; [exact Hs|].
      constructor; [now apply byPriority_not_positive|].
      rewrite List.Forall_forall in *. intros z Hz.
      apply (precedes_transitive x y z);
        [apply byPriority_not_positive, E|apply Hall, Hz].
Qed.

Lemma sortBy_precedes l :
  StronglySorted precedes (Statistics.sortBy byPriority l).
Proof.
  induction l as [|x l IH]; simpl; [constructor|].
  now apply insertBy_precedes.
Qed.

(** A successful run of the allocator, taken apart. *)
Lemma allocateGoalBudget_Ok currentYear goals monthlyBudget assumptions res :
  allocateGoalBudget currentYear goals monthlyBudget assumptions = Ok res ->
  0 <= monthlyBudget
  /\ exists unsorted sorted left,
      traverse (requirementOf currentYear assumptions) goals = Ok unsorted
      /\ Forall2 (requires currentYear) goals unsorted
      /\ Permutation sorted unsorted
      /\ StronglySorted precedes sorted
      /\ Forall2 funded sorted (allocations res)
      /\ fold_left Qplus (map monthlySIP (allocations res)) 0
         == monthlyBudget - left
      /\ 0 <= left <= monthlyBudget
      /\ ForallOrdPairs nothingAfterShortfall (allocations res)
      /\ totalMonthly res == monthlyBudget - left
      /\ unallocated res = left
      /\ (0 < monthlyBudget ->
          budgetUtilization res
          = JS.Fin ((monthlyBudget - left) / monthlyBudget * 100)
          \/ (goals = [] /\ budgetUtilization res = JS.Fin 0)).
Proof.
  unfold allocateGoalBudget.
  destruct (JS.Qltb monthlyBudget 0) eqn:B; [discriminate|]. cbn [negb].
  apply Qltb_ge in B. intros Hres. split; [exact B|].
  destruct goals as [|g goals].
  - injection Hres as <-. exists [], [], monthlyBudget.
    cbn [traverse allocations map fold_left totalMonthly unallocated
         budgetUtilization].
    split; [reflexivity|]. split; [constructor|]. split; [constructor|].
    split; [constructor|]. split; [constructor|]. split; [lra|].
    split; [lra|]. split; [constructor|]. split; [lra|].
    split; [reflexivity|]. intros _. right. now split.
  - destruct (traverse _ (g :: goals)) as [unsorted|] eqn:T; [|discriminate].
    cbn [bind] in Hres. injection Hres as <-.
    destruct (traverse_Ok _ _ _ _ T) as [_ Hreqs].
    set (sorted := Statistics.sortBy byPriority unsorted).
    assert (Hperm : Permutation sorted unsorted)
      by apply StatisticsProps.sortBy_perm.
    assert (Hnonneg : List.Forall (fun r => 0 <= req_requiredSIP r) sorted).
    { apply List.Forall_forall. intros r Hr.
      eapply Permutation_in in Hr; [|exact Hperm].
      clear - Hreqs Hr. induction Hreqs as [|g0 r0 gs rs Hone _ IH];
        [destruct Hr|].
      destruct Hr as [<-|Hr]; [apply Hone|now apply IH]. }
    destruct (allocate_loop (g :: goals) sorted
                {| remaining := monthlyBudget; allocated_so_far := [];
                   conflicts_so_far := [] |} Hnonneg B)
      as (new & Hnew & Hf & Hsum & Hbound & _ & Hpairs).
    cbv zeta in *. cbn [remaining allocated_so_far app] in *.
    fold sorted.
    set (st := fold_left (allocateOne (g :: goals)) sorted _) in *.
    exists unsorted, sorted, (remaining st).
    cbn [allocations totalMonthly unallocated budgetUtilization].
    rewrite Hnew.
    split; [reflexivity|]. split; [exact Hreqs|]. split; [exact Hperm|].
    split; [apply sortBy_precedes|]. split; [exact Hf|].
    split; [exact Hsum|]. split; [exact Hbound|]. split; [exact Hpairs|].
    split; [reflexivity|]. split; [reflexivity|].
    intros Hpos. left. unfold JS.qdiv.
    destruct (Qeq_bool monthlyBudget 0) eqn:Z;
      [apply Qeq_bool_iff in Z; lra|reflexivity].
Qed.

(** *** Results *)

(** The allocator never spends more than the budget: every goal gets one
    allocation, between nothing and its required SIP (all of it when on
    track, none when impossible, a part otherwise); the allocations add up
    to [totalMonthly], which with [unallocated] makes up the budget; and
    for a positive budget the utilisation is the allocated share of it, in
    percent, from 0 to 100. *)
Theorem allocations_stay_within_budget
    (currentYear : Z) (goals : list GoalInput) (monthlyBudget : Q)
    (assumptions : Assumptions.MarketAssumptions)
    (res : GoalAllocationResult) :
  allocateGoalBudget currentYear goals monthlyBudget assumptions = Ok res ->
  length (allocations res) = length goals
  /\ Permutation (map goalId (allocations res)) (map id goals)
  /\ List.Forall
       (fun a =>
          0 <= monthlySIP a <= requiredSIP a
          /\ (feasibility a = on_track -> monthlySIP a = requiredSIP a)
          /\ (feasibility a = impossible -> monthlySIP a = 0)
          /\ (feasibility a = tight \/ feasibility a = underfunded ->
              0 < monthlySIP a < requiredSIP a))
       (allocations res)
  /\ fold_left Qplus (map monthlySIP (allocations res)) 0 == totalMonthly res
  /\ totalMonthly res + unallocated res == monthlyBudget
  /\ 0 <= unallocated res
  /\ 0 <= totalMonthly res <= monthlyBudget
  /\ (0 < monthlyBudget ->
      exists u,
        budgetUtilization res = JS.Fin u
        /\ u == totalMonthly res / monthlyBudget * 100
        /\ 0 <= u <= 100).
Proof.
  intros Hres.
  destruct (allocateGoalBudget_Ok _ _ _ _ _ Hres)
    as (Hb & unsorted & sorted & left & _ & Hreqs & Hperm & _ & Hf & Hsum
        & Hleft & _ & Htotal & Hun & Hutil).
  assert (Hids : map goalId (allocations res) = map req_goalId sorted).
  { clear - Hf. induction Hf as [|r a rs al Hone _ IH]; [reflexivity|].
    simpl. f_equal; [apply Hone|exact IH]. }
  assert (Hids' : map req_goalId unsorted = map id goals).
  { clear - Hreqs. induction Hreqs as [|g r gs rs Hone _ IH]; [reflexivity|].
    simpl. f_equal; [apply Hone|exact IH]. }
  split.
  { rewrite <- (length_map goalId), Hids, length_map,
      (Permutation_length Hperm), <- (length_map req_goalId), Hids',
      length_map.
    reflexivity. }
  split.
  { rewrite Hids, <- Hids'. now apply Permutation_map. }
  split.
  { clear - Hf. induction Hf as [|r a rs al Hone _ IH]; constructor;
      [|exact IH].
    destruct Hone as (_ & _ & Hrange & Hon & Htight & Hunder & Himp).
    repeat split; try apply Hrange; try assumption;
      destruct H as [H|H]; [now apply Htight|now apply Hunder
                           |now apply Htight|now apply Hunder]. }
  split; [now rewrite Hsum, Htotal|].
  split; [rewrite Htotal, Hun; ring|].
  split; [rewrite Hun; lra|].
  split; [rewrite Htotal; lra|].
  intros Hpos. destruct (Hutil Hpos) as [Hu|[-> Hu]].
  - exists ((monthlyBudget - left) / monthlyBudget * 100).
    split; [exact Hu|]. split; [now rewrite Htotal|].
    assert (H0 : 0 <= (monthlyBudget - left) / monthlyBudget)
      by (apply Qle_shift_div_l; lra).
    assert (H1 : (monthlyBudget - left) / monthlyBudget <= 1)
      by (apply Qle_shift_div_r; lra).
    lra.
  - exists 0. split; [exact Hu|].
    unfold allocateGoalBudget in Hres.
    rewrite (Qltb_ge_intro _ _ Hb) in Hres. injection Hres as <-.
    cbn [totalMonthly]. split; [field; lra|lra].
Qed.

Lemma allocations_stay_within_budget_witness :
  exists res,
    allocateGoalBudget 2026 [Examples.vacationGoal; Examples.educationGoal]
      300000 Assumptions.INDIA_2024_Q4 = Ok res
    /\ length (allocations res) = 2%nat
    /\ totalMonthly res + unallocated res == 300000
    /\ 0 <= totalMonthly res <= 300000.
Proof.
  eexists. split; [vm_compute; reflexivity|].
  match goal with
  | |- length (allocations ?r) = _ /\ _ =>
      assert (Hrun : allocateGoalBudget 2026
                       [Examples.vacationGoal; Examples.educationGoal]
                       300000 Assumptions.INDIA_2024_Q4 = Ok r)
        by (vm_compute; reflexivity);
      destruct (allocations_stay_within_budget _ _ _ _ _ Hrun)
        as (Hlen & _ & _ & _ & Hsum & _ & Hbound & _)
  end.
  split; [exact Hlen|]. split; [exact Hsum|exact Hbound].
Defined.

(** Goals are funded in priority order: the allocations are listed, and
    the budget is handed out, with high priority before medium before low
    and, within a priority, the nearer target year first; and from the
    first goal that is not fully funded on, no goal gets anything. *)
Theorem goals_are_funded_in_priority_order
    (currentYear : Z) (goals : list GoalInput) (monthlyBudget : Q)
    (assumptions : Assumptions.MarketAssumptions)
    (res : GoalAllocationResult) :
  allocateGoalBudget currentYear goals monthlyBudget assumptions = Ok res ->
  exists requirements sorted,
    Forall2 (requires currentYear) goals requirements
    /\ Permutation sorted requirements
    /\ StronglySorted precedes sorted
    /\ Forall2 (fun req a => goalId a = req_goalId req
                             /\ requiredSIP a = req_requiredSIP req)
               sorted (allocations res)
    /\ ForallOrdPairs nothingAfterShortfall (allocations res).
Proof.
  intros Hres.
  destruct (allocateGoalBudget_Ok _ _ _ _ _ Hres)
    as (_ & unsorted & sorted & left & _ & Hreqs & Hperm & Hsorted & Hf & _
        & _ & Hpairs & _).
  exists unsorted, sorted. repeat (split; [assumption|]).
  split; [|exact Hpairs].
  clear - Hf. induction Hf as [|r a rs al Hone _ IH]; constructor;
    [|exact IH].
  split; apply Hone.
Qed.

Lemma goals_are_funded_in_priority_order_witness :
  exists res,
    allocateGoalBudget 2026 [Examples.vacationGoal; Examples.educationGoal]
      300000 Assumptions.INDIA_2024_Q4 = Ok res
    /\ map goalId (allocations res) = ["1"; "3"]%string
    /\ ForallOrdPairs nothingAfterShortfall (allocations res).
Proof.
  eexists. split; [vm_compute; reflexivity|].
  split; [reflexivity|].
  match goal with
  | |- ForallOrdPairs _ (allocations ?r) =>
      assert (Hrun : allocateGoalBudget 2026
                       [Examples.vacationGoal; Examples.educationGoal]
                       300000 Assumptions.INDIA_2024_Q4 = Ok r)
        by (vm_compute; reflexivity);
      destruct (goals_are_funded_in_priority_order _ _ _ _ _ Hrun)
        as (reqs & sorted & _ & _ & _ & _ & Hpairs)
  end.
  exact Hpairs.
Defined.

End AllocationProps.
